(** * Statement-table extraction and normalisation engine (FileParsingService)

    A shallow embedding of the TypeScript class [FileParsingService]
    (header scoring, continuation merging, date / amount / reference
    normalisation, transaction assembly and validation) together with the
    properties stated about it.

    Conventions of the embedding.
    - A JavaScript string is a [string]: a sequence of code units, here
      restricted to the range U+0000..U+00FF.
    - A JavaScript array of strings is a [list string]; a hole or
      [undefined] element is represented by the empty string, which is what
      the readers in the source coerce it to ([x || ""]).  The arrays of a
      sheet keep their holes (a [list (option string)]) up to the column
      search, which is the one reader that tells a hole from a string.
    - An index that may be [-1] is a [Z].
    - A JavaScript Number is a binary64 value ([number], below).
    - A rejected promise / thrown [Error] is [Err msg]. *)

From Stdlib Require Import Bool Ascii String List Arith ZArith NArith Lia.
From Stdlib Require Import QArith Qround Qpower Qabs Lqa.
From Stdlib Require Import Floats.SpecFloat.
From Stdlib Require Uint63 Floats.PrimFloat Floats.FloatOps.
From Stdlib Require Import DecimalString DecimalNat.
Import ListNotations.

Close Scope Q_scope.

Local Open Scope char_scope.
Local Open Scope string_scope.

(* ================================================================== *)
(** ** JavaScript strings *)
(* ================================================================== *)

Module Js.

Definition code (c : ascii) : N := N_of_ascii c.

Definition between (lo hi : N) (c : ascii) : bool :=
  (lo <=? code c)%N && (code c <=? hi)%N.

(** [\d] *)
Definition isDigit (c : ascii) : bool := between 48 57 c.
(** [[A-Z]] *)
Definition isUpper (c : ascii) : bool := between 65 90 c.
(** [[a-z]] *)
Definition isLower (c : ascii) : bool := between 97 122 c.
(** [[A-Za-z]] *)
Definition isAlpha (c : ascii) : bool := isUpper c || isLower c.
(** [\w], the class that decides [\b] *)
Definition isWord (c : ascii) : bool :=
  isAlpha c || isDigit c || (code c =? 95)%N.
(** [\s] and the characters removed by [trim()]: TAB, LF, VT, FF, CR,
    SPACE and NBSP are the white space and line terminators below U+0100. *)
Definition isSpace (c : ascii) : bool :=
  between 9 13 c || (code c =? 32)%N || (code c =? 160)%N.

(** [String.prototype.toLowerCase] on one code unit (ASCII and Latin-1
    capital letters). *)
Definition lowerChar (c : ascii) : ascii :=
  if isUpper c || (between 192 222 c && negb (code c =? 215)%N)
  then ascii_of_N (code c + 32) else c.

Fixpoint toLowerCase (s : string) : string :=
  match s with
  | EmptyString => EmptyString
  | String c s' => String (lowerChar c) (toLowerCase s')
  end.

Definition isEmpty (s : string) : bool :=
  match s with EmptyString => true | _ => false end.

Fixpoint forallc (p : ascii -> bool) (s : string) : bool :=
  match s with
  | EmptyString => true
  | String c s' => p c && forallc p s'
  end.

Fixpoint existsc (p : ascii -> bool) (s : string) : bool :=
  match s with
  | EmptyString => false
  | String c s' => p c || existsc p s'
  end.

(** Keeps the characters that satisfy [p]: [s.replace(/[^p]/g, "")]. *)
Fixpoint filterc (p : ascii -> bool) (s : string) : string :=
  match s with
  | EmptyString => EmptyString
  | String c s' => if p c then String c (filterc p s') else filterc p s'
  end.

Fixpoint trimStart (s : string) : string :=
  match s with
  | EmptyString => EmptyString
  | String c s' => if isSpace c then trimStart s' else s
  end.

Fixpoint trimEnd (s : string) : string :=
  match s with
  | EmptyString => EmptyString
  | String c s' =>
      let t := trimEnd s' in
      if isSpace c && isEmpty t then EmptyString else String c t
  end.

Definition trim (s : string) : string := trimEnd (trimStart s).

(** [s.replace(/\s+/g, " ")]; [inrun] tells that the previous character
    belonged to the run already replaced. *)
Fixpoint collapseFrom (inrun : bool) (s : string) : string :=
  match s with
  | EmptyString => EmptyString
  | String c s' =>
      if isSpace c
      then if inrun then collapseFrom true s'
           else String " " (collapseFrom true s')
      else String c (collapseFrom false s')
  end.

Definition collapseSpaces (s : string) : string := collapseFrom false s.

(** [s.replace(/\s+/g, "")] *)
Definition removeSpaces (s : string) : string :=
  filterc (fun c => negb (isSpace c)) s.

Fixpoint startsWith (s k : string) : bool :=
  match k, s with
  | EmptyString, _ => true
  | String a k', String b s' => Ascii.eqb a b && startsWith s' k'
  | String _ _, EmptyString => false
  end.

(** [s.includes(k)] *)
Fixpoint includes (s k : string) : bool :=
  startsWith s k ||
  match s with
  | EmptyString => false
  | String _ s' => includes s' k
  end.

Fixpoint endsWith (s k : string) : bool :=
  (s =? k) ||
  match s with
  | EmptyString => false
  | String _ s' => endsWith s' k
  end.

Fixpoint repeatc (c : ascii) (n : nat) : string :=
  match n with
  | O => EmptyString
  | S n' => String c (repeatc c n')
  end.

(** The first [n] characters, and the others. *)
Fixpoint takec (n : nat) (s : string) : string :=
  match n, s with
  | S n', String c s' => String c (takec n' s')
  | _, _ => EmptyString
  end.

Fixpoint dropc (n : nat) (s : string) : string :=
  match n, s with
  | S n', String _ s' => dropc n' s'
  | _, _ => s
  end.

(** [s.padStart(n, "0")] *)
Definition padStart (n : nat) (c : ascii) (s : string) : string :=
  repeatc c (n - String.length s) ++ s.

(** [a.join(sep)] *)
Definition join (sep : string) (a : list string) : string :=
  String.concat sep a.

(** [s.split(c)] for a one-character separator: never the empty list. *)
Fixpoint split (sep : ascii) (s : string) : list string :=
  match s with
  | EmptyString => [EmptyString]
  | String c s' =>
      if Ascii.eqb c sep then EmptyString :: split sep s'
      else match split sep s' with
           | p :: ps => String c p :: ps
           | [] => [String c EmptyString]
           end
  end.

(** [a[i] || ""] *)
Definition at_ (a : list string) (i : Z) : string :=
  if (i <? 0)%Z then EmptyString else nth (Z.to_nat i) a EmptyString.

(** [a[i] = v]; an index beyond the end extends the array (the holes in
    between read as [""]), a negative index leaves the elements alone. *)
Fixpoint setNat (a : list string) (i : nat) (v : string) : list string :=
  match i, a with
  | O, [] => [v]
  | O, _ :: a' => v :: a'
  | S i', [] => EmptyString :: setNat [] i' v
  | S i', x :: a' => x :: setNat a' i' v
  end.

Definition set_ (a : list string) (i : Z) (v : string) : list string :=
  if (i <? 0)%Z then a else setNat a (Z.to_nat i) v.

(** [Array.from({length: n}, (_, i) => f i)] *)
Definition tabulate {A : Type} (n : nat) (f : nat -> A) : list A :=
  map f (seq 0 n).

(** [a.some(c => c && c.trim())] *)
Definition someNonBlank (a : list string) : bool :=
  existsb (fun c => negb (isEmpty c) && negb (isEmpty (trim c))) a.

(** [a.filter(c => c && c.trim())] *)
Definition nonBlankCells (a : list string) : list string :=
  filter (fun c => negb (isEmpty c) && negb (isEmpty (trim c))) a.

End Js.

(* ================================================================== *)
(** ** Regular expressions as backtracking matchers *)
(* ================================================================== *)

(** A pattern is run at a cursor (the character before the position, for
    [\b], and the rest of the input) and returns every way it can match, in
    the priority order of a backtracking engine: the first element of the
    list is the match JavaScript reports. *)
Module Re.
Import Js.

Definition cursor : Type := option ascii * string.

Definition Pat (A : Type) : Type := cursor -> list (A * cursor).

Definition ret {A} (a : A) : Pat A := fun cur => [(a, cur)].

Definition bind {A B} (p : Pat A) (f : A -> Pat B) : Pat B :=
  fun cur => flat_map (fun '(a, cur') => f a cur') (p cur).

Definition alt {A} (p q : Pat A) : Pat A :=
  fun cur => List.app (p cur) (q cur).

(** One character of a class. *)
Definition chr (p : ascii -> bool) : Pat string :=
  fun '(_, s) =>
    match s with
    | String c s' => if p c then [(String c EmptyString, (Some c, s'))] else []
    | EmptyString => []
    end.

(** [$] *)
Definition eos : Pat unit :=
  fun '(pv, s) => if isEmpty s then [(tt, (pv, s))] else [].

Definition wordBefore (pv : option ascii) : bool :=
  match pv with Some c => isWord c | None => false end.

Definition wordAfter (s : string) : bool :=
  match s with String c _ => isWord c | EmptyString => false end.

(** [\b] *)
Definition wordb : Pat unit :=
  fun '(pv, s) => if xorb (wordBefore pv) (wordAfter s) then [(tt, (pv, s))] else [].

Definition canMore (hi : option nat) : bool :=
  match hi with Some O => false | _ => true end.

Definition less (hi : option nat) : option nat :=
  match hi with Some n => Some (pred n) | None => None end.

(** Greedy repetition [c{lo,hi}] of a character class ([hi = None] for
    [{lo,}]): the longest run first, then shorter ones down to [lo]. *)
Fixpoint repc (p : ascii -> bool) (lo : nat) (hi : option nat)
         (pv : option ascii) (s : string) : list (string * cursor) :=
  let stop := if (lo =? 0)%nat then [(EmptyString, (pv, s))] else [] in
  match s with
  | String c s' =>
      if p c && canMore hi
      then List.app
             (map (fun '(x, cur) => (String c x, cur))
                  (repc p (pred lo) (less hi) (Some c) s'))
             stop
      else stop
  | EmptyString => stop
  end.

Definition rep (p : ascii -> bool) (lo : nat) (hi : option nat) : Pat string :=
  fun '(pv, s) => repc p lo hi pv s.

(** Greedy [( g )*] of a group; [fuel] bounds the number of iterations and
    an iteration that consumes nothing is not repeated. *)
Fixpoint star (fuel : nat) (g : Pat string) : Pat string :=
  fun cur =>
    match fuel with
    | O => [(EmptyString, cur)]
    | S fuel' =>
        List.app
          (flat_map
             (fun '(x, cur') =>
                if isEmpty x then []
                else map (fun '(y, cur'') => (x ++ y, cur'')) (star fuel' g cur'))
             (g cur))
          [(EmptyString, cur)]
    end.

(** [( g )*] *)
Definition many (g : Pat string) : Pat string :=
  fun cur => star (String.length (snd cur)) g cur.

Definition lastOr (pv : option ascii) (k : string) : option ascii :=
  match k with
  | EmptyString => pv
  | String _ _ => String.get (String.length k - 1) k
  end.

(** A literal, with or without the [i] flag; the literal itself is written
    in lower case when [ci] is set. *)
Definition lit (ci : bool) (k : string) : Pat string :=
  fun '(pv, s) =>
    if startsWith (if ci then toLowerCase s else s) k
    then [(String.substring 0 (String.length k) s,
           (lastOr pv (String.substring 0 (String.length k) s),
            String.substring (String.length k) (String.length s - String.length k) s))]
    else [].

(** [( g )?] *)
Definition opt (g : Pat string) : Pat string :=
  alt g (ret EmptyString).

(** A pattern that starts with [^]: tried at the start only; the value of
    the first match. *)
Definition exec {A} (p : Pat A) (s : string) : option A :=
  match p (None, s) with
  | (a, _) :: _ => Some a
  | [] => None
  end.

Definition matchesAt {A} (p : Pat A) (cur : cursor) : bool :=
  match p cur with [] => false | _ :: _ => true end.

Fixpoint searchFrom {A} (p : Pat A) (pv : option ascii) (s : string) : bool :=
  matchesAt p (pv, s) ||
  match s with
  | EmptyString => false
  | String c s' => searchFrom p (Some c) s'
  end.

(** [re.test(s)] for a pattern without [^]: tried at every position. *)
Definition test {A} (p : Pat A) (s : string) : bool := searchFrom p None s.

End Re.

Declare Scope re_scope.
Delimit Scope re_scope with re.
Notation "x <- p ;; q" := (Re.bind p (fun x => q))
  (at level 61, p at next level, right associativity) : re_scope.
Notation "p ;;; q" := (Re.bind p (fun _ => q))
  (at level 61, right associativity) : re_scope.

(* ================================================================== *)
(** ** JavaScript Numbers: binary64 with round-to-nearest-even *)
(* ================================================================== *)

(** Every arithmetic operation is the exact rational result rounded to the
    nearest binary64 value, ties to even (IEEE 754, section 4.3.1).  Values
    are kept in the canonical form of [spec_float]: a 53-bit mantissa, or a
    shorter one at the minimal exponent. *)
Module Num.
Import Js.
Local Open Scope Z_scope.

Definition number : Type := spec_float.

Definition prec : Z := 53.
Definition emax : Z := 1024.
Definition emin : Z := -1074.

Definition NaN : number := S754_nan.
Definition zero : number := S754_zero false.

(** [num / den] rounded to the nearest integer, ties to even
    ([0 <= num], [0 < den]). *)
Definition rne (num den : Z) : Z :=
  let q := num / den in
  match 2 * (num mod den) ?= den with
  | Lt => q
  | Gt => q + 1
  | Eq => if Z.even q then q else q + 1
  end.

(** [n / (d * 2^e)] as a fraction of integers. *)
Definition scaled (n d e : Z) : Z * Z :=
  if 0 <=? e then (n, d * 2 ^ e) else (n * 2 ^ (- e), d).

(** The exponent of the binade of [n / d]: [2^52 <= n / (d * 2^e) < 2^53],
    unless that is below [emin]. *)
Definition binade (n d : Z) : Z :=
  let l := Z.log2 n - Z.log2 d in
  let '(a, b) := scaled n d l in
  Z.max emin (if b <=? a then l - 52 else l - 53).

(** Mantissa and exponent of the nearest binary64 to [n / d] ([0 < n],
    [0 < d]); the mantissa may be [0] (underflow) and the exponent may
    exceed [emax - prec] (overflow). *)
Definition roundPos (n d : Z) : Z * Z :=
  let e := binade n d in
  let '(a, b) := scaled n d e in
  let m := rne a b in
  if m =? 2 ^ prec then (2 ^ (prec - 1), e + 1) else (m, e).

Definition build (s : bool) (me : Z * Z) : number :=
  let '(m, e) := me in
  match m with
  | Zpos p => if e <=? emax - prec then S754_finite s p e else S754_infinity s
  | _ => S754_zero s
  end.

(** The Number value of a rational; [szero] is the sign given to an exact
    zero. *)
Definition roundQ (szero : bool) (q : Q) : number :=
  let r := Qred q in
  match Qnum r with
  | Z0 => S754_zero szero
  | Zpos n => build false (roundPos (Zpos n) (Zpos (Qden r)))
  | Zneg n => build true (roundPos (Zpos n) (Zpos (Qden r)))
  end.

(** [2^e] as a rational. *)
Definition pow2 (e : Z) : Q :=
  if 0 <=? e then inject_Z (2 ^ e) else 1 # Z.to_pos (2 ^ (- e)).

(** [10^e] as a rational. *)
Definition pow10 (e : Z) : Q :=
  if 0 <=? e then inject_Z (10 ^ e) else 1 # Z.to_pos (10 ^ (- e)).

(** The real value of a finite number (and [0] for the others). *)
Definition val (x : number) : Q :=
  match x with
  | S754_finite s m e =>
      ((if s then inject_Z (Zneg m) else inject_Z (Zpos m)) * pow2 e)%Q
  | _ => 0%Q
  end.

Definition sign (x : number) : bool :=
  match x with
  | S754_zero s | S754_infinity s | S754_finite s _ _ => s
  | S754_nan => false
  end.

Definition isNaN (x : number) : bool :=
  match x with S754_nan => true | _ => false end.

Definition isFinite (x : number) : bool :=
  match x with S754_zero _ | S754_finite _ _ _ => true | _ => false end.

Definition isZero (x : number) : bool :=
  match x with S754_zero _ => true | _ => false end.

Definition isInf (x : number) : bool :=
  match x with S754_infinity _ => true | _ => false end.

(** [x * y] *)
Definition mul (x y : number) : number :=
  if isNaN x || isNaN y then NaN
  else if (isInf x && isZero y) || (isZero x && isInf y) then NaN
  else if isInf x || isInf y then S754_infinity (xorb (sign x) (sign y))
  else roundQ (xorb (sign x) (sign y)) (val x * val y).

(** [x / y] *)
Definition div (x y : number) : number :=
  if isNaN x || isNaN y then NaN
  else if (isInf x && isInf y) || (isZero x && isZero y) then NaN
  else if isInf x || isZero y then S754_infinity (xorb (sign x) (sign y))
  else if isInf y then S754_zero (xorb (sign x) (sign y))
  else roundQ (xorb (sign x) (sign y)) (val x / val y).

(** The Number value of an integer literal. *)
Definition ofZ (n : Z) : number := roundQ false (inject_Z n).

(** [Math.round(x)]: the integer nearest to [x], ties towards +Infinity;
    the sign of a zero result is the sign of [x]. *)
Definition round (x : number) : number :=
  match x with
  | S754_finite s m e =>
      if 0 <=? e then x
      else let n := Qfloor (val x + (1 # 2)) in
           if n =? 0 then S754_zero s else ofZ n
  | _ => x
  end.

(** Comparison of two numbers; [None] when one of them is NaN. *)
Definition compare (x y : number) : option comparison :=
  match x, y with
  | S754_nan, _ | _, S754_nan => None
  | S754_infinity sx, S754_infinity sy =>
      Some (if Bool.eqb sx sy then Eq else if sx then Lt else Gt)
  | S754_infinity sx, _ => Some (if sx then Lt else Gt)
  | _, S754_infinity sy => Some (if sy then Gt else Lt)
  | _, _ => Some (val x ?= val y)%Q
  end.

(** [x === y] *)
Definition eqb (x y : number) : bool :=
  match compare x y with Some Eq => true | _ => false end.

(** [x < y] *)
Definition ltb (x y : number) : bool :=
  match compare x y with Some Lt => true | _ => false end.

(** [x <= y] *)
Definition leb (x y : number) : bool :=
  match compare x y with Some (Lt | Eq) => true | _ => false end.

Definition abs (x : number) : number :=
  match x with
  | S754_zero _ => S754_zero false
  | S754_infinity _ => S754_infinity false
  | S754_finite _ m e => S754_finite false m e
  | S754_nan => S754_nan
  end.

Definition opp (x : number) : number :=
  match x with
  | S754_zero s => S754_zero (negb s)
  | S754_infinity s => S754_infinity (negb s)
  | S754_finite s m e => S754_finite (negb s) m e
  | S754_nan => S754_nan
  end.

(** *** parseFloat *)

Definition digitVal (c : ascii) : Z := Z.of_N (code c) - 48.

Fixpoint digitsAcc (acc : Z) (s : string) : Z :=
  match s with
  | EmptyString => acc
  | String c s' => digitsAcc (10 * acc + digitVal c) s'
  end.

(** The integer written by a string of decimal digits. *)
Definition digitsValue (s : string) : Z := digitsAcc 0 s.

(** The longest prefix in the class, and what follows it. *)
Fixpoint spanc (p : ascii -> bool) (s : string) : string * string :=
  match s with
  | EmptyString => (EmptyString, EmptyString)
  | String c s' =>
      if p c then let '(a, b) := spanc p s' in (String c a, b)
      else (EmptyString, s)
  end.

Definition signPart (s : string) : bool * string :=
  match s with
  | String "-" r => (true, r)
  | String "+" r => (false, r)
  | _ => (false, s)
  end.

(** [ExponentPart]: [e] or [E], an optional sign and at least one digit;
    [0] when there is none. *)
Definition exponentPart (s : string) : Z :=
  match s with
  | String c r =>
      if Ascii.eqb c "e" || Ascii.eqb c "E" then
        let '(neg, r') := signPart r in
        let '(ds, _) := spanc isDigit r' in
        if isEmpty ds then 0
        else if neg then - digitsValue ds else digitsValue ds
      else 0
  | EmptyString => 0
  end.

(** [parseFloat(s)]: leading white space is skipped, the longest prefix
    that is a [StrDecimalLiteral] is read and rounded to a Number; NaN when
    there is no such prefix. *)
Definition parseFloat (s : string) : number :=
  let '(neg, s2) := signPart (trimStart s) in
  if startsWith s2 "Infinity" then S754_infinity neg else
  let '(ip, r1) := spanc isDigit s2 in
  let '(fp, r2) :=
    match r1 with
    | String "." r => spanc isDigit r
    | _ => (EmptyString, r1)
    end in
  if isEmpty ip && isEmpty fp then NaN else
  let mant := digitsValue (ip ++ fp) in
  let ex := exponentPart r2 - Z.of_nat (String.length fp) in
  roundQ neg (inject_Z (if neg then - mant else mant) * pow10 ex).

(** *** Number::toString *)

Definition qltb (a b : Q) : bool := negb (Qle_bool b a).

(** Is [n] the decimal exponent of [q], that is [10^(n-1) <= q < 10^n]? *)
Definition isDecExp (q : Q) (n : Z) : bool :=
  Qle_bool (pow10 (n - 1)) q && qltb q (pow10 n).

(** The least [n] from [n0] on with [q < 10^n]. *)
Fixpoint decExpFrom (fuel : nat) (n : Z) (q : Q) : Z :=
  match fuel with
  | O => n
  | S fuel' => if qltb q (pow10 n) then n else decExpFrom fuel' (n + 1) q
  end.

(** [log10 q] estimated from the bit lengths of numerator and denominator. *)
Definition decExpGuess (q : Q) : Z :=
  ((Z.log2 (Qnum q) - Z.log2 (Zpos (Qden q))) * 1233) / 4096.

(** [n] with [10^(n-1) <= q < 10^n], for [q] the value of a positive
    finite number: looked for around the estimate first, then from the
    smallest exponent of a binary64 value upwards. *)
Definition decExp (q : Q) : Z :=
  let g := decExpGuess q in
  match find (isDecExp q) [g; g + 1; g + 2; g - 1] with
  | Some n => n
  | None => decExpFrom 640 (-324) q
  end.

Definition digitChar (d : Z) : ascii := ascii_of_N (Z.to_N (48 + d)).

(** The [k] decimal digits of [s], most significant first. *)
Fixpoint digitsK (k : nat) (s : Z) : string :=
  match k with
  | O => EmptyString
  | S k' =>
      String (digitChar ((s / 10 ^ Z.of_nat k') mod 10))
             (digitsK k' (s mod 10 ^ Z.of_nat k'))
  end.

(** Decimal rendering of a natural number. *)
Definition decimal (n : nat) : string :=
  DecimalString.NilZero.string_of_uint (Nat.to_uint n).

(** Does the decimal [s * 10^g] denote the Number [x]? *)
Definition denotes (x : number) (s g : Z) : bool :=
  eqb (roundQ false (inject_Z s * pow10 g)) x.

(** The candidate with [k] digits: the neighbours of [q] on the grid
    [10^(n0-k)] are tried, the nearer one first (the even one on a tie). *)
Definition candidate (x : number) (q : Q) (n0 : Z) (k : nat) : option Z :=
  let g := n0 - Z.of_nat k in
  let t := (q / pow10 g)%Q in
  let lo := Qfloor t in
  let hi := lo + 1 in
  let loFirst :=
    match (t + t ?= inject_Z (lo + hi))%Q with
    | Lt => true
    | Gt => false
    | Eq => Z.even lo
    end in
  let '(a, b) := if loFirst then (lo, hi) else (hi, lo) in
  if denotes x a g then Some a
  else if denotes x b g then Some b
  else None.

(** Search for the least number of digits [k] (from [k] up to [k + fuel])
    for which a candidate denotes [x]. *)
Fixpoint shortestFrom (fuel : nat) (x : number) (q : Q) (n0 : Z) (k : nat)
  : Z * Z * nat :=
  match candidate x q n0 k with
  | Some s =>
      if s =? 10 ^ Z.of_nat k then (10 ^ (Z.of_nat k - 1), n0 + 1, k)
      else (s, n0, k)
  | None =>
      match fuel with
      | O => (Qfloor (q / pow10 (n0 - Z.of_nat k)), n0, k)
      | S fuel' => shortestFrom fuel' x q n0 (S k)
      end
  end.

(** [(s, n, k)] of Number::toString: [k] digits [s] with
    [s * 10^(n-k)] denoting [x], [k] as small as possible. *)
Definition shortest (x : number) : Z * Z * nat :=
  let q := val x in
  shortestFrom 16 x q (decExp q) 1.

Definition insertDot (n : nat) (ds : string) : string :=
  takec n ds ++ "." ++ dropc n ds.

Definition exponentSuffix (e : Z) : string :=
  "e" ++ (if e <? 0 then "-" else "+") ++ decimal (Z.to_nat (Z.abs e)).

Definition formatPositive (snk : Z * Z * nat) : string :=
  let '(s, n, k) := snk in
  let ds := digitsK k s in
  let kz := Z.of_nat k in
  if (kz <=? n) && (n <=? 21) then ds ++ repeatc "0" (Z.to_nat (n - kz))
  else if (0 <? n) && (n <=? 21) then insertDot (Z.to_nat n) ds
  else if (-6 <? n) && (n <=? 0) then "0." ++ repeatc "0" (Z.to_nat (- n)) ++ ds
  else if (k =? 1)%nat then ds ++ exponentSuffix (n - 1)
  else insertDot 1 ds ++ exponentSuffix (n - 1).

(** [String(x)], that is Number::toString(x) in radix 10. *)
Definition toString (x : number) : string :=
  match x with
  | S754_nan => "NaN"
  | S754_zero _ => "0"
  | S754_infinity s => if s then "-Infinity" else "Infinity"
  | S754_finite s m e =>
      (if s then "-" else "") ++ formatPositive (shortest (S754_finite false m e))
  end.

End Num.

(* ================================================================== *)
(** ** FileParsingService: field normalisers *)
(* ================================================================== *)

Module FileParsingService.
Import Js Re.
Local Open Scope re_scope.

(** [[-\/]] *)
Definition isDateSep (c : ascii) : bool :=
  Ascii.eqb c "-" || Ascii.eqb c "/".

(** [/^(\d{4})[-\/](\d{1,2})[-\/](\d{1,2})$/], groups (y, m, d) *)
Definition ymdRe : Pat (string * string * string) :=
  y <- rep isDigit 4 (Some 4) ;;
  chr isDateSep ;;;
  m <- rep isDigit 1 (Some 2) ;;
  chr isDateSep ;;;
  d <- rep isDigit 1 (Some 2) ;;
  eos ;;;
  ret (y, m, d).

(** [/^(\d{1,2})[-\/](\d{1,2})[-\/](\d{4})$/], groups (d, m, y) *)
Definition dmyRe : Pat (string * string * string) :=
  d <- rep isDigit 1 (Some 2) ;;
  chr isDateSep ;;;
  m <- rep isDigit 1 (Some 2) ;;
  chr isDateSep ;;;
  y <- rep isDigit 4 (Some 4) ;;
  eos ;;;
  ret (d, m, y).

(** [/^(\d{1,2})\s+([A-Za-z]{3,})\s+(\d{2,4})$/], groups (d, monthName, yRaw) *)
Definition longRe : Pat (string * string * string) :=
  d <- rep isDigit 1 (Some 2) ;;
  rep isSpace 1 None ;;;
  monthName <- rep isAlpha 3 None ;;
  rep isSpace 1 None ;;;
  yRaw <- rep isDigit 2 (Some 4) ;;
  eos ;;;
  ret (d, monthName, yRaw).

(** The object literal of [monthNameToNumber], in insertion order (the
    order in which [Object.keys] enumerates it). *)
Definition monthMap : list (string * string) :=
  [ ("jan", "01"); ("january", "01");
    ("feb", "02"); ("february", "02");
    ("mar", "03"); ("march", "03");
    ("apr", "04"); ("april", "04");
    ("may", "05");
    ("jun", "06"); ("june", "06");
    ("jul", "07"); ("july", "07");
    ("aug", "08"); ("august", "08");
    ("sep", "09"); ("sept", "09"); ("september", "09");
    ("oct", "10"); ("october", "10");
    ("nov", "11"); ("november", "11");
    ("dec", "12"); ("december", "12") ].

Definition monthNameToNumber (name : string) : string :=
  let low := toLowerCase name in
  match find (fun kv => startsWith low (fst kv)) monthMap with
  | Some kv => snd kv
  | None => "01"
  end.

Definition parseDateFlexible (s : string) : string :=
  if isEmpty s then "" else
  let raw := collapseSpaces (trim s) in
  match exec ymdRe raw with
  | Some (y, m, d) => y ++ "-" ++ padStart 2 "0" m ++ "-" ++ padStart 2 "0" d
  | None =>
  match exec dmyRe raw with
  | Some (d, m, y) => y ++ "-" ++ padStart 2 "0" m ++ "-" ++ padStart 2 "0" d
  | None =>
  match exec longRe raw with
  | Some (d, monthName, yRaw) =>
      let y := if (String.length yRaw =? 2)%nat then "20" ++ yRaw else yRaw in
      let m := monthNameToNumber monthName in
      y ++ "-" ++ m ++ "-" ++ padStart 2 "0" d
  | None => raw
  end end end.

(** The length of a currency token at the start of [s]:
    [/(etb|birr|usd|\$)/i]. *)
Definition currencyToken (s : string) : option nat :=
  let low := toLowerCase s in
  if startsWith low "etb" then Some 3%nat
  else if startsWith low "birr" then Some 4%nat
  else if startsWith low "usd" then Some 3%nat
  else if startsWith low "$" then Some 1%nat
  else None.

(** [s.replace(/(etb|birr|usd|\$)/gi, "")]; [skip] counts the characters of
    the current token still to be dropped. *)
Fixpoint stripCurrencyFrom (skip : nat) (s : string) : string :=
  match s with
  | EmptyString => EmptyString
  | String c s' =>
      match skip with
      | S k => stripCurrencyFrom k s'
      | O =>
          match currencyToken s with
          | Some (S k) => stripCurrencyFrom k s'
          | _ => String c (stripCurrencyFrom 0 s')
          end
      end
  end.

Definition stripCurrency (s : string) : string := stripCurrencyFrom 0 s.

(** [[\d.,-]] *)
Definition isAmountChar (c : ascii) : bool :=
  isDigit c || Ascii.eqb c "." || Ascii.eqb c "," || Ascii.eqb c "-".

Definition isComma (c : ascii) : bool := Ascii.eqb c ",".
Definition isDot (c : ascii) : bool := Ascii.eqb c ".".

(** [tmp.replace(/,/g, "")] *)
Definition removeCommas (s : string) : string :=
  filterc (fun c => negb (isComma c)) s.

Definition parseAmount (s : string) : Num.number :=
  if isEmpty s then Num.zero else
  let tmp := stripCurrency s in
  let tmp := trim (filterc isAmountChar tmp) in
  if isEmpty tmp then Num.zero else
  let tmp :=
    if existsc isComma tmp && existsc isDot tmp then removeCommas tmp
    else if existsc isComma tmp then
      let parts := split "," tmp in
      if (1 <? List.length parts)%nat
         && (String.length (last parts "") =? 2)%nat
      then join "." parts
      else removeCommas tmp
    else tmp in
  let num := Num.parseFloat tmp in
  if Num.isNaN num then Num.zero
  else Num.div (Num.round (Num.mul num (Num.ofZ 100))) (Num.ofZ 100).

(* ================================================================== *)
(** ** FileParsingService: tables and transactions *)
(* ================================================================== *)

Record ParsedTransaction : Type := mkTransaction {
  bookDate : string;
  valueDate : option string;
  reference : string;
  description : string;
  debit : Num.number;
  credit : Num.number;
  closingBalance : option Num.number
}.

Record ParsedTable : Type := mkTable {
  headers : list string;
  rows : list (list string);
  transactions : list ParsedTransaction
}.

(** A promise that resolves to a value or rejects with [new Error(msg)]. *)
Inductive result (A : Type) : Type :=
| Ok (a : A)
| Err (msg : string).
Arguments Ok {A} a.
Arguments Err {A} msg.

(** [a.findIndex(p)] *)
Fixpoint findIndexFrom {A} (p : A -> bool) (i : Z) (a : list A) : Z :=
  match a with
  | [] => (-1)%Z
  | x :: a' => if p x then i else findIndexFrom p (i + 1)%Z a'
  end.

Definition findIndex {A} (p : A -> bool) (a : list A) : Z :=
  findIndexFrom p 0%Z a.

Fixpoint findColumnIndex (headers : list string) (possibleNames : list string) : Z :=
  match possibleNames with
  | [] => (-1)%Z
  | name :: names =>
      let idx := findIndex (fun h => includes h (toLowerCase name)) headers in
      if negb (idx =? -1)%Z then idx else findColumnIndex headers names
  end.

(** [/[-\\/]/] *)
Definition isRefSep (c : ascii) : bool :=
  Ascii.eqb c "-" || Ascii.eqb c "\" || Ascii.eqb c "/".

(** [s.replace(/[-\\/]{2,}/g, "-")]; [inrun] tells that the previous
    character belonged to the run already replaced. *)
Fixpoint collapseSepsFrom (inrun : bool) (s : string) : string :=
  match s with
  | EmptyString => EmptyString
  | String c s' =>
      if isRefSep c then
        if inrun then collapseSepsFrom true s'
        else match s' with
             | String c' _ =>
                 if isRefSep c' then String "-" (collapseSepsFrom true s')
                 else String c (collapseSepsFrom false s')
             | EmptyString => String c EmptyString
             end
      else String c (collapseSepsFrom false s')
  end.

Definition fixReference (ref : string) : string :=
  if isEmpty ref then "" else collapseSepsFrom false (removeSpaces ref).

(** [/debit/i.test(s)] and [/credit/i.test(s)] *)
Definition mentions (word s : string) : bool := test (lit true word) s.

Definition assemble (bookDateIndex valueDateIndex referenceIndex descriptionIndex
                     debitIndex creditIndex balanceIndex : Z)
                    (row : list string) : ParsedTransaction :=
  let get := fun idx : Z =>
    if (0 <=? idx)%Z && (idx <? Z.of_nat (List.length row))%Z
    then trim (at_ row idx) else "" in
  let bookDateRaw := get bookDateIndex in
  let bookDate := parseDateFlexible bookDateRaw in
  let valueDateRaw := if negb (valueDateIndex =? -1)%Z then get valueDateIndex else "" in
  let valueDate :=
    if isEmpty valueDateRaw then None else Some (parseDateFlexible valueDateRaw) in
  let referenceRaw := get referenceIndex in
  let reference := fixReference referenceRaw in
  let description := get descriptionIndex in
  let debit := parseAmount (get debitIndex) in
  let credit := parseAmount (get creditIndex) in
  let closingBalance :=
    if negb (balanceIndex =? -1)%Z then Some (parseAmount (get balanceIndex)) else None in
  let fallback := Num.eqb debit Num.zero && Num.eqb credit Num.zero in
  let joined := join " " row in
  let finalDebit :=
    if fallback && mentions "debit" joined then parseAmount joined else debit in
  let finalCredit :=
    if fallback && mentions "credit" joined then parseAmount joined else credit in
  mkTransaction bookDate valueDate reference description
                finalDebit finalCredit closingBalance.

Definition parseTableData (headers : list string) (rows : list (list string))
  : ParsedTable :=
  let normalizedHeaders := map (fun h => trim (toLowerCase h)) headers in
  let bookDateIndex := findColumnIndex normalizedHeaders ["book date"; "date"] in
  let valueDateIndex := findColumnIndex normalizedHeaders ["value date"] in
  let referenceIndex := findColumnIndex normalizedHeaders ["reference"; "ref"] in
  let descriptionIndex :=
    findColumnIndex normalizedHeaders ["description"; "details"; "narration"] in
  let debitIndex := findColumnIndex normalizedHeaders ["debit"; "dr"; "withdrawal"] in
  let creditIndex := findColumnIndex normalizedHeaders ["credit"; "cr"; "deposit"] in
  let balanceIndex := findColumnIndex normalizedHeaders ["balance"] in
  mkTable headers rows
    (map (assemble bookDateIndex valueDateIndex referenceIndex descriptionIndex
                   debitIndex creditIndex balanceIndex) rows).

(** *** The continuation merger *)

(** [[A-Z0-9a-z...]]: the alternatives of [dateRegex]. *)
Definition dmyLoose : Pat string :=
  rep isDigit 1 (Some 2) ;;; chr isDateSep ;;; rep isDigit 1 (Some 2) ;;;
  chr isDateSep ;;; rep isDigit 2 (Some 4).

Definition dMonY : Pat string :=
  rep isDigit 1 (Some 2) ;;; rep isSpace 1 None ;;; rep isUpper 3 (Some 3) ;;;
  rep isSpace 1 None ;;; rep isDigit 2 (Some 4).

Definition ymdLoose : Pat string :=
  rep isDigit 4 (Some 4) ;;; chr isDateSep ;;; rep isDigit 1 (Some 2) ;;;
  chr isDateSep ;;; rep isDigit 1 (Some 2).

(** [/\b(\d{1,2}[-/]\d{1,2}[-/]\d{2,4}|\d{1,2}\s+[A-Z]{3}\s+\d{2,4}|\d{4}[-/]\d{1,2}[-/]\d{1,2})\b/] *)
Definition dateRegex : Pat unit :=
  wordb ;;; alt dmyLoose (alt dMonY ymdLoose) ;;; wordb.

(** [/\b\d{1,3}(,\d{3})*(\.\d{2})?\b/] *)
Definition amountRegex : Pat unit :=
  wordb ;;; rep isDigit 1 (Some 3) ;;;
  many (chr isComma ;;; rep isDigit 3 (Some 3)) ;;;
  opt (chr isDot ;;; rep isDigit 2 (Some 2)) ;;; wordb.

Definition hasDate (row : list string) : bool := test dateRegex (at_ row 0).

(** The body of the merge of a continuation row into the description
    column of a block. *)
Definition mergeDescription (descriptionIndex : Z) (block row : list string)
  : list string :=
  let descIndex := if (0 <=? descriptionIndex)%Z then descriptionIndex else 2%Z in
  let descParts := nonBlankCells row in
  if (0 <? List.length descParts)%nat
  then set_ block descIndex (trim (at_ block descIndex ++ " " ++ join " " descParts))
  else block.

(** [if (!block[idx] && amountRegex.test(nextRow[idx] || "")) block[idx] = nextRow[idx]] *)
Definition patchAmount (idx : Z) (block nextRow : list string) : list string :=
  if isEmpty (at_ block idx) && test amountRegex (at_ nextRow idx)
  then set_ block idx (at_ nextRow idx)
  else block.

(** One iteration of the look-ahead loop. *)
Definition absorbRow (descriptionIndex debitIndex creditIndex balanceIndex : Z)
                     (block nextRow : list string) : list string :=
  let block := mergeDescription descriptionIndex block nextRow in
  let block := patchAmount debitIndex block nextRow in
  let block := patchAmount creditIndex block nextRow in
  patchAmount balanceIndex block nextRow.

Definition updateLast {A} (f : A -> A) (l : list A) : list A :=
  match rev l with
  | [] => []
  | x :: before => (rev before ++ [f x])%list
  end.

(** The [for] loop over [paddedRows] with its inner [while] loop; [rows] is
    what remains from index [i] on, [groupedRows] the rows pushed so far. *)
Fixpoint groupRows (descriptionIndex debitIndex creditIndex balanceIndex : Z)
                   (rows : list (list string)) (groupedRows : list (list string))
  {struct rows} : list (list string) :=
  match rows with
  | [] => groupedRows
  | row :: rest =>
      if hasDate row then
        (fix absorb (following : list (list string)) (block : list string)
           {struct following} : list (list string) :=
           match following with
           | [] => (groupedRows ++ [block])%list
           | nextRow :: following' =>
               if hasDate nextRow
               then groupRows descriptionIndex debitIndex creditIndex balanceIndex
                              following (groupedRows ++ [block])%list
               else absorb following'
                      (absorbRow descriptionIndex debitIndex creditIndex
                                 balanceIndex block nextRow)
           end) rest row
      else if (0 <? List.length groupedRows)%nat then
        groupRows descriptionIndex debitIndex creditIndex balanceIndex rest
                  (updateLast (fun prev => mergeDescription descriptionIndex prev row)
                              groupedRows)
      else
        groupRows descriptionIndex debitIndex creditIndex balanceIndex rest groupedRows
  end.

(** *** The table-document extractor *)

(** What the XML walk of [parseWord] reads from the document: the tables
    ([w:tbl]), their rows ([w:tr]), their cells ([w:tc]) and, for a cell, the
    text content of its text runs ([w:t]).  Tables are not nested. *)
Definition Cell : Type := list string.
Definition Row : Type := list Cell.
Definition Table : Type := list Row.
Definition Document : Type := list Table.

Definition getCellText (tc : Cell) : string :=
  let texts := map (fun t => trim (collapseSpaces t)) tc in
  join " " (filter (fun t => negb (isEmpty t)) texts).

Definition headerKeywords : list string :=
  [ "book date"; "reference"; "description"; "value date";
    "debit"; "credit"; "balance" ].

Definition rowScore (row : list string) : nat :=
  let rowText := toLowerCase (join " " row) in
  List.length (filter (fun kw => includes rowText kw) headerKeywords).

(** The header search: [rows] are the rows from index [i] on, the state
    is [(tableBestScore, headerIndex)]. *)
Fixpoint findHeaderFrom (i : Z) (rows : list (list string)) (st : nat * Z)
  : nat * Z :=
  match rows with
  | [] => st
  | row :: rows' =>
      let score := rowScore row in
      findHeaderFrom (i + 1)%Z rows'
        (if (fst st <? score)%nat then (score, i) else st)
  end.

Definition findHeader (rows : list (list string)) : nat * Z :=
  findHeaderFrom 0%Z (firstn (Nat.min 10 (List.length rows)) rows) (O, (-1)%Z).

(** The state of the loop over the tables. *)
Record Scan : Type := mkScan {
  chosenHeaders : list string;
  mergedRows : list (list string);
  globalBestScore : nat
}.

(** One iteration of [for (const tbl of tblEls)]. *)
Definition scanTable (st : Scan) (tbl : Table) : Scan :=
  let rows := map (map getCellText) tbl in
  if (List.length rows =? 0)%nat then st else
  let '(tableBestScore, headerIndex) := findHeader rows in
  if (headerIndex =? -1)%Z then st else
  let headerRow := map trim (nth (Z.to_nat headerIndex) rows []) in
  let '(chosen, best) :=
    if (List.length (chosenHeaders st) =? 0)%nat
       || (globalBestScore st <? tableBestScore)%nat
    then (headerRow, tableBestScore)
    else (chosenHeaders st, globalBestScore st) in
  let dataRows := skipn (Z.to_nat (headerIndex + 1)) rows in
  mkScan chosen (mergedRows st ++ filter someNonBlank dataRows)%list best.

Definition scanTables (tblEls : Document) : Scan :=
  fold_left scanTable tblEls (mkScan [] [] O).

(** [Math.max(...a)] for lengths ([a] not empty). *)
Definition maxLength (rs : list (list string)) : nat :=
  fold_right Nat.max O (map (@List.length string) rs).

(** [/(opening balance|closing balance|period start|period end|page \d+)/i] *)
Definition boilerplate : Pat string :=
  alt (lit true "opening balance")
 (alt (lit true "closing balance")
 (alt (lit true "period start")
 (alt (lit true "period end")
      (lit true "page " ;;; rep isDigit 1 None)))).

Definition keepRow (r : list string) : bool :=
  let text := toLowerCase (join " " r) in
  if test boilerplate text then false else someNonBlank r.

(** [parseWord] from the point where the tables have been read. *)
Definition parseTables (tblEls : Document) : result ParsedTable :=
  if (List.length tblEls =? 0)%nat then Err "No tables found in Word document." else
  let st := scanTables tblEls in
  let mergedRows := mergedRows st in
  if (List.length mergedRows =? 0)%nat then Err "No transactions found across tables" else
  let chosenHeaders :=
    if (List.length (chosenHeaders st) =? 0)%nat
    then tabulate (maxLength mergedRows) (fun i => "Column " ++ Num.decimal (i + 1))
    else chosenHeaders st in
  let chosenHeaders := map (fun h => trim (collapseSpaces h)) chosenHeaders in
  let normalizedHeaderLower := map (fun h => trim (toLowerCase h)) chosenHeaders in
  let descriptionIndex :=
    findColumnIndex normalizedHeaderLower ["description"; "details"; "narration"] in
  let debitIndex := findColumnIndex normalizedHeaderLower ["debit"; "dr"; "withdrawal"] in
  let creditIndex := findColumnIndex normalizedHeaderLower ["credit"; "cr"; "deposit"] in
  let balanceIndex := findColumnIndex normalizedHeaderLower ["balance"] in
  let headerLen := Nat.max (List.length chosenHeaders) (maxLength mergedRows) in
  let paddedRows :=
    map (fun r => tabulate headerLen (fun i => trim (nth i r ""))) mergedRows in
  let groupedRows :=
    groupRows descriptionIndex debitIndex creditIndex balanceIndex paddedRows [] in
  let finalRows := filter keepRow groupedRows in
  Ok (parseTableData chosenHeaders finalRows).

(** *** The plain-text columnar extractor *)

Definition nextIsSpace (s : string) : bool :=
  match s with String c _ => isSpace c | EmptyString => false end.

Definition consHead (c : ascii) (l : list string) : list string :=
  match l with
  | p :: ps => String c p :: ps
  | [] => [String c EmptyString]
  end.

(** [line.split(/\s{2,}|\t/)]; [insep] tells that the previous character
    belonged to a separator run of two or more white-space characters. *)
Fixpoint splitColumnsFrom (insep : bool) (s : string) : list string :=
  match s with
  | EmptyString => [EmptyString]
  | String c s' =>
      if insep && isSpace c then splitColumnsFrom true s'
      else if isSpace c && nextIsSpace s' then EmptyString :: splitColumnsFrom true s'
      else if Ascii.eqb c "009" then EmptyString :: splitColumnsFrom false s'
      else consHead c (splitColumnsFrom false s')
  end.

Definition splitColumns (line : string) : list string :=
  map trim (splitColumnsFrom false line).

Definition extractTableFromText (text : string) : list string * list (list string) :=
  let lines := filter (fun l => negb (isEmpty l)) (map trim (split "010" text)) in
  match lines with
  | [] => ([], [])
  | first :: others => (splitColumns first, map splitColumns others)
  end.

(** *** The dispatcher *)

Record File : Type := mkFile {
  type : string;
  name : string;
  content : list Byte.byte
}.

(** The stub that stands for the PDF text extractor. *)
Definition pdfParse (buffer : list Byte.byte) : result string :=
  Err "PDF parsing is not available in the browser. Use server-side parsing or convert to Word/Excel.".

(** *** Sheets *)

(** A cell of the array of arrays that [XLSX.utils.sheet_to_json] returns
    with [header: 1]: a string, a number or a boolean; [VNull] stands for
    [null] and [undefined]. *)
Inductive SheetValue : Type :=
| VString (s : string)
| VNumber (n : Num.number)
| VBoolean (b : bool)
| VNull.

(** [c || ""] *)
Definition orBlank (c : SheetValue) : SheetValue :=
  match c with
  | VString _ => c
  | VNumber n => if Num.isZero n || Num.isNaN n then VString "" else c
  | VBoolean b => if b then c else VString ""
  | VNull => VString ""
  end.

(** [c.toString()], for a value that is not [null]. *)
Definition valueToString (c : SheetValue) : string :=
  match c with
  | VString s => s
  | VNumber n => Num.toString n
  | VBoolean b => if b then "true" else "false"
  | VNull => ""
  end.

(** [(c || "").toString().trim()] *)
Definition cellText (c : SheetValue) : string :=
  trim (valueToString (orBlank c)).

(** An array of the sheet has a hole, [None], where the sheet has no cell:
    [map] skips a hole and leaves it in place. *)
Definition mapCells {A B} (f : A -> B) (a : list (option A)) : list (option B) :=
  map (option_map f) a.

(** [a[i] || ""] on a hole, which is also how [join] reads it. *)
Definition orEmpty (c : option string) : string :=
  match c with Some s => s | None => "" end.

Definition andThen {A B} (r : result A) (f : A -> result B) : result B :=
  match r with Ok a => f a | Err msg => Err msg end.

(** [headers.findIndex((h) => h.includes(name))] on an array with holes:
    [findIndex] visits a hole as [undefined], and reading [includes] of it
    throws a [TypeError]. *)
Fixpoint findIndexHoles (name : string) (i : Z) (a : list (option string)) : result Z :=
  match a with
  | [] => Ok (-1)%Z
  | None :: _ => Err "Cannot read properties of undefined (reading 'includes')"
      (* the message of V8 *)
  | Some h :: a' => if includes h name then Ok i else findIndexHoles name (i + 1)%Z a'
  end.

(** [findColumnIndex] on headers with holes. *)
Fixpoint findColumnIndexHoles (headers : list (option string))
                              (possibleNames : list string) : result Z :=
  match possibleNames with
  | [] => Ok (-1)%Z
  | name :: names =>
      andThen (findIndexHoles (toLowerCase name) 0%Z headers) (fun idx =>
      if negb (idx =? -1)%Z then Ok idx else findColumnIndexHoles headers names)
  end.

(** [parseTableData] on the arrays of a sheet.  A hole of a row is read as
    the empty string by [get] and by [join]; a hole of the header row makes
    the column search throw when it is reached.  In the table that is
    returned a hole is written as the empty string. *)
Definition parseSheetData (headers : list (option string))
                          (rows : list (list (option string))) : result ParsedTable :=
  let normalizedHeaders := mapCells (fun h => trim (toLowerCase h)) headers in
  andThen (findColumnIndexHoles normalizedHeaders ["book date"; "date"])
    (fun bookDateIndex =>
  andThen (findColumnIndexHoles normalizedHeaders ["value date"])
    (fun valueDateIndex =>
  andThen (findColumnIndexHoles normalizedHeaders ["reference"; "ref"])
    (fun referenceIndex =>
  andThen (findColumnIndexHoles normalizedHeaders ["description"; "details"; "narration"])
    (fun descriptionIndex =>
  andThen (findColumnIndexHoles normalizedHeaders ["debit"; "dr"; "withdrawal"])
    (fun debitIndex =>
  andThen (findColumnIndexHoles normalizedHeaders ["credit"; "cr"; "deposit"])
    (fun creditIndex =>
  andThen (findColumnIndexHoles normalizedHeaders ["balance"])
    (fun balanceIndex =>
  let rows := map (map orEmpty) rows in
  Ok (mkTable (map orEmpty headers) rows
        (map (assemble bookDateIndex valueDateIndex referenceIndex descriptionIndex
                       debitIndex creditIndex balanceIndex) rows))))))))).

Section Dispatcher.

(** [Buffer.from(await file.arrayBuffer())]: the bytes of the file in a
    [Buffer]; an error when the file cannot be read, and where [Buffer] is
    not defined, as in a browser. *)
Variable readBuffer : list Byte.byte -> result (list Byte.byte).

(** The archive and XML libraries: the tables of [word/document.xml], [None]
    when the archive has no such entry, an error when it cannot be read. *)
Variable readDocument : list Byte.byte -> result (option Document).

(** The spreadsheet library: the rows of the first sheet as
    [sheet_to_json] returns them with [header: 1], an error when the file
    cannot be read. *)
Variable readSheet : list Byte.byte -> result (list (list (option SheetValue))).

Definition parsePDF (file : File) : result ParsedTable :=
  match readBuffer (content file) with
  | Err msg => Err msg
  | Ok buffer =>
      match pdfParse buffer with
      | Err msg => Err msg
      | Ok text =>
          let '(headers, rows) := extractTableFromText text in
          Ok (parseTableData headers rows)
      end
  end.

Definition parseWord (file : File) : result ParsedTable :=
  match readDocument (content file) with
  | Err msg => Err msg
  | Ok None => Err "word/document.xml not found in .docx"
  | Ok (Some tblEls) => parseTables tblEls
  end.

Definition parseExcel (file : File) : result ParsedTable :=
  match readSheet (content file) with
  | Err msg => Err msg
  | Ok [] => Err "No data found in Excel file"
  | Ok (first :: others) =>
      let headers := mapCells cellText first in
      let rows := map (mapCells cellText) others in
      parseSheetData headers rows
  end.

Definition parseFile (file : File) : result ParsedTable :=
  let fileType := type file in
  let fileName := toLowerCase (name file) in
  if (fileType =? "application/pdf") || endsWith fileName ".pdf" then
    parsePDF file
  else if (fileType =? "application/vnd.openxmlformats-officedocument.wordprocessingml.document")
          || endsWith fileName ".docx" then
    parseWord file
  else if (fileType =? "application/vnd.ms-excel")
          || (fileType =? "application/vnd.openxmlformats-officedocument.spreadsheetml.sheet")
          || endsWith fileName ".xls"
          || endsWith fileName ".xlsx" then
    parseExcel file
  else Err "Unsupported file type. Please upload PDF, Word (.docx), or Excel files.".

End Dispatcher.

(** *** The validator *)

(** [/^\d{4}-\d{2}-\d{2}/] *)
Definition isoPrefix : Pat string :=
  rep isDigit 4 (Some 4) ;;; chr (Ascii.eqb "-") ;;; rep isDigit 2 (Some 2) ;;;
  chr (Ascii.eqb "-") ;;; rep isDigit 2 (Some 2).

Definition blank (s : string) : bool := isEmpty s || isEmpty (trim s).

Definition when (b : bool) (msg : string) : list string :=
  if b then [msg] else [].

(** The errors pushed by the callback of [forEach] for one transaction. *)
Definition checkTransaction (index : nat) (transaction : ParsedTransaction)
  : list string :=
  let label := "Transaction " ++ Num.decimal (index + 1) ++ ": " in
  List.concat
    [ if blank (bookDate transaction)
      then [label ++ "Missing book date"]
      else when (negb (matchesAt isoPrefix (None, bookDate transaction)))
                (label ++ "Invalid book date format (" ++ bookDate transaction ++ ")");
      when (blank (reference transaction)) (label ++ "Missing reference");
      when (blank (description transaction)) (label ++ "Missing description");
      when (Num.eqb (debit transaction) Num.zero
            && Num.eqb (credit transaction) Num.zero)
           (label ++ "Both debit and credit are zero");
      when (Num.ltb (debit transaction) Num.zero)
           (label ++ "Debit amount is negative ("
                  ++ Num.toString (debit transaction) ++ ")");
      when (Num.ltb (credit transaction) Num.zero)
           (label ++ "Credit amount is negative ("
                  ++ Num.toString (credit transaction) ++ ")") ].

Fixpoint checkFrom (index : nat) (transactions : list ParsedTransaction)
  : list string :=
  match transactions with
  | [] => []
  | t :: ts => (checkTransaction index t ++ checkFrom (S index) ts)%list
  end.

Record Validation : Type := mkValidation {
  valid : bool;
  errors : list string
}.

Definition validateTransactions (transactions : list ParsedTransaction) : Validation :=
  if (List.length transactions =? 0)%nat
  then mkValidation false ["No transactions found in the file"]
  else
    let errors := checkFrom 0 transactions in
    mkValidation (List.length errors =? 0)%nat errors.

End FileParsingService.

(* ================================================================== *)
(** ** ReceiptUpload: the upload mutation *)
(* ================================================================== *)

Module ReceiptUpload.
Import Js FileParsingService.

(** The part of the component state that the mutation writes. *)
Record Form : Type := mkForm {
  isProcessing : bool;
  error : string
}.

Section Mutation.

(** The libraries behind [FileParsingService.parseFile]. *)
Variable readBuffer : list Byte.byte -> result (list Byte.byte).
Variable readDocument : list Byte.byte -> result (option Document).
Variable readSheet : list Byte.byte -> result (list (list (option SheetValue))).

(** [TransactionService]: every call is a step on the state of the
    backend, and resolves or rejects. *)
Variable Backend : Type.
Variable Receipt : Type.
Variable id : Receipt -> string.
Variable uploadFile : File -> Backend -> result string * Backend.
Variable createReceipt :
  string -> string -> string -> nat -> Backend -> result Receipt * Backend.
Variable createTransactions :
  string -> string -> list ParsedTransaction -> Backend -> result unit * Backend.

Record Uploaded : Type := mkUploaded {
  receipt : Receipt;
  transactionCount : nat
}.

(** [file.size] *)
Definition size (file : File) : nat := List.length (content file).

(** The body of [try]: parse, validate, then the three backend calls. *)
Definition process (file : File) (agentId : string) (backend : Backend)
  : result Uploaded * Backend :=
  match parseFile readBuffer readDocument readSheet file with
  | Err msg => (Err msg, backend)
  | Ok parsed =>
      let validation := validateTransactions (transactions parsed) in
      if negb (valid validation)
      then (Err ("Validation failed: " ++ join ", " (errors validation)), backend)
      else
        match uploadFile file backend with
        | (Err msg, backend) => (Err msg, backend)
        | (Ok fileUrl, backend) =>
            match createReceipt (name file) fileUrl (type file) (size file) backend with
            | (Err msg, backend) => (Err msg, backend)
            | (Ok receipt, backend) =>
                match createTransactions (id receipt) agentId (transactions parsed)
                                         backend with
                | (Err msg, backend) => (Err msg, backend)
                | (Ok _, backend) =>
                    (Ok (mkUploaded receipt (List.length (transactions parsed))),
                     backend)
                end
            end
        end
  end.

(** [mutationFn]: [setIsProcessing(true)] and [setError] with the empty
    string, the body, and [setIsProcessing(false)] in [finally]; an error is
    thrown again. *)
Definition mutationFn (file : File) (agentId : string) (form : Form) (backend : Backend)
  : result Uploaded * Form * Backend :=
  let form := mkForm true "" in
  let '(outcome, backend) := process file agentId backend in
  (outcome, mkForm false (error form), backend).

End Mutation.

End ReceiptUpload.

(* ================================================================== *)
(** * Properties *)
(* ================================================================== *)

Import Js Re FileParsingService.
Import Num.

(** ** Vocabulary: the inputs of the examples and the predicates of the
    statements *)

Definition paymentRow : list string := ["01/02/2024"; "REF1"; "Payment"].

Definition vendorRow : list string := [""; ""; "to vendor"].

Definition salaryRow : list string := ["02/02/2024"; "REF2"; "Salary"].

Definition statementHeader : list string :=
  ["Book Date"; "Reference"; "Description"; "Debit"; "Credit"; "Balance"].

Definition shopRow : list string :=
  ["01/03/2024"; "ABC12345"; "Shop payment"; "100.00"; ""; "900.00"].

Definition shopTransaction : ParsedTransaction :=
  {| bookDate := "2024-03-01";
     valueDate := None;
     reference := "ABC12345";
     description := "Shop payment";
     debit := Num.ofZ 100;
     credit := Num.zero;
     closingBalance := Some (Num.ofZ 900) |}.

Definition statementDocument : Document :=
  [map (map (fun c => [c])) [statementHeader; shopRow]].

Definition pdfUnavailable : string :=
  "PDF parsing is not available in the browser. Use server-side parsing or convert to Word/Excel.".

Definition plainDocument : Document :=
  [ [ [["Date"]; ["Details"]; ["Amount"]];
      [["01/03/2024"]; ["Lunch"]; ["12.50"]] ] ].

Definition scoreless (tbl : Table) : Prop :=
  forall row, In row (firstn 10 (map (map getCellText) tbl)) -> rowScore row = O.

Definition label (index : nat) : string := "Transaction " ++ Num.decimal (index + 1) ++ ": ".

Definition bothZeroMessage (index : nat) : string :=
  "Transaction " ++ Num.decimal (index + 1) ++ ": Both debit and credit are zero".

Definition bothZero (t : ParsedTransaction) : bool :=
  Num.eqb (debit t) Num.zero && Num.eqb (credit t) Num.zero.

Definition zeroZero : ParsedTransaction :=
  mkTransaction "2024-03-01" None "REF1" "Nothing moved" Num.zero Num.zero None.

Definition creditOnly : ParsedTransaction :=
  mkTransaction "2024-03-02" None "REF2" "Deposit"
                Num.zero (Num.roundQ false (15000 # 100)) None.

(** The first character of [r], if any, is outside the class. *)
Definition stopsAt (p : ascii -> bool) (r : string) : bool :=
  match r with String c _ => negb (p c) | EmptyString => true end.

Definition fits (hi : option nat) (n : nat) : Prop :=
  match hi with Some h => n <= h | None => True end.

Definition notSpace (c : ascii) : bool := negb (isSpace c).

(** [r] starts with a character of the class [p]. *)
Definition startsIn (p : ascii -> bool) (r : string) : bool :=
  match r with String c _ => p c | EmptyString => false end.

Definition normalize (s : string) : string := collapseSpaces (trim s).

Definition twoDigits (m : string) : Prop :=
  String.length m = 2 /\ forallc isDigit m = true.

Definition monthNumbers : list string :=
  ["01"; "02"; "03"; "04"; "05"; "06"; "07"; "08"; "09"; "10"; "11"; "12"].

Definition recognised (s : string) : Prop :=
  exec ymdRe s <> None \/ exec dmyRe s <> None \/ exec longRe s <> None.

(** The number of a month, 1 to 12, and of a day of the month, 1 to 31, in
    decimal digits. *)
Definition isMonthNumber (m : string) : bool :=
  (1 <=? Num.digitsValue m)%Z && (Num.digitsValue m <=? 12)%Z.

Definition isDayNumber (d : string) : bool :=
  (1 <=? Num.digitsValue d)%Z && (Num.digitsValue d <=? 31)%Z.

(** The three supported notations of a date: [YYYY[-/]M[-/]D],
    [D[-/]M[-/]YYYY] and [D MonthName YYYY|YY], where [M] is the number of
    a month, [D] the number of a day, and the year after a month name has
    four digits or two. *)
Definition ymdDate (s : string) : bool :=
  match exec ymdRe s with
  | Some (y, m, d) => isMonthNumber m && isDayNumber d
  | None => false
  end.

Definition dmyDate (s : string) : bool :=
  match exec dmyRe s with
  | Some (d, m, y) => isMonthNumber m && isDayNumber d
  | None => false
  end.

Definition longDate (s : string) : bool :=
  match exec longRe s with
  | Some (d, monthName, y) =>
      isDayNumber d && ((String.length y =? 4)%nat || (String.length y =? 2)%nat)
  | None => false
  end.

Definition supportedDate (s : string) : bool :=
  ymdDate s || dmyDate s || longDate s.

(** [YYYY-MM-DD] with the month in 01..12 and the day in 01..31. *)
Definition isIsoDate (out : string) : bool :=
  match out with
  | String y1 (String y2 (String y3 (String y4 (String "-"
      (String m1 (String m2 (String "-" (String d1 (String d2 EmptyString))))))))) =>
      forallc isDigit (String y1 (String y2 (String y3 (String y4
                      (String m1 (String m2 (String d1 (String d2 "")))))))) 
      && (1 <=? Num.digitsValue (String m1 (String m2 "")))%Z
      && (Num.digitsValue (String m1 (String m2 "")) <=? 12)%Z
      && (1 <=? Num.digitsValue (String d1 (String d2 "")))%Z
      && (Num.digitsValue (String d1 (String d2 "")) <=? 31)%Z
  | _ => false
  end.

Definition sameNumber (x y : number) : bool :=
  match x, y with
  | S754_zero s, S754_zero s' => Bool.eqb s s'
  | S754_infinity s, S754_infinity s' => Bool.eqb s s'
  | S754_nan, S754_nan => true
  | S754_finite s m e, S754_finite s' m' e' =>
      Bool.eqb s s' && Pos.eqb m m' && Z.eqb e e'
  | _, _ => false
  end.

Definition sampleNumbers : list number :=
  [ S754_zero false; S754_zero true; S754_infinity false; S754_infinity true;
    S754_nan; ofZ 1; ofZ (-1); ofZ 3; ofZ 100; ofZ 123456; ofZ (2 ^ 53 + 1);
    ofZ (- 10 ^ 22);
    roundQ false (1 # 3); roundQ false (123456 # 100); roundQ true (-5 # 1000);
    roundQ false (4377229421026962500 # 100000);
    roundQ false (49 # 10 ^ 60);
    S754_finite false 1 (-1074); S754_finite false 9007199254740991 971 ].

(** Canonical numbers: the mantissa of a finite number fits in 53 bits. *)
Definition wf (x : number) : Prop :=
  match x with
  | S754_finite _ m _ => (Zpos m < 2 ^ 53)%Z
  | _ => True
  end.

Definition signed (sg : bool) (v : Q) : Q := if sg then - v else v.

Definition negative (q : Q) : bool := negb (Qle_bool 0 q).

(** The value of [parseAmount] once a number has been read. *)
Definition amountOf (num : number) : number :=
  if isNaN num then zero
  else div (round (mul num (ofZ 100))) (ofZ 100).


Definition eps : Q := 1 # 2 ^ 53.

Definition amountBound : Z := 20000000000000.

Definition signText (neg : bool) : string := if neg then "-" else "".




(** [[0-9.-]] *)
Definition isPlain (c : ascii) : bool :=
  isDigit c || Ascii.eqb c "." || Ascii.eqb c "-".

(** No white space at either end, and no white space inside other than
    single spaces; [inrun] tells that a space may not come next. *)
Fixpoint cleanFrom (inrun : bool) (s : string) : bool :=
  match s with
  | EmptyString => negb inrun
  | String c s' =>
      if isSpace c then negb inrun && Ascii.eqb c " " && cleanFrom true s'
      else cleanFrom false s'
  end.

Definition clean (s : string) : bool := isEmpty s || cleanFrom true s.

(** Single-spaced: every white-space character is a space that follows a
    character that is not white space. *)
Fixpoint tidyFrom (inrun : bool) (s : string) : bool :=
  match s with
  | EmptyString => true
  | String c s' =>
      if isSpace c then negb inrun && Ascii.eqb c " " && tidyFrom true s'
      else tidyFrom false s'
  end.

(** The conditions under which the validator pushes no error for a
    transaction. *)
Definition acceptable (t : ParsedTransaction) : bool :=
  negb (blank (bookDate t))
  && matchesAt isoPrefix (None, bookDate t)
  && negb (blank (reference t))
  && negb (blank (description t))
  && negb (Num.eqb (debit t) Num.zero && Num.eqb (credit t) Num.zero)
  && negb (Num.ltb (debit t) Num.zero)
  && negb (Num.ltb (credit t) Num.zero).

(** [[0-9,]] *)
Definition isGrouped (c : ascii) : bool := isDigit c || isComma c.

(** [[.,-]] *)
Definition isMark (c : ascii) : bool :=
  isDot c || isComma c || Ascii.eqb c "-".

(** No two separators [-], [\] or [/] in a row; [prev] tells that the
    previous character was one. *)
Fixpoint sepRunFree (prev : bool) (s : string) : bool :=
  match s with
  | EmptyString => true
  | String c s' =>
      if isRefSep c then negb prev && sepRunFree true s'
      else sepRunFree false s'
  end.

(** The header test of [findColumnIndex] for one candidate name. *)
Definition names (name : string) (h : string) : bool :=
  includes h (toLowerCase name).

(** No header carries the candidate name. *)
Definition absent (headers : list string) (name : string) : Prop :=
  forall h, In h headers -> names name h = false.

(** The headers as [parseTableData] compares them. *)
Definition normalizedHeaders (headers : list string) : list string :=
  map (fun h => trim (toLowerCase h)) headers.

(** The look-ahead loop on its own: the block once the continuation rows
    that follow have been absorbed, and the rows from the next dated row
    on. *)
Fixpoint absorbRows (descriptionIndex debitIndex creditIndex balanceIndex : Z)
                    (following : list (list string)) (block : list string)
  : list string * list (list string) :=
  match following with
  | [] => (block, [])
  | nextRow :: following' =>
      if hasDate nextRow then (block, following)
      else absorbRows descriptionIndex debitIndex creditIndex balanceIndex following'
             (absorbRow descriptionIndex debitIndex creditIndex balanceIndex block nextRow)
  end.

(** The rows of a document as texts. *)
Definition textRows (tblEls : Document) : list (list string) :=
  flat_map (map (map getCellText)) tblEls.

(** The phrases of the boilerplate filter that stand on their own. *)
Definition boilerplatePhrases : list string :=
  ["opening balance"; "closing balance"; "period start"; "period end"].

(** ** Continuation merging *)

(** The continuation row of the example holds no amount in any column. *)
Lemma vendorRow_no_amount (idx : Z) :
  test amountRegex (at_ vendorRow idx) = false.
Proof.
  unfold at_. destruct (idx <? 0)%Z; [reflexivity|].
  destruct (Z.to_nat idx) as [|[|[|[|n]]]]; reflexivity.
Qed.

Lemma patchAmount_vendorRow (idx : Z) (block : list string) :
  patchAmount idx block vendorRow = block.
Proof.
  unfold patchAmount. now rewrite vendorRow_no_amount, andb_false_r.
Qed.

(** C1. With the description column unresolved (index [-1], so that column 2
    is used), whatever the debit, credit and balance columns are, the merger
    turns the three padded rows of the example into exactly two logical rows:
    the first row with its description changed to ["Payment to vendor"], and
    the third row unchanged.  The boilerplate filter keeps both. *)
Theorem C1_continuation_example (debitIndex creditIndex balanceIndex : Z) :
  let groupedRows :=
    groupRows (-1) debitIndex creditIndex balanceIndex
              [paymentRow; vendorRow; salaryRow] [] in
  groupedRows = [["01/02/2024"; "REF1"; "Payment to vendor"]; salaryRow]
  /\ filter keepRow groupedRows = groupedRows.
Proof.
  cbn -[patchAmount vendorRow keepRow filter].
  unfold absorbRow. rewrite !patchAmount_vendorRow.
  split; reflexivity.
Qed.

(** ** End-to-end scenario *)

(** The tables are only read through the text of their cells. *)
Lemma parseTables_statement (tbl : Table) :
  map (map getCellText) tbl = [statementHeader; shopRow] ->
  parseTables [tbl] = Ok (mkTable statementHeader [shopRow] [shopTransaction]).
Proof.
  intros H. unfold parseTables, scanTables.
  cbn [List.length Nat.eqb fold_left]. unfold scanTable. rewrite H.
  vm_compute. reflexivity.
Qed.

(** C2. A table-document with exactly one table, whose first row reads
    [Book Date | Reference | Description | Debit | Credit | Balance] and
    whose only other row reads
    [01/03/2024 | ABC12345 | Shop payment | 100.00 | (empty) | 900.00],
    is parsed into exactly one transaction: book date ["2024-03-01"], no
    value date, reference ["ABC12345"], description ["Shop payment"],
    debit 100, credit 0 and closing balance 900. *)
Theorem C2_end_to_end
        (readDocument : list Byte.byte -> result (option Document))
        (file : File) (tblEls : Document) :
  readDocument (content file) = Ok (Some tblEls) ->
  map (map (map getCellText)) tblEls = [[statementHeader; shopRow]] ->
  parseWord readDocument file
  = Ok (mkTable statementHeader [shopRow] [shopTransaction]).
Proof.
  intros Hread Hcells. unfold parseWord. rewrite Hread.
  destruct tblEls as [|tbl [|tbl' rest]]; try discriminate.
  injection Hcells as Hcells. now apply parseTables_statement.
Qed.

Lemma C2_end_to_end_witness :
  map (map (map getCellText)) statementDocument = [[statementHeader; shopRow]]
  /\ parseWord (fun _ => Ok (Some statementDocument))
               (mkFile "" "statement.docx" [])
     = Ok (mkTable statementHeader [shopRow] [shopTransaction]).
Proof.
  split; [reflexivity|].
  apply (C2_end_to_end _ _ statementDocument); reflexivity.
Defined.

(** ** Amount examples *)

(** C3 as stated fails on its second example: the string ["1.234,56"]
    contains both separators, so the commas are removed and ["1.23456"] is
    parsed and rounded to two places; the result is not 1234.56. *)
Lemma C3_counterexample :
  parseAmount "1.234,56" <> Num.roundQ false (123456 # 100).
Proof. vm_compute. discriminate. Qed.

(** C3, amended. The amount normaliser maps ["1,234.56"] to 1234.56,
    ["1.234,56"] to 1.23, ["1,234"] to 1234 and ["12,34"] to 12.34. *)
Theorem C3_amount_examples :
  parseAmount "1,234.56" = Num.roundQ false (123456 # 100)
  /\ parseAmount "1.234,56" = Num.roundQ false (123 # 100)
  /\ parseAmount "1,234" = Num.ofZ 1234
  /\ parseAmount "12,34" = Num.roundQ false (1234 # 100).
Proof. repeat split; vm_compute; reflexivity. Qed.

(** ** The PDF path *)

Lemma endsWith_toLowerCase (s k : string) :
  endsWith s k = true -> endsWith (toLowerCase s) (toLowerCase k) = true.
Proof.
  induction s as [|c s IH]; cbn [endsWith toLowerCase]; intros H.
  - rewrite orb_false_r in H. apply String.eqb_eq in H. subst k. reflexivity.
  - apply orb_true_iff in H. destruct H as [H|H].
    + apply String.eqb_eq in H. subst k. cbn [toLowerCase].
      now rewrite String.eqb_refl.
    + rewrite (IH H). apply orb_true_r.
Qed.

(** C4 as stated fails: for a file declared as PDF no table is returned,
    neither where [Buffer] exists nor where it does not. *)
Lemma C4_counterexample :
  (~ exists table : ParsedTable,
       parseFile (fun bytes => Ok bytes) (fun _ => Ok None) (fun _ => Ok [])
                 (mkFile "application/pdf" "statement.pdf" [])
       = Ok table)
  /\ (~ exists table : ParsedTable,
       parseFile (fun _ => Err "Buffer is not defined") (fun _ => Ok None) (fun _ => Ok [])
                 (mkFile "application/pdf" "statement.pdf" [])
       = Ok table).
Proof. split; intros [table H]; vm_compute in H; discriminate. Qed.

(** C4, amended. For every input file whose declared MIME type is
    [application/pdf] or whose file name ends in [.pdf] (in any letter
    case), [parseFile] takes the PDF path and rejects: the text extractor is
    a stub that never returns a text, so the line-splitting fallback is not
    reached and no table is returned.  The error is that of reading the file
    into a [Buffer] when that step fails, and the error of the stub
    otherwise. *)
Theorem C4_pdf_rejected
        (readBuffer : list Byte.byte -> result (list Byte.byte))
        (readDocument : list Byte.byte -> result (option Document))
        (readSheet : list Byte.byte -> result (list (list (option SheetValue))))
        (file : File) :
  type file = "application/pdf"
  \/ endsWith (name file) ".pdf" = true
  \/ endsWith (toLowerCase (name file)) ".pdf" = true ->
  parseFile readBuffer readDocument readSheet file = parsePDF readBuffer file
  /\ (forall buffer text, pdfParse buffer <> Ok text)
  /\ (exists msg, parseFile readBuffer readDocument readSheet file = Err msg)
  /\ (forall msg, readBuffer (content file) = Err msg ->
       parseFile readBuffer readDocument readSheet file = Err msg)
  /\ (forall buffer, readBuffer (content file) = Ok buffer ->
       parseFile readBuffer readDocument readSheet file = Err pdfUnavailable).
Proof.
  intros H. unfold parseFile.
  assert (E : (type file =? "application/pdf")
              || endsWith (toLowerCase (name file)) ".pdf" = true).
  { destruct H as [H|[H|H]].
    - rewrite H. reflexivity.
    - apply endsWith_toLowerCase in H. cbn [toLowerCase] in H.
      change (endsWith (toLowerCase (name file)) ".pdf" = true) in H.
      rewrite H. apply orb_true_r.
    - rewrite H. apply orb_true_r. }
  rewrite E. split; [reflexivity|]. unfold parsePDF.
  split; [discriminate|].
  destruct (readBuffer (content file)) as [buffer|msg].
  - split; [now exists pdfUnavailable|]. split; [discriminate | reflexivity].
  - split; [now exists msg|]. split; [now intros ? [= <-] | discriminate].
Qed.

Lemma C4_pdf_rejected_witness :
  endsWith "Statement-March.PDF" ".pdf" = false
  /\ endsWith (toLowerCase "Statement-March.PDF") ".pdf" = true
  /\ parseFile (fun bytes => Ok bytes) (fun _ => Ok None) (fun _ => Ok [])
               (mkFile "application/octet-stream" "Statement-March.PDF" [])
     = Err pdfUnavailable
  /\ parseFile (fun _ => Err "Buffer is not defined") (fun _ => Ok None) (fun _ => Ok [])
               (mkFile "application/octet-stream" "Statement-March.PDF" [])
     = Err "Buffer is not defined".
Proof.
  split; [reflexivity|]. split; [reflexivity|]. split.
  - exact (proj2 (proj2 (proj2 (proj2
             (C4_pdf_rejected (fun bytes => Ok bytes) (fun _ => Ok None) (fun _ => Ok [])
                (mkFile "application/octet-stream" "Statement-March.PDF" [])
                (or_intror (or_intror eq_refl)))))) [] eq_refl).
  - exact (proj1 (proj2 (proj2 (proj2
             (C4_pdf_rejected (fun _ => Err "Buffer is not defined") (fun _ => Ok None)
                (fun _ => Ok [])
                (mkFile "application/octet-stream" "Statement-March.PDF" [])
                (or_intror (or_intror eq_refl)))))) _ eq_refl).
Defined.

(** ** Documents without a header row *)

(** C8 on the code: a document whose rows are not blank and none of which
    scores on the header keywords is rejected, no generic labels are
    synthesised. *)
Theorem C8_plain_document_rejected :
  (forall tbl row, In tbl plainDocument -> In row (map (map getCellText) tbl) ->
                   rowScore row = O /\ someNonBlank row = true)
  /\ parseTables plainDocument = Err "No transactions found across tables".
Proof.
  split; [|reflexivity].
  intros tbl row [<-|[]] Hrow. cbn in Hrow.
  destruct Hrow as [<-|[<-|[]]]; split; reflexivity.
Qed.

(** ** Tables without a header row *)

Lemma findHeaderFrom_spec (i : Z) (rows : list (list string)) (st : nat * Z) :
  findHeaderFrom i rows st = st
  \/ (fst st < fst (findHeaderFrom i rows st)
      /\ (i <= snd (findHeaderFrom i rows st))%Z
      /\ rowScore (nth (Z.to_nat (snd (findHeaderFrom i rows st) - i)) rows [])
         = fst (findHeaderFrom i rows st)).
Proof.
  revert i st. induction rows as [|row rows IH]; intros i st; cbn [findHeaderFrom].
  - now left.
  - destruct (Nat.ltb_spec (fst st) (rowScore row)) as [C|C].
    + destruct (IH (i + 1)%Z (rowScore row, i)) as [E|(E1 & E2 & E3)].
      * rewrite E. right. cbn [fst snd]. rewrite Z.sub_diag. cbn. auto with zarith.
      * right. cbn [fst] in E1. split; [lia|]. split; [lia|].
        rewrite <- E3.
        replace (Z.to_nat (snd (findHeaderFrom (i + 1) rows (rowScore row, i)) - i))
          with (S (Z.to_nat (snd (findHeaderFrom (i + 1) rows (rowScore row, i)) - (i + 1))))
          by lia.
        reflexivity.
    + destruct (IH (i + 1)%Z st) as [E|(E1 & E2 & E3)].
      * now left.
      * right. split; [exact E1|]. split; [lia|].
        rewrite <- E3.
        replace (Z.to_nat (snd (findHeaderFrom (i + 1) rows st) - i))
          with (S (Z.to_nat (snd (findHeaderFrom (i + 1) rows st) - (i + 1))))
          by lia.
        reflexivity.
Qed.

(** A header row, when one is found, is not empty. *)
Lemma findHeader_row (rows : list (list string)) :
  snd (findHeader rows) <> (-1)%Z ->
  nth (Z.to_nat (snd (findHeader rows))) rows [] <> [].
Proof.
  unfold findHeader. set (limit := Nat.min 10 (List.length rows)).
  intros H.
  destruct (findHeaderFrom_spec 0 (firstn limit rows) (O, (-1)%Z)) as [E|(E1 & E2 & E3)].
  - rewrite E in H. now destruct H.
  - set (r := findHeaderFrom 0 (firstn limit rows) (O, (-1)%Z)) in *.
    rewrite Z.sub_0_r in E3. cbn [fst] in E1.
    assert (Hn : nth (Z.to_nat (snd r)) (firstn limit rows) [] <> []).
    { intros C. rewrite C in E3. change (rowScore []) with O in E3. lia. }
    rewrite nth_firstn in Hn.
    destruct (Z.to_nat (snd r) <? limit)%nat; [exact Hn | now destruct Hn].
Qed.

(** A table none of whose first ten rows scores is skipped. *)
Lemma findHeaderFrom_none (i : Z) (rows : list (list string)) :
  (forall row, In row rows -> rowScore row = O) ->
  findHeaderFrom i rows (O, (-1)%Z) = (O, (-1)%Z).
Proof.
  revert i. induction rows as [|row rows IH]; intros i H; cbn [findHeaderFrom].
  - reflexivity.
  - rewrite (H row) by now left. cbn [fst Nat.ltb Nat.leb]. apply IH.
    intros r Hr. apply H. now right.
Qed.

Lemma firstn_min_length {A} (n : nat) (l : list A) :
  firstn (Nat.min n (List.length l)) l = firstn n l.
Proof.
  destruct (Nat.le_ge_cases n (List.length l)) as [H|H].
  - now rewrite Nat.min_l.
  - rewrite Nat.min_r by assumption. rewrite firstn_all.
    symmetry. now apply firstn_all2.
Qed.

Lemma scanTable_scoreless (st : Scan) (tbl : Table) :
  scoreless tbl -> scanTable st tbl = st.
Proof.
  intros H. unfold scanTable.
  destruct (List.length (map (map getCellText) tbl) =? 0)%nat; [reflexivity|].
  unfold findHeader. rewrite findHeaderFrom_none; [reflexivity|].
  intros row Hr. apply H. now rewrite firstn_min_length in Hr.
Qed.

(** The rule behind C8 on the code: when no row of any table scores on the
    header keywords, every table is skipped and the document is rejected,
    whatever its rows hold. *)
Lemma parseTables_scoreless (tblEls : Document) :
  tblEls <> [] -> Forall scoreless tblEls ->
  parseTables tblEls = Err "No transactions found across tables".
Proof.
  intros Hne Hall. unfold parseTables.
  destruct tblEls as [|tbl tbls]; [contradiction|]. cbn [List.length Nat.eqb].
  assert (E : forall l st, Forall scoreless l -> fold_left scanTable l st = st).
  { intros l st Hl. induction Hl as [|t ts Ht _ IH]; cbn [fold_left]; [reflexivity|].
    now rewrite scanTable_scoreless. }
  unfold scanTables. rewrite E by assumption. reflexivity.
Qed.

(** The branch that synthesises [Column 1..N] cannot be taken: as soon as
    a table contributes rows, a non-empty header has been chosen. *)
Lemma generic_labels_unreachable (tblEls : Document) :
  mergedRows (scanTables tblEls) <> [] -> chosenHeaders (scanTables tblEls) <> [].
Proof.
  unfold scanTables.
  assert (Inv : forall st, (chosenHeaders st = [] -> mergedRows st = []) ->
                chosenHeaders (fold_left scanTable tblEls st) = [] ->
                mergedRows (fold_left scanTable tblEls st) = []).
  { induction tblEls as [|tbl tbls IH]; intros st H; cbn [fold_left]; [exact H|].
    apply IH. unfold scanTable.
    destruct (List.length (map (map getCellText) tbl) =? 0)%nat; [exact H|].
    pose proof (findHeader_row (map (map getCellText) tbl)) as Hrow.
    destruct (findHeader (map (map getCellText) tbl)) as [score idx].
    cbn [snd] in Hrow.
    destruct (Z.eqb_spec idx (-1)) as [C|C]; [exact H|].
    specialize (Hrow C).
    destruct ((List.length (chosenHeaders st) =? 0)%nat || (globalBestScore st <? score)%nat)
      eqn:B; cbn [chosenHeaders mergedRows].
    - intros E. apply map_eq_nil in E. contradiction.
    - intros E. apply orb_false_iff in B. destruct B as [B _].
      rewrite E in B. discriminate. }
  intros Hm Hc. apply Hm. apply (Inv (mkScan [] [] O)); auto.
Qed.

(** ** The validator *)

Lemma string_app_assoc (a b c : string) : (a ++ b) ++ c = a ++ (b ++ c).
Proof. induction a as [|x a IH]; cbn; [reflexivity | now rewrite IH]. Qed.

Lemma string_of_uint_digits (d : Decimal.uint) :
  forallc isDigit (NilEmpty.string_of_uint d) = true.
Proof. induction d; cbn; auto. Qed.

Lemma decimal_digits (n : nat) : forallc isDigit (Num.decimal n) = true.
Proof.
  unfold Num.decimal, NilZero.string_of_uint.
  destruct (Nat.to_uint n); try reflexivity; apply (string_of_uint_digits (_ _)).
Qed.

Lemma to_uint_not_Nil (n : nat) : Nat.to_uint n <> Decimal.Nil.
Proof.
  intros H. assert (E := Unsigned.of_to n). rewrite H in E. cbn in E. subst n.
  discriminate.
Qed.

Lemma decimal_inj (n m : nat) : Num.decimal n = Num.decimal m -> n = m.
Proof.
  unfold Num.decimal. intros H.
  apply Unsigned.to_uint_inj.
  assert (Hn := NilZero.usu (Nat.to_uint n) (to_uint_not_Nil n)).
  assert (Hm := NilZero.usu (Nat.to_uint m) (to_uint_not_Nil m)).
  congruence.
Qed.

(** Two digit strings followed by a colon. *)
Lemma digits_colon_inj (d1 d2 r1 r2 : string) :
  forallc isDigit d1 = true -> forallc isDigit d2 = true ->
  d1 ++ String ":" r1 = d2 ++ String ":" r2 -> d1 = d2 /\ r1 = r2.
Proof.
  revert d2. induction d1 as [|c d1 IH]; intros [|c' d2] H1 H2 E; cbn in *.
  - injection E as <-. auto.
  - injection E as <- _. apply andb_true_iff in H2. destruct H2 as [H2 _]. discriminate.
  - injection E as -> _. apply andb_true_iff in H1. destruct H1 as [H1 _]. discriminate.
  - injection E as <- E. apply andb_true_iff in H1, H2.
    destruct (IH d2) as [-> ->]; tauto.
Qed.

Lemma label_inj (i j : nat) (x y : string) :
  label i ++ x = label j ++ y -> i = j /\ x = y.
Proof.
  unfold label. cbn [append]. intros E.
  repeat (injection E as E).
  rewrite !string_app_assoc in E. cbn [append] in E.
  apply digits_colon_inj in E; try apply decimal_digits.
  destruct E as [E1 E2]. apply decimal_inj in E1. injection E2 as E2.
  split; [lia | assumption].
Qed.

Lemma bothZeroMessage_label i : bothZeroMessage i = label i ++ "Both debit and credit are zero".
Proof. unfold bothZeroMessage, label. cbn [append]. rewrite !string_app_assoc. reflexivity. Qed.

Lemma In_when b m x : In x (when b m) <-> b = true /\ x = m.
Proof. destruct b; cbn; intuition (congruence || discriminate). Qed.

Lemma checkTransaction_bothZero (i j : nat) (t : ParsedTransaction) :
  In (bothZeroMessage i) (checkTransaction j t) <-> i = j /\ bothZero t = true.
Proof.
  unfold checkTransaction. fold (label j). rewrite bothZeroMessage_label.
  cbn [List.concat]. rewrite !in_app_iff, !In_when. cbn [In].
  split.
  - intros H.
    repeat match goal with
    | H : _ \/ _ |- _ => destruct H as [H|H]
    | H : _ /\ _ |- _ => destruct H as [? H]
    | H : False |- _ => destruct H
    end;
    try (destruct (blank (bookDate t)); [cbn in H | apply In_when in H; destruct H as [_ H]];
         (try destruct H as [H|[]]));
    try (symmetry in H); apply label_inj in H; destruct H as [-> H]; try discriminate; auto.
  - intros [-> H]. right. right. right. left. auto.
Qed.

Lemma In_checkFrom (m : string) (ts : list ParsedTransaction) (k : nat) :
  In m (checkFrom k ts) <->
  exists j t, nth_error ts j = Some t /\ In m (checkTransaction (k + j) t).
Proof.
  revert k. induction ts as [|t ts IH]; intros k; cbn [checkFrom].
  - split; [intros [] | intros (j & t & H & _)]. now destruct j.
  - rewrite in_app_iff, IH. split.
    + intros [H|(j & t' & H1 & H2)].
      * exists O, t. rewrite Nat.add_0_r. auto.
      * exists (S j), t'. rewrite Nat.add_succ_r. auto.
    + intros ([|j] & t' & H1 & H2); cbn in H1.
      * injection H1 as <-. rewrite Nat.add_0_r in H2. auto.
      * right. exists j, t'. rewrite Nat.add_succ_r in H2. auto.
Qed.

(** C9. For every transaction list and every position in it (the list is
    then not empty), the validator reports "Transaction i: Both debit and
    credit are zero", with [i] the position counted from 1, if and only if
    the transaction at that position has debit [=== 0] and credit [=== 0];
    in particular a transaction with debit 0 and credit 150.00 gets no such
    error. *)
Theorem C9_both_zero_flagged
        (transactions : list ParsedTransaction) (index : nat)
        (t : ParsedTransaction) :
  nth_error transactions index = Some t ->
  (In (bothZeroMessage index) (errors (validateTransactions transactions))
   <-> Num.eqb (debit t) Num.zero = true /\ Num.eqb (credit t) Num.zero = true)
  /\ (debit t = Num.zero -> credit t = Num.roundQ false (15000 # 100) ->
      ~ In (bothZeroMessage index) (errors (validateTransactions transactions))).
Proof.
  intros Hnth.
  assert (Hiff : In (bothZeroMessage index) (errors (validateTransactions transactions))
                 <-> bothZero t = true).
  { unfold validateTransactions.
    destruct transactions as [|t0 ts]; [now destruct index|].
    cbn [List.length Nat.eqb errors]. rewrite In_checkFrom. split.
    - intros (j & t' & H1 & H2). cbn [Nat.add] in H2.
      apply checkTransaction_bothZero in H2. destruct H2 as [<- H2]. congruence.
    - intros H. exists index, t. split; [assumption|].
      apply checkTransaction_bothZero. auto. }
  split.
  - rewrite Hiff. unfold bothZero. apply andb_true_iff.
  - intros Hd Hc. rewrite Hiff. unfold bothZero. rewrite Hd, Hc.
    vm_compute. discriminate.
Qed.

Lemma C9_both_zero_flagged_witness :
  nth_error [zeroZero; creditOnly] 0 = Some zeroZero
  /\ nth_error [zeroZero; creditOnly] 1 = Some creditOnly
  /\ In (bothZeroMessage 0) (errors (validateTransactions [zeroZero; creditOnly]))
  /\ ~ In (bothZeroMessage 1) (errors (validateTransactions [zeroZero; creditOnly])).
Proof.
  split; [reflexivity|]. split; [reflexivity|]. split.
  - apply (C9_both_zero_flagged [zeroZero; creditOnly] 0 zeroZero eq_refl).
    split; reflexivity.
  - apply (C9_both_zero_flagged [zeroZero; creditOnly] 1 creditOnly eq_refl);
      reflexivity.
Defined.

(** ** Strings *)

Lemma string_app_nil_r (a : string) : a ++ "" = a.
Proof. induction a as [|x a IH]; cbn; [reflexivity | now rewrite IH]. Qed.

Lemma string_length_app (a b : string) :
  String.length (a ++ b) = String.length a + String.length b.
Proof. induction a as [|x a IH]; cbn; [reflexivity | now rewrite IH]. Qed.

Lemma forallc_app (p : ascii -> bool) (a b : string) :
  forallc p (a ++ b) = forallc p a && forallc p b.
Proof.
  induction a as [|x a IH]; cbn; [reflexivity|]. now rewrite IH, andb_assoc.
Qed.

(** Two ways of cutting one string. *)
Lemma string_app_eq_app (a b c d : string) :
  a ++ b = c ++ d ->
  exists u, (a = c ++ u /\ d = u ++ b) \/ (c = a ++ u /\ b = u ++ d).
Proof.
  revert c. induction a as [|x a IH]; intros c E; cbn in E.
  - exists c. right. auto.
  - destruct c as [|y c]; cbn in E.
    + exists (String x a). left. auto.
    + injection E as -> E. destruct (IH c E) as [u [[-> ->]|[-> ->]]];
        exists u; [left | right]; auto.
Qed.

(** ** Matchers *)

Lemma In_bind {A B} (p : Pat A) (f : A -> Pat B) cur b c :
  In (b, c) (bind p f cur) <->
  exists a cur', In (a, cur') (p cur) /\ In (b, c) (f a cur').
Proof.
  unfold bind. rewrite in_flat_map. split.
  - intros [[a cur'] [H1 H2]]. eauto.
  - intros (a & cur' & H1 & H2). exists (a, cur'). auto.
Qed.

Lemma bind_nil {A B} (p : Pat A) (f : A -> Pat B) cur :
  (forall a cur', In (a, cur') (p cur) -> f a cur' = []) ->
  bind p f cur = [].
Proof.
  intros H. destruct (bind p f cur) as [|[b c] l] eqn:E; [reflexivity|].
  assert (Hin : In (b, c) (bind p f cur)) by (rewrite E; left; reflexivity).
  apply In_bind in Hin. destruct Hin as (a & cur' & H1 & H2).
  rewrite (H _ _ H1) in H2. destruct H2.
Qed.

Lemma hd_bind {A B} (p : Pat A) (f : A -> Pat B) cur a cur' r :
  hd_error (p cur) = Some (a, cur') ->
  hd_error (f a cur') = Some r ->
  hd_error (bind p f cur) = Some r.
Proof.
  unfold bind. destruct (p cur) as [|[a0 c0] l]; [discriminate|].
  cbn. intros [= -> ->]. destruct (f a cur'); [discriminate|].
  cbn. auto.
Qed.

Lemma exec_hd {A} (p : Pat A) (s : string) :
  exec p s = option_map fst (hd_error (p (None, s))).
Proof. unfold exec. destruct (p (None, s)) as [|[a c] l]; reflexivity. Qed.

Lemma exec_Some_In {A} (p : Pat A) (s : string) (a : A) :
  exec p s = Some a -> exists cur, In (a, cur) (p (None, s)).
Proof.
  unfold exec. destruct (p (None, s)) as [|[a0 c] l]; [discriminate|].
  intros [= ->]. exists c. left. reflexivity.
Qed.

Lemma exec_None {A} (p : Pat A) (s : string) :
  p (None, s) = [] -> exec p s = None.
Proof. unfold exec. now intros ->. Qed.

(** Every match of a repetition is a run of the class, of an admitted
    length, followed by the rest of the input. *)
Lemma repc_inv (p : ascii -> bool) (lo : nat) (hi : option nat) pv s x cur :
  In (x, cur) (repc p lo hi pv s) ->
  s = x ++ snd cur /\ forallc p x = true /\ lo <= String.length x
  /\ fits hi (String.length x).
Proof.
  revert lo hi pv x cur. induction s as [|c s IH]; intros lo hi pv x cur; cbn [repc].
  - destruct (Nat.eqb_spec lo 0) as [->|]; [|intros []].
    intros [[= <- <-]|[]]. cbn. destruct hi; cbn; auto with arith.
  - assert (Hstop : In (x, cur) (if (lo =? 0)%nat then [("", (pv, String c s))] else []) ->
                    String c s = x ++ snd cur /\ forallc p x = true
                    /\ lo <= String.length x /\ fits hi (String.length x)).
    { destruct (Nat.eqb_spec lo 0) as [->|]; [|intros []].
      intros [[= <- <-]|[]]. cbn. destruct hi; cbn; auto with arith. }
    destruct (p c && canMore hi) eqn:E; [|exact Hstop].
    rewrite in_app_iff. intros [H|H]; [|auto].
    apply in_map_iff in H. destruct H as [[x' cur'] [[= <- <-] H]].
    apply IH in H. destruct H as (-> & H2 & H3 & H4).
    apply andb_true_iff in E. destruct E as [E1 E2].
    cbn. rewrite E1, H2. repeat split; [lia|].
    destruct hi as [[|h]|]; cbn in *; try discriminate; auto. lia.
Qed.

Lemma rep_inv (p : ascii -> bool) (lo : nat) (hi : option nat) cur x cur' :
  In (x, cur') (rep p lo hi cur) ->
  snd cur = x ++ snd cur' /\ forallc p x = true /\ lo <= String.length x
  /\ fits hi (String.length x).
Proof. destruct cur as [pv s]. apply repc_inv. Qed.

(** A run that ends where the class ends is the first match. *)
Lemma repc_greedy (p : ascii -> bool) (lo : nat) (hi : option nat) pv x r :
  forallc p x = true -> lo <= String.length x -> fits hi (String.length x) ->
  stopsAt p r = true ->
  exists pv', hd_error (repc p lo hi pv (x ++ r)) = Some (x, (pv', r)).
Proof.
  revert lo hi pv. induction x as [|c x IH]; intros lo hi pv Hx Hlo Hhi Hr.
  - cbn in Hlo. assert (lo = 0) as -> by lia. cbn [append].
    destruct r as [|c r]; cbn; [eauto|].
    cbn in Hr. apply negb_true_iff in Hr. rewrite Hr. cbn. eauto.
  - cbn in Hx. apply andb_true_iff in Hx. destruct Hx as [Hc Hx].
    cbn [append repc]. rewrite Hc.
    assert (Hm : canMore hi = true).
    { destruct hi as [[|h]|]; cbn in *; auto; lia. }
    rewrite Hm. cbn [andb].
    destruct (IH (pred lo) (less hi) (Some c)) as [pv' E]; auto.
    + cbn in Hlo. lia.
    + destruct hi as [h|]; cbn in *; auto. lia.
    + destruct (repc p (pred lo) (less hi) (Some c) (x ++ r)) as [|[x0 c0] l];
        [discriminate|].
      cbn in E. injection E as -> ->. cbn. eauto.
Qed.

Lemma rep_greedy (p : ascii -> bool) (lo : nat) (hi : option nat) pv x r :
  forallc p x = true -> lo <= String.length x -> fits hi (String.length x) ->
  stopsAt p r = true ->
  exists pv', hd_error (rep p lo hi (pv, x ++ r)) = Some (x, (pv', r)).
Proof. apply repc_greedy. Qed.

(** A run shorter than the minimum does not match. *)
Lemma rep_short (p : ascii -> bool) (lo : nat) (hi : option nat) pv x r :
  forallc p x = true -> String.length x < lo -> stopsAt p r = true ->
  rep p lo hi (pv, x ++ r) = [].
Proof.
  intros Hx Hlo Hr. 
  destruct (rep p lo hi (pv, x ++ r)) as [|[x' cur'] l] eqn:E; [reflexivity|].
  assert (Hin : In (x', cur') (rep p lo hi (pv, x ++ r))) by (rewrite E; now left).
  apply rep_inv in Hin. cbn [snd] in Hin. destruct Hin as (H1 & H2 & H3 & _).
  apply string_app_eq_app in H1. destruct H1 as [u [[-> _]|[-> Hu]]].
  - rewrite string_length_app in Hlo. lia.
  - rewrite string_length_app in H3.
    destruct u as [|c u]; [cbn in H3; lia|].
    rewrite forallc_app in H2. subst r. cbn in H2, Hr.
    destruct (p c); [discriminate Hr|].
    rewrite andb_false_r in H2. discriminate.
Qed.

Lemma chr_inv (p : ascii -> bool) cur x cur' :
  In (x, cur') (chr p cur) ->
  exists c, p c = true /\ x = String c "" /\ snd cur = String c (snd cur').
Proof.
  destruct cur as [pv [|c s]]; cbn; [intros []|].
  destruct (p c) eqn:E; [|intros []].
  intros [[= <- <-]|[]]. eauto.
Qed.

Lemma chr_hd (p : ascii -> bool) pv c s :
  p c = true -> hd_error (chr p (pv, String c s)) = Some (String c "", (Some c, s)).
Proof. intros H. cbn. now rewrite H. Qed.

Lemma chr_nil (p : ascii -> bool) pv s :
  match s with String c _ => p c = false | EmptyString => True end ->
  chr p (pv, s) = [].
Proof. destruct s as [|c s]; cbn; [reflexivity|]. now intros ->. Qed.

Lemma eos_inv cur u cur' : In (u, cur') (eos cur) -> snd cur = "" /\ cur' = cur.
Proof.
  destruct cur as [pv [|c s]]; cbn; [|intros []]. intros [[= <-]|[]]. auto.
Qed.

Lemma ret_inv {A} (a b : A) cur cur' : In (b, cur') (ret a cur) -> b = a.
Proof. cbn. intros [[= <-]|[]]. reflexivity. Qed.

Ltac re_inv :=
  repeat (cbv beta in *;
    match goal with
    | H : In _ (bind _ _ _) |- _ =>
        apply In_bind in H; destruct H as (? & ? & ? & H)
    | H : In _ (rep _ _ _ _) |- _ =>
        apply rep_inv in H; destruct H as (? & ? & ? & ?)
    | H : In _ (chr _ _) |- _ =>
        apply chr_inv in H; destruct H as (? & ? & ? & ?)
    | H : In _ (eos _) |- _ =>
        apply eos_inv in H; destruct H as (? & ?)
    | H : In _ (ret _ _) |- _ =>
        apply ret_inv in H
    end).

Ltac re_done :=
  match goal with
  | H : (_, _, _) = (_, _, _) |- _ => injection H as -> -> ->
  end;
  cbn [snd fits] in *;
  repeat match goal with
  | H : ?s = _ |- _ => is_var s; subst s
  | H : snd ?c = _ |- _ => rewrite H in *; clear H
  end.

Lemma ymdRe_inv (s y m d : string) :
  exec ymdRe s = Some (y, m, d) ->
  exists c1 c2,
    s = y ++ String c1 (m ++ String c2 d)
    /\ isDateSep c1 = true /\ isDateSep c2 = true
    /\ forallc isDigit y = true /\ String.length y = 4
    /\ forallc isDigit m = true /\ 1 <= String.length m <= 2
    /\ forallc isDigit d = true /\ 1 <= String.length d <= 2.
Proof.
  intros H. apply exec_Some_In in H. destruct H as [cur H].
  unfold ymdRe in H. re_inv. re_done.
  rewrite string_app_nil_r. do 2 eexists. repeat split; eauto; lia.
Qed.

Lemma dmyRe_inv (s d m y : string) :
  exec dmyRe s = Some (d, m, y) ->
  exists c1 c2,
    s = d ++ String c1 (m ++ String c2 y)
    /\ isDateSep c1 = true /\ isDateSep c2 = true
    /\ forallc isDigit y = true /\ String.length y = 4
    /\ forallc isDigit m = true /\ 1 <= String.length m <= 2
    /\ forallc isDigit d = true /\ 1 <= String.length d <= 2.
Proof.
  intros H. apply exec_Some_In in H. destruct H as [cur H].
  unfold dmyRe in H. re_inv. re_done.
  rewrite string_app_nil_r. do 2 eexists. repeat split; eauto; lia.
Qed.

Lemma longRe_inv (s d w y : string) :
  exec longRe s = Some (d, w, y) ->
  exists ws1 ws2,
    s = d ++ ws1 ++ w ++ ws2 ++ y
    /\ forallc isSpace ws1 = true /\ 1 <= String.length ws1
    /\ forallc isSpace ws2 = true /\ 1 <= String.length ws2
    /\ forallc isDigit d = true /\ 1 <= String.length d <= 2
    /\ forallc isAlpha w = true /\ 3 <= String.length w
    /\ forallc isDigit y = true /\ 2 <= String.length y <= 4.
Proof.
  intros H. apply exec_Some_In in H. destruct H as [cur H].
  unfold longRe in H. re_inv. re_done.
  rewrite string_app_nil_r. do 2 eexists. repeat split; eauto; lia.
Qed.

(** ** Character classes *)

Ltac by_chars c :=
  destruct c as [[] [] [] [] [] [] [] []]; cbn; intros; congruence.

Lemma digit_not_space c : isDigit c = true -> isSpace c = false.
Proof. by_chars c. Qed.
Lemma digit_not_sep c : isDigit c = true -> isDateSep c = false.
Proof. by_chars c. Qed.
Lemma digit_not_alpha c : isDigit c = true -> isAlpha c = false.
Proof. by_chars c. Qed.
Lemma alpha_not_space c : isAlpha c = true -> isSpace c = false.
Proof. by_chars c. Qed.
Lemma space_not_digit c : isSpace c = true -> isDigit c = false.
Proof. by_chars c. Qed.
Lemma space_not_alpha c : isSpace c = true -> isAlpha c = false.
Proof. by_chars c. Qed.
Lemma space_not_sep c : isSpace c = true -> isDateSep c = false.
Proof. by_chars c. Qed.
Lemma sep_not_space c : isDateSep c = true -> isSpace c = false.
Proof. by_chars c. Qed.
Lemma sep_not_digit c : isDateSep c = true -> isDigit c = false.
Proof. by_chars c. Qed.

Lemma forallc_impl (p q : ascii -> bool) (s : string) :
  (forall c, p c = true -> q c = true) ->
  forallc p s = true -> forallc q s = true.
Proof.
  intros Hpq. induction s as [|c s IH]; cbn; [reflexivity|].
  intros H. apply andb_true_iff in H. destruct H as [H1 H2].
  now rewrite (Hpq _ H1), IH.
Qed.

Lemma digits_notSpace s : forallc isDigit s = true -> forallc notSpace s = true.
Proof.
  apply forallc_impl. intros c H. unfold notSpace. now rewrite digit_not_space.
Qed.

Lemma alphas_notSpace s : forallc isAlpha s = true -> forallc notSpace s = true.
Proof.
  apply forallc_impl. intros c H. unfold notSpace. now rewrite alpha_not_space.
Qed.

Lemma startsIn_app (p : ascii -> bool) (a b : string) :
  forallc p a = true -> 1 <= String.length a -> startsIn p (a ++ b) = true.
Proof.
  destruct a as [|c a]; cbn; [lia|]. intros H _.
  now apply andb_true_iff in H.
Qed.

Lemma stopsAt_startsIn (p q : ascii -> bool) (r : string) :
  (forall c, q c = true -> p c = false) ->
  startsIn q r = true -> stopsAt p r = true.
Proof. destruct r as [|c r]; cbn; [discriminate|]. intros H Hq. now rewrite H. Qed.

(** ** Trimming and collapsing *)

Lemma trimStart_id (s : string) : startsIn notSpace s = true -> trimStart s = s.
Proof.
  destruct s as [|c s]; cbn; [reflexivity|]. unfold notSpace.
  intros H. apply negb_true_iff in H. now rewrite H.
Qed.

Lemma trimEnd_notSpace (y : string) : forallc notSpace y = true -> trimEnd y = y.
Proof.
  induction y as [|c y IH]; cbn; [reflexivity|]. unfold notSpace at 1.
  intros H. apply andb_true_iff in H. destruct H as [H1 H2].
  apply negb_true_iff in H1. now rewrite H1, IH.
Qed.

Lemma trimEnd_app (a y : string) :
  forallc notSpace y = true -> 1 <= String.length y -> trimEnd (a ++ y) = a ++ y.
Proof.
  intros Hy Hl. induction a as [|c a IH]; cbn [append trimEnd].
  - now apply trimEnd_notSpace.
  - rewrite IH. destruct (a ++ y) eqn:E.
    + apply (f_equal String.length) in E. rewrite string_length_app in E.
      cbn in E. lia.
    + cbn. now rewrite andb_false_r.
Qed.

Lemma collapseFrom_notSpace (b : bool) (x r : string) :
  forallc notSpace x = true -> 1 <= String.length x ->
  collapseFrom b (x ++ r) = x ++ collapseFrom false r.
Proof.
  revert b. induction x as [|c x IH]; intros b; cbn [String.length]; [lia|].
  cbn [forallc append collapseFrom]. unfold notSpace at 1.
  intros H _. apply andb_true_iff in H. destruct H as [H1 H2].
  apply negb_true_iff in H1. rewrite H1.
  destruct x as [|c' x]; [reflexivity|].
  rewrite IH; auto. cbn. lia.
Qed.

Lemma collapseFrom_true_spaces (ws r : string) :
  forallc isSpace ws = true -> collapseFrom true (ws ++ r) = collapseFrom true r.
Proof.
  induction ws as [|c ws IH]; cbn; [reflexivity|].
  intros H. apply andb_true_iff in H. destruct H as [H1 H2]. now rewrite H1, IH.
Qed.

Lemma collapseFrom_spaces (ws r : string) :
  forallc isSpace ws = true -> 1 <= String.length ws ->
  collapseFrom false (ws ++ r) = String " " (collapseFrom true r).
Proof.
  destruct ws as [|c ws]; cbn [String.length]; [lia|].
  cbn [forallc append collapseFrom]. intros H _.
  apply andb_true_iff in H. destruct H as [H1 H2].
  now rewrite H1, collapseFrom_true_spaces.
Qed.

Lemma collapseFrom_true_start (r : string) :
  startsIn notSpace r = true -> collapseFrom true r = collapseFrom false r.
Proof.
  destruct r as [|c r]; cbn; [discriminate|]. unfold notSpace.
  intros H. apply negb_true_iff in H. now rewrite H.
Qed.

Lemma collapseSpaces_notSpace (s : string) :
  forallc notSpace s = true -> collapseSpaces s = s.
Proof.
  unfold collapseSpaces. generalize false.
  induction s as [|c s IH]; intros b; cbn; [reflexivity|]. unfold notSpace at 1.
  intros H. apply andb_true_iff in H. destruct H as [H1 H2].
  apply negb_true_iff in H1. now rewrite H1, IH.
Qed.

Lemma normalize_notSpace (s : string) :
  forallc notSpace s = true -> normalize s = s.
Proof.
  intros H. unfold normalize, trim.
  destruct s as [|c s]; [reflexivity|].
  rewrite trimStart_id.
  - rewrite trimEnd_notSpace by assumption. now apply collapseSpaces_notSpace.
  - cbn in *. now apply andb_true_iff in H.
Qed.

(** A date written with a month name, with any white space between its
    three parts, normalises to the same date with single spaces. *)
Lemma normalize_long (d ws1 w ws2 y : string) :
  forallc isDigit d = true -> 1 <= String.length d ->
  forallc isSpace ws1 = true -> 1 <= String.length ws1 ->
  forallc isAlpha w = true -> 1 <= String.length w ->
  forallc isSpace ws2 = true -> 1 <= String.length ws2 ->
  forallc isDigit y = true -> 1 <= String.length y ->
  normalize (d ++ ws1 ++ w ++ ws2 ++ y) = d ++ " " ++ w ++ " " ++ y.
Proof.
  intros Hd Ld H1 L1 Hw Lw H2 L2 Hy Ly. unfold normalize, trim.
  apply digits_notSpace in Hd, Hy. apply alphas_notSpace in Hw.
  rewrite trimStart_id by (now apply startsIn_app).
  replace (d ++ ws1 ++ w ++ ws2 ++ y) with ((d ++ ws1 ++ w ++ ws2) ++ y)
    by (now rewrite !string_app_assoc).
  rewrite trimEnd_app by assumption.
  rewrite !string_app_assoc. unfold collapseSpaces.
  rewrite collapseFrom_notSpace by assumption.
  rewrite collapseFrom_spaces by assumption.
  rewrite collapseFrom_true_start by (now apply startsIn_app).
  rewrite collapseFrom_notSpace by assumption.
  rewrite collapseFrom_spaces by assumption.
  rewrite collapseFrom_true_start by (rewrite <- (string_app_nil_r y); now apply startsIn_app).
  rewrite <- (string_app_nil_r y) at 1.
  rewrite collapseFrom_notSpace by assumption.
  cbn. now rewrite string_app_nil_r.
Qed.

(** ** The three date patterns on a date written with a month name *)

Section LongDate.
Variables d ws1 w ws2 y : string.
Hypothesis Hd : forallc isDigit d = true.
Hypothesis Ld : 1 <= String.length d <= 2.
Hypothesis H1 : forallc isSpace ws1 = true.
Hypothesis L1 : 1 <= String.length ws1.
Hypothesis Hw : forallc isAlpha w = true.
Hypothesis Lw : 3 <= String.length w.
Hypothesis H2 : forallc isSpace ws2 = true.
Hypothesis L2 : 1 <= String.length ws2.
Hypothesis Hy : forallc isDigit y = true.
Hypothesis Ly : 2 <= String.length y <= 4.

Lemma longRe_matches :
  exec longRe (d ++ ws1 ++ w ++ ws2 ++ y) = Some (d, w, y).
Proof.
  rewrite exec_hd.
  destruct (rep_greedy isDigit 1 (Some 2) None d (ws1 ++ w ++ ws2 ++ y))
    as [pv1 E1]; cbn [fits]; try lia; auto.
  { apply (stopsAt_startsIn _ isSpace); [apply space_not_digit|].
    now apply startsIn_app. }
  destruct (rep_greedy isSpace 1 None pv1 ws1 (w ++ ws2 ++ y))
    as [pv2 E2]; cbn [fits]; auto.
  { apply (stopsAt_startsIn _ isAlpha); [apply alpha_not_space|].
    apply startsIn_app; [assumption | lia]. }
  destruct (rep_greedy isAlpha 3 None pv2 w (ws2 ++ y))
    as [pv3 E3]; cbn [fits]; auto.
  { apply (stopsAt_startsIn _ isSpace); [apply space_not_alpha|].
    now apply startsIn_app. }
  destruct (rep_greedy isSpace 1 None pv3 ws2 (y ++ ""))
    as [pv4 E4]; cbn [fits]; auto.
  { apply (stopsAt_startsIn _ isDigit); [apply digit_not_space|].
    apply startsIn_app; [assumption | lia]. }
  destruct (rep_greedy isDigit 2 (Some 4) pv4 y "")
    as [pv5 E5]; cbn [fits]; try lia; auto.
  rewrite string_app_nil_r in E4, E5.
  assert (E : hd_error (longRe (None, d ++ ws1 ++ w ++ ws2 ++ y))
              = Some ((d, w, y), (pv5, ""))).
  { unfold longRe.
    eapply hd_bind; [exact E1|]. eapply hd_bind; [exact E2|].
    eapply hd_bind; [exact E3|]. eapply hd_bind; [exact E4|].
    eapply hd_bind; [exact E5|]. reflexivity. }
  now rewrite E.
Qed.

Lemma ymdRe_rejects : exec ymdRe (d ++ ws1 ++ w ++ ws2 ++ y) = None.
Proof.
  apply exec_None. unfold ymdRe, bind at 1.
  rewrite rep_short; [reflexivity | assumption | lia |].
  apply (stopsAt_startsIn _ isSpace); [apply space_not_digit|].
  now apply startsIn_app.
Qed.

Lemma dmyRe_rejects : exec dmyRe (d ++ ws1 ++ w ++ ws2 ++ y) = None.
Proof.
  apply exec_None. unfold dmyRe. apply bind_nil. intros x cur' Hin.
  apply rep_inv in Hin. cbn [snd] in Hin. destruct Hin as (E & Hx & Lx & _).
  destruct cur' as [pv r]. cbn [snd] in *.
  unfold bind. rewrite chr_nil; [reflexivity|].
  apply string_app_eq_app in E. destruct E as [u [[-> E]|[-> E]]].
  - (* the run stops inside [d] or at its end *)
    destruct u as [|c u]; cbn [append] in E.
    + subst r. destruct ws1 as [|c ws]; cbn in L1; [lia|].
      cbn in H1 |- *. apply andb_true_iff in H1. now apply space_not_sep.
    + subst r. cbn. rewrite forallc_app in Hd. cbn in Hd.
      apply andb_true_iff in Hd. destruct Hd as [_ Hd'].
      apply andb_true_iff in Hd'. now apply digit_not_sep.
  - (* the run cannot go beyond [d] *)
    destruct u as [|c u]; cbn [append] in E.
    + subst r. destruct ws1 as [|c ws]; cbn in L1; [lia|].
      cbn in H1 |- *. apply andb_true_iff in H1. now apply space_not_sep.
    + rewrite forallc_app in Hx. cbn in Hx.
      destruct ws1 as [|c' ws]; cbn in L1; [lia|].
      cbn in E. injection E as -> _. cbn in H1.
      apply andb_true_iff in H1. destruct H1 as [Hs _].
      apply space_not_digit in Hs. rewrite Hs in Hx.
      rewrite andb_false_r in Hx. discriminate.
Qed.

End LongDate.

(** ** Numeric dates and the date patterns *)

Section NumericDate.
Variables a m b : string.
Variables c1 c2 : ascii.
Hypothesis Ha : forallc isDigit a = true.
Hypothesis Hm : forallc isDigit m = true.
Hypothesis Lm : 1 <= String.length m <= 2.
Hypothesis Hb : forallc isDigit b = true.
Hypothesis S1 : isDateSep c1 = true.
Hypothesis S2 : isDateSep c2 = true.

Lemma sep_stops (r : string) (c : ascii) :
  isDateSep c = true -> stopsAt isDigit (String c r) = true.
Proof. intros H. cbn. now rewrite (sep_not_digit _ H). Qed.

(** [a c1 m c2 b] is matched by a pattern [\d{la}[-/]\d{1,2}[-/]\d{lb}$]. *)
Lemma numeric_matches {A} (lo1 : nat) (hi1 : option nat) (lo3 : nat) (hi3 : option nat)
      (k : string -> string -> string -> A) :
  lo1 <= String.length a -> fits hi1 (String.length a) ->
  lo3 <= String.length b -> fits hi3 (String.length b) ->
  exec (x <- rep isDigit lo1 hi1 ;; chr isDateSep ;;;
        y <- rep isDigit 1 (Some 2) ;; chr isDateSep ;;;
        z <- rep isDigit lo3 hi3 ;; eos ;;; ret (k x y z))%re
       (a ++ String c1 (m ++ String c2 b))
  = Some (k a m b).
Proof.
  intros La Fa Lb Fb. rewrite exec_hd.
  destruct (rep_greedy isDigit lo1 hi1 None a (String c1 (m ++ String c2 b)))
    as [pv1 E1]; auto using sep_stops.
  destruct (rep_greedy isDigit 1 (Some 2) (Some c1) m (String c2 b))
    as [pv2 E2]; cbn [fits]; try lia; auto using sep_stops.
  destruct (rep_greedy isDigit lo3 hi3 (Some c2) b "")
    as [pv3 E3]; auto.
  rewrite string_app_nil_r in E3.
  match goal with |- option_map fst (hd_error (?p _)) = _ =>
    assert (E : hd_error (p (None, a ++ String c1 (m ++ String c2 b)))
                = Some (k a m b, (pv3, "")))
  end.
  { eapply hd_bind; [exact E1|]. eapply hd_bind; [now apply chr_hd|].
    eapply hd_bind; [exact E2|]. eapply hd_bind; [now apply chr_hd|].
    eapply hd_bind; [exact E3|]. reflexivity. }
  now rewrite E.
Qed.

Lemma ymdRe_matches :
  String.length a = 4 -> 1 <= String.length b <= 2 ->
  exec ymdRe (a ++ String c1 (m ++ String c2 b)) = Some (a, m, b).
Proof.
  intros La Lb. unfold ymdRe.
  apply (numeric_matches 4 (Some 4) 1 (Some 2) (fun x y z => (x, y, z)));
    cbn [fits]; lia.
Qed.

Lemma dmyRe_matches :
  1 <= String.length a <= 2 -> String.length b = 4 ->
  exec dmyRe (a ++ String c1 (m ++ String c2 b)) = Some (a, m, b).
Proof.
  intros La Lb. unfold dmyRe.
  apply (numeric_matches 1 (Some 2) 4 (Some 4) (fun x y z => (x, y, z)));
    cbn [fits]; lia.
Qed.

(** Fewer than four leading digits: not a year-first date. *)
Lemma ymdRe_short :
  String.length a < 4 -> exec ymdRe (a ++ String c1 (m ++ String c2 b)) = None.
Proof.
  intros La. apply exec_None. unfold ymdRe, bind at 1.
  rewrite rep_short; auto using sep_stops.
Qed.

End NumericDate.

(** ** The date normaliser *)

Lemma padStart_twoDigits (m : string) :
  forallc isDigit m = true -> 1 <= String.length m <= 2 ->
  twoDigits (padStart 2 "0" m).
Proof.
  destruct m as [|a [|b [|c m]]]; cbn; intros H L; try lia; split; auto.
Qed.

Lemma monthNameToNumber_range (name : string) :
  In (monthNameToNumber name) monthNumbers.
Proof.
  unfold monthNameToNumber.
  destruct (find _ monthMap) as [kv|] eqn:E; [|cbn; tauto].
  apply find_some in E. destruct E as [E _].
  cbn in E. repeat (destruct E as [<-|E]; [cbn; tauto|]). destruct E.
Qed.

Lemma monthNumbers_twoDigits (m : string) : In m monthNumbers -> twoDigits m.
Proof.
  cbn. intros H. repeat (destruct H as [<-|H]; [split; reflexivity|]). destruct H.
Qed.

Lemma ymd_notSpace (y m d : string) (c1 c2 : ascii) :
  isDateSep c1 = true -> isDateSep c2 = true ->
  forallc isDigit y = true -> forallc isDigit m = true -> forallc isDigit d = true ->
  forallc notSpace (y ++ String c1 (m ++ String c2 d)) = true.
Proof.
  intros S1 S2 Hy Hm Hd.
  rewrite forallc_app. cbn [forallc]. rewrite forallc_app. cbn [forallc].
  unfold notSpace at 2 4. rewrite (sep_not_space _ S1), (sep_not_space _ S2).
  now rewrite !digits_notSpace.
Qed.

Lemma normalize_ymd (s : string) g : exec ymdRe s = Some g -> normalize s = s.
Proof.
  destruct g as [[y m] d]. intros H. apply ymdRe_inv in H.
  destruct H as (c1 & c2 & -> & S1 & S2 & Hy & _ & Hm & _ & Hd & _).
  now apply normalize_notSpace, ymd_notSpace.
Qed.

Lemma normalize_dmy (s : string) g : exec dmyRe s = Some g -> normalize s = s.
Proof.
  destruct g as [[d m] y]. intros H. apply dmyRe_inv in H.
  destruct H as (c1 & c2 & -> & S1 & S2 & Hy & _ & Hm & _ & Hd & _).
  now apply normalize_notSpace, ymd_notSpace.
Qed.

Lemma normalize_longRe (s d w y : string) :
  exec longRe s = Some (d, w, y) ->
  normalize s = d ++ " " ++ w ++ " " ++ y
  /\ exec ymdRe (normalize s) = None
  /\ exec dmyRe (normalize s) = None
  /\ exec longRe (normalize s) = Some (d, w, y).
Proof.
  intros H. apply longRe_inv in H.
  destruct H as (ws1 & ws2 & -> & H1 & L1 & H2 & L2 & Hd & Ld & Hw & Lw & Hy & Ly).
  rewrite normalize_long by (assumption || lia).
  split; [reflexivity|].
  split; [|split].
  - apply ymdRe_rejects; auto.
  - apply dmyRe_rejects; auto.
  - apply longRe_matches; auto.
Qed.

Lemma recognised_not_empty (s : string) : recognised s -> isEmpty s = false.
Proof.
  destruct s; [|reflexivity]. intros [H|[H|H]]; now destruct H.
Qed.

Lemma digitsValue_padStart (m : string) :
  1 <= String.length m <= 2 ->
  Num.digitsValue (padStart 2 "0" m) = Num.digitsValue m.
Proof.
  destruct m as [|a [|b [|c m]]]; cbn [String.length]; intros L; try lia.
  - unfold padStart, Num.digitsValue. cbn. lia.
  - reflexivity.
Qed.

Lemma isIsoDate_intro (y m d : string) :
  forallc isDigit y = true -> String.length y = 4 ->
  twoDigits m -> twoDigits d ->
  isMonthNumber m = true -> isDayNumber d = true ->
  isIsoDate (y ++ "-" ++ m ++ "-" ++ d) = true.
Proof.
  intros Hy Ly [Lm Hm] [Ld Hd] Rm Rd.
  destruct y as [|y1 [|y2 [|y3 [|y4 [|]]]]]; try discriminate Ly.
  destruct m as [|m1 [|m2 [|]]]; try discriminate Lm.
  destruct d as [|d1 [|d2 [|]]]; try discriminate Ld.
  unfold isMonthNumber in Rm. unfold isDayNumber in Rd.
  apply andb_true_iff in Rm, Rd. destruct Rm as [Rm1 Rm2]. destruct Rd as [Rd1 Rd2].
  cbn [append isIsoDate]. rewrite Rm1, Rm2, Rd1, Rd2, !andb_true_r.
  cbn [forallc] in *.
  repeat match goal with
  | H : _ && _ = true |- _ => apply andb_true_iff in H; destruct H as [? H]
  end.
  repeat match goal with
  | H : isDigit _ = true |- _ => rewrite H; clear H
  end.
  reflexivity.
Qed.

Lemma monthNumbers_months (m : string) : In m monthNumbers -> isMonthNumber m = true.
Proof.
  cbn. intros H. repeat (destruct H as [<-|H]; [reflexivity|]). destruct H.
Qed.

(** C5. For every string that matches one of the three recognised date
    patterns, [YYYY[-/]M[-/]D], [D[-/]M[-/]YYYY] or [D MonthName YYYY|YY],
    the date normaliser returns a string of the form [YYYY-MM-DD] whose
    zero-padded month lies in 01..12 and whose zero-padded day lies in
    01..31. *)
Theorem C5_supported_dates (s : string) :
  supportedDate s = true -> isIsoDate (parseDateFlexible s) = true.
Proof.
  unfold supportedDate. intros H.
  assert (Es : isEmpty s = false).
  { destruct s; [discriminate H | reflexivity]. }
  unfold parseDateFlexible. rewrite Es. fold (normalize s).
  apply orb_true_iff in H. destruct H as [H|H];
    [apply orb_true_iff in H; destruct H as [H|H]|].
  - (* year first *)
    unfold ymdDate in H.
    destruct (exec ymdRe s) as [[[y m] d]|] eqn:E; [|discriminate].
    apply andb_true_iff in H. destruct H as [Rm Rd].
    rewrite (normalize_ymd _ _ E), E.
    apply ymdRe_inv in E.
    destruct E as (c1 & c2 & _ & _ & _ & Hy & Ly & Hm & Lm & Hd & Ld).
    apply isIsoDate_intro; auto using padStart_twoDigits.
    + unfold isMonthNumber. now rewrite digitsValue_padStart.
    + unfold isDayNumber. now rewrite digitsValue_padStart.
  - (* day first *)
    unfold dmyDate in H.
    destruct (exec dmyRe s) as [[[d m] y]|] eqn:E; [|discriminate].
    apply andb_true_iff in H. destruct H as [Rm Rd].
    rewrite (normalize_dmy _ _ E).
    destruct (dmyRe_inv _ _ _ _ E)
      as (c1 & c2 & -> & S1 & S2 & Hy & Ly & Hm & Lm & Hd & Ld).
    rewrite ymdRe_short by (auto; lia). rewrite E.
    apply isIsoDate_intro; auto using padStart_twoDigits.
    + unfold isMonthNumber. now rewrite digitsValue_padStart.
    + unfold isDayNumber. now rewrite digitsValue_padStart.
  - (* month name *)
    unfold longDate in H.
    destruct (exec longRe s) as [[[d w] yRaw]|] eqn:E; [|discriminate].
    apply andb_true_iff in H. destruct H as [Rd Ry].
    destruct (normalize_longRe _ _ _ _ E) as (_ & E1 & E2 & E3).
    rewrite E1, E2, E3.
    apply longRe_inv in E.
    destruct E as (ws1 & ws2 & _ & _ & _ & _ & _ & Hd & Ld & Hw & Lw & Hy & _).
    pose proof (monthNameToNumber_range w) as Hmn.
    apply isIsoDate_intro;
      auto using padStart_twoDigits, monthNumbers_twoDigits, monthNumbers_months.
    + destruct (String.length yRaw =? 2)%nat; [cbn; exact Hy | exact Hy].
    + destruct (Nat.eqb_spec (String.length yRaw) 2) as [L2|L2].
      * cbn. now rewrite L2.
      * rewrite orb_false_r in Ry. now apply Nat.eqb_eq in Ry.
    + unfold isDayNumber. now rewrite digitsValue_padStart.
Qed.

Lemma C5_supported_dates_witness :
  supportedDate "7/3/2024" = true
  /\ parseDateFlexible "7/3/2024" = "2024-03-07"
  /\ isIsoDate (parseDateFlexible "7/3/2024") = true
  /\ isIsoDate (parseDateFlexible "2024-12-31") = true
  /\ isIsoDate (parseDateFlexible "7  sept 24") = true.
Proof.
  split; [reflexivity|]. split; [reflexivity|]. split; [|split].
  - apply C5_supported_dates. reflexivity.
  - apply C5_supported_dates. reflexivity.
  - apply C5_supported_dates. reflexivity.
Defined.

(** The number of a month and of a day is a hypothesis: the patterns accept
    any one or two digits, and the normaliser pads them without a check. *)
Lemma digits_outside_the_calendar :
  supportedDate "2024-13-45" = false /\ parseDateFlexible "2024-13-45" = "2024-13-45".
Proof. split; reflexivity. Qed.

Lemma find_none_all {A} (f : A -> bool) (l : list A) :
  (forall x, In x l -> f x = false) -> find f l = None.
Proof.
  induction l as [|x l IH]; cbn; [reflexivity|]. intros H.
  rewrite (H x) by now left. apply IH. intros; apply H. now right.
Qed.

(** C10. For every input ["D W YYYY"] with [D] one or two digits, [W] three
    or more letters that do not start with a key of the month table, and
    [YYYY] four digits, the date normaliser returns ["YYYY-01-DD"], [DD]
    being [D] zero-padded: it does not return the input unchanged, the
    unrecognised month word becomes month 01. *)
Theorem C10_unknown_month (d w y : string) :
  forallc isDigit d = true -> 1 <= String.length d <= 2 ->
  forallc isAlpha w = true -> 3 <= String.length w ->
  existsb (startsWith (toLowerCase w)) (map fst monthMap) = false ->
  forallc isDigit y = true -> String.length y = 4 ->
  parseDateFlexible (d ++ " " ++ w ++ " " ++ y) = y ++ "-01-" ++ padStart 2 "0" d
  /\ parseDateFlexible (d ++ " " ++ w ++ " " ++ y) <> d ++ " " ++ w ++ " " ++ y.
Proof.
  intros Hd Ld Hw Lw Hk Hy Ly.
  assert (E : parseDateFlexible (d ++ " " ++ w ++ " " ++ y)
              = y ++ "-01-" ++ padStart 2 "0" d).
  { unfold parseDateFlexible. fold (normalize (d ++ " " ++ w ++ " " ++ y)).
    assert (Hl : exec longRe (d ++ " " ++ w ++ " " ++ y) = Some (d, w, y)).
    { apply longRe_matches; auto; try reflexivity; lia. }
    destruct (normalize_longRe _ _ _ _ Hl) as (_ & E1 & E2 & E3).
    rewrite E1, E2, E3.
    destruct d as [|c d]; [cbn in Ld; lia|]. cbn [append isEmpty].
    rewrite Ly. cbn [Nat.eqb].
    unfold monthNameToNumber. rewrite find_none_all; [reflexivity|].
    intros [k v] Hin. apply (in_map fst) in Hin. cbn [fst].
    destruct (startsWith (toLowerCase w) k) eqn:Ek; [|reflexivity].
    assert (Hex : existsb (startsWith (toLowerCase w)) (map fst monthMap) = true)
      by (apply existsb_exists; eauto).
    congruence. }
  split; [exact E|]. rewrite E.
  destruct y as [|y1 [|y2 [|y3 [|y4 [|]]]]]; try discriminate Ly.
  cbn in Hy.
  destruct d as [|d1 [|d2 [|]]]; cbn in Ld; try lia; cbn; intros [= ? ?]; subst.
  - now rewrite andb_false_r in Hy.
  - now rewrite !andb_false_r in Hy.
Qed.

Lemma C10_unknown_month_witness :
  existsb (startsWith (toLowerCase "Foo")) (map fst monthMap) = false
  /\ parseDateFlexible "5 Foo 2024" = "2024-01-05"
  /\ parseDateFlexible "5 Foo 2024" <> "5 Foo 2024".
Proof.
  split; [reflexivity|].
  apply (C10_unknown_month "5" "Foo" "2024"); try reflexivity; cbn; lia.
Defined.

(* ================================================================== *)
(** * Numbers *)
(* ================================================================== *)

(** ** Agreement with the reference operations *)

(** Multiplication and division as defined here give, on the sample, the
    results of [SFmul] and [SFdiv], the specification of binary64
    arithmetic in the standard library. *)
Lemma mul_div_agree_with_SpecFloat :
  forallb (fun x =>
    forallb (fun y =>
      sameNumber (mul x y) (SFmul prec emax x y)
      && sameNumber (div x y) (SFdiv prec emax x y)) sampleNumbers) sampleNumbers
  = true.
Proof. vm_compute. reflexivity. Qed.

(** They also give the results of the processor's arithmetic. *)
Lemma mul_div_agree_with_hardware :
  let hundred := PrimFloat.of_uint63 (Uint63.of_Z 100) in
  FloatOps.Prim2SF
    (PrimFloat.div (PrimFloat.of_uint63 (Uint63.of_Z 123456)) hundred)
  = div (ofZ 123456) (ofZ 100)
  /\ FloatOps.Prim2SF
       (PrimFloat.mul (PrimFloat.div (PrimFloat.of_uint63 (Uint63.of_Z 123456)) hundred)
                      hundred)
     = mul (div (ofZ 123456) (ofZ 100)) (ofZ 100)
  /\ FloatOps.Prim2SF
       (PrimFloat.mul
          (PrimFloat.div (PrimFloat.of_uint63 (Uint63.of_Z 4377229421026963)) hundred)
          hundred)
     = mul (div (ofZ 4377229421026963) (ofZ 100)) (ofZ 100).
Proof. repeat split; vm_compute; reflexivity. Qed.

Section Rounding.

Local Open Scope Z_scope.

(** ** Rounding a fraction to an integer *)

Lemma rne_spec (a b : Z) :
  0 <= a -> 0 < b ->
  2 * (rne a b * b) - b <= 2 * a <= 2 * (rne a b * b) + b /\ 0 <= rne a b.
Proof.
  intros Ha Hb. unfold rne.
  pose proof (Z.div_mod a b ltac:(lia)) as E.
  pose proof (Z.mod_pos_bound a b Hb) as Hr.
  pose proof (Z.div_pos a b Ha Hb) as Hq.
  destruct (Z.compare_spec (2 * (a mod b)) b) as [C|C|C];
    [destruct (Z.even (a / b))| |]; nia.
Qed.

Lemma rne_exact (a b k : Z) : 0 < b -> a = k * b -> rne a b = k.
Proof.
  intros Hb ->. unfold rne. rewrite Z.mod_mul, Z.div_mul by lia.
  destruct (Z.compare_spec (2 * 0) b); lia.
Qed.

(** ** Powers of two and ten as rationals *)

Local Open Scope Q_scope.

Lemma pow2_Qpower (e : Z) : pow2 e == 2 ^ e.
Proof.
  unfold pow2. destruct (Z.leb_spec 0 e) as [H|H].
  - apply Zpower_Qpower. exact H.
  - replace e with (- - e)%Z at 2 by lia. rewrite Qpower_opp.
    rewrite <- (Zpower_Qpower 2 (- e)) by lia.
    assert (0 < 2 ^ (- e))%Z by (apply Z.pow_pos_nonneg; lia).
    destruct (2 ^ (- e))%Z eqn:E; try lia. reflexivity.
Qed.

Lemma pow10_Qpower (e : Z) : pow10 e == 10 ^ e.
Proof.
  unfold pow10. destruct (Z.leb_spec 0 e) as [H|H].
  - apply Zpower_Qpower. exact H.
  - replace e with (- - e)%Z at 2 by lia. rewrite Qpower_opp.
    rewrite <- (Zpower_Qpower 10 (- e)) by lia.
    assert (0 < 10 ^ (- e))%Z by (apply Z.pow_pos_nonneg; lia).
    destruct (10 ^ (- e))%Z eqn:E; try lia. reflexivity.
Qed.

Lemma pow2_pos (e : Z) : 0 < pow2 e.
Proof. rewrite pow2_Qpower. now apply Qpower_0_lt. Qed.

Lemma pow10_pos (e : Z) : 0 < pow10 e.
Proof. rewrite pow10_Qpower. now apply Qpower_0_lt. Qed.

Lemma pow2_add (a b : Z) : pow2 (a + b) == pow2 a * pow2 b.
Proof. rewrite !pow2_Qpower. now apply Qpower_plus. Qed.

Lemma pow10_add (a b : Z) : pow10 (a + b) == pow10 a * pow10 b.
Proof. rewrite !pow10_Qpower. now apply Qpower_plus. Qed.

Lemma pow2_succ (a : Z) : pow2 (a + 1) == 2 * pow2 a.
Proof. rewrite pow2_add. change (pow2 1) with 2. ring. Qed.

Lemma pow10_succ (a : Z) : pow10 (a + 1) == 10 * pow10 a.
Proof. rewrite pow10_add. change (pow10 1) with 10. ring. Qed.

Lemma pow2_le (a b : Z) : (a <= b)%Z -> pow2 a <= pow2 b.
Proof.
  intros H. rewrite !pow2_Qpower. apply Qpower_le_compat_l; [exact H | lra].
Qed.

Lemma pow10_le (a b : Z) : (a <= b)%Z -> pow10 a <= pow10 b.
Proof.
  intros H. rewrite !pow10_Qpower. apply Qpower_le_compat_l; [exact H | lra].
Qed.

Lemma pow2_inject (e : Z) : (0 <= e)%Z -> pow2 e = inject_Z (2 ^ e).
Proof. unfold pow2. intros H. destruct (Z.leb_spec 0 e); [reflexivity | lia]. Qed.

Lemma pow2_neg (e : Z) : pow2 (- e) == / pow2 e.
Proof. rewrite !pow2_Qpower. apply Qpower_opp. Qed.

Lemma pow2_lt_inv (a b : Z) : pow2 a < pow2 b -> (a < b)%Z.
Proof.
  intros H. destruct (Z.lt_ge_cases a b) as [|G]; [assumption|].
  apply pow2_le in G. lra.
Qed.

Lemma inject_Z_pos (n : Z) : (0 < n)%Z -> 0 < inject_Z n.
Proof. intros H. change 0 with (inject_Z 0). now rewrite <- Zlt_Qlt. Qed.

(** [scaled n d e] is the fraction [n / (d * 2^e)]. *)
Lemma scaled_spec (n d e : Z) :
  (0 < n)%Z -> (0 < d)%Z ->
  (0 < fst (scaled n d e))%Z /\ (0 < snd (scaled n d e))%Z
  /\ inject_Z (fst (scaled n d e))
     == inject_Z (snd (scaled n d e)) * (inject_Z n / inject_Z d) / pow2 e.
Proof.
  intros Hn Hd. unfold scaled.
  assert (Hd' := inject_Z_pos _ Hd).
  assert (Hp := pow2_pos e).
  destruct (Z.leb_spec 0 e) as [H|H]; cbn [fst snd].
  - assert (0 < 2 ^ e)%Z by (apply Z.pow_pos_nonneg; lia).
    repeat split; try nia.
    rewrite inject_Z_mult, <- (pow2_inject e) by assumption.
    field. split; lra.
  - assert (0 < 2 ^ (- e))%Z by (apply Z.pow_pos_nonneg; lia).
    repeat split; try nia.
    rewrite inject_Z_mult, <- (pow2_inject (- e)) by lia.
    rewrite pow2_neg. field. split; lra.
Qed.

Lemma log2_bounds (n : Z) :
  (0 < n)%Z -> pow2 (Z.log2 n) <= inject_Z n /\ inject_Z n < pow2 (Z.log2 n + 1).
Proof.
  intros Hn. destruct (Z.log2_spec n Hn) as [L U].
  pose proof (Z.log2_nonneg n) as H0.
  rewrite !pow2_inject by lia. rewrite <- Zle_Qle, <- Zlt_Qlt.
  split; [exact L|]. now rewrite Z.add_1_r.
Qed.

(** The exponent chosen by [binade] puts [n / d] in [[2^(e+52), 2^(e+53))],
    unless [n / d] is below the normal range. *)
Lemma binade_spec (n d : Z) :
  (0 < n)%Z -> (0 < d)%Z ->
  let q := inject_Z n / inject_Z d in
  let e := binade n d in
  q < pow2 (e + 53) /\ (pow2 (emin + 52) <= q -> pow2 (e + 52) <= q)
  /\ (emin <= e)%Z.
Proof.
  intros Hn Hd q e. subst e. unfold binade.
  set (l := (Z.log2 n - Z.log2 d)%Z).
  destruct (scaled_spec n d l Hn Hd) as (Ha & Hb & E).
  destruct (scaled n d l) as [a b]. cbn [fst snd] in *. fold q in E.
  destruct (log2_bounds n Hn) as [Ln Un]. destruct (log2_bounds d Hd) as [Ld Ud].
  assert (Hd' := inject_Z_pos _ Hd). assert (Hb' := inject_Z_pos _ Hb).
  assert (Pl := pow2_pos l). assert (Pd := pow2_pos (Z.log2 d)).
  assert (Hq : q * inject_Z d == inject_Z n) by (unfold q; field; lra).
  assert (Eu : pow2 (Z.log2 n + 1) == 2 * pow2 l * pow2 (Z.log2 d)).
  { replace (Z.log2 n + 1)%Z with ((l + Z.log2 d) + 1)%Z by (unfold l; lia).
    rewrite pow2_succ, pow2_add. ring. }
  assert (El : 2 * pow2 (Z.log2 n) == pow2 l * pow2 (Z.log2 d + 1)).
  { replace (Z.log2 n) with (l + Z.log2 d)%Z at 1 by (unfold l; lia).
    rewrite pow2_succ, pow2_add. ring. }
  assert (U : q < 2 * pow2 l) by nra.
  assert (L : pow2 l < 2 * q) by nra.
  assert (Ea : inject_Z a * pow2 l == inject_Z b * q) by (rewrite E; field; lra).
  destruct (Z.leb_spec b a) as [C|C].
  - assert (C' : inject_Z b <= inject_Z a) by now rewrite <- Zle_Qle.
    assert (Lq : pow2 l <= q) by nra.
    destruct (Z.max_spec emin (l - 52)) as [[M ->]|[M ->]].
    + replace (l - 52 + 53)%Z with (l + 1)%Z by lia.
      replace (l - 52 + 52)%Z with l by lia.
      rewrite pow2_succ. repeat split; auto; lia.
    + repeat split; auto; try lia.
      assert (pow2 (l + 1) <= pow2 (emin + 53)) by (apply pow2_le; lia).
      rewrite pow2_succ in H. lra.
  - assert (C' : inject_Z a < inject_Z b) by now rewrite <- Zlt_Qlt.
    assert (Lq : q < pow2 l) by nra.
    destruct (Z.max_spec emin (l - 53)) as [[M ->]|[M ->]].
    + replace (l - 53 + 53)%Z with l by lia.
      replace (l - 53 + 52)%Z with (l - 1)%Z by lia.
      assert (E1 : pow2 l == 2 * pow2 (l - 1)).
      { replace l with (l - 1 + 1)%Z at 1 by lia. apply pow2_succ. }
      repeat split; auto; try lia. intros _. lra.
    + repeat split; auto; try lia.
      assert (pow2 l <= pow2 (emin + 53)) by (apply pow2_le; lia). lra.
Qed.

Lemma pow2_53 : pow2 53 = inject_Z (2 ^ 53).
Proof. reflexivity. Qed.

(** The mantissa and exponent computed by [roundPos]: the value
    [m * 2^e'] is within half a unit in the last place of [n / d], the
    mantissa fits in 53 bits, and it has exactly 53 bits in the normal
    range. *)
Lemma roundPos_spec (n d : Z) :
  (0 < n)%Z -> (0 < d)%Z ->
  let q := inject_Z n / inject_Z d in
  let e := binade n d in
  let m := fst (roundPos n d) in
  let e' := snd (roundPos n d) in
  (0 <= m < 2 ^ 53)%Z
  /\ (e <= e' <= e + 1)%Z
  /\ Qabs (inject_Z m * pow2 e' - q) <= pow2 (e - 1)
  /\ (pow2 (emin + 52) <= q -> (2 ^ 52 <= m)%Z)
  /\ (forall k : Z, q == inject_Z k * pow2 e -> inject_Z m * pow2 e' == q).
Proof.
  intros Hn Hd q e m e'. subst m e'. unfold roundPos. fold e.
  destruct (binade_spec n d Hn Hd) as (U & L & _). fold q e in U, L.
  destruct (scaled_spec n d e Hn Hd) as (Ha & Hb & E). fold q in E.
  destruct (scaled n d e) as [a b]. cbn [fst snd] in *.
  destruct (rne_spec a b ltac:(lia) Hb) as [[R1 R2] R0].
  set (m0 := rne a b) in *.
  assert (Hb' := inject_Z_pos _ Hb). assert (Pe := pow2_pos e).
  assert (Ea : inject_Z a == inject_Z b * (q / pow2 e)) by (rewrite E; field; lra).
  assert (P53 : pow2 (e + 53) == inject_Z (2 ^ 53) * pow2 e).
  { rewrite Z.add_comm, pow2_add. reflexivity. }
  assert (P52 : pow2 (e + 52) == inject_Z (2 ^ 52) * pow2 e).
  { rewrite Z.add_comm, pow2_add. reflexivity. }
  assert (Pm1 : pow2 e == 2 * pow2 (e - 1)).
  { replace e with (e - 1 + 1)%Z at 1 by lia. apply pow2_succ. }
  (* the rounded mantissa, as rationals *)
  assert (Q1 : 2 * (inject_Z m0 * inject_Z b) <= 2 * inject_Z a + inject_Z b).
  { rewrite <- !inject_Z_mult. change 2 with (inject_Z 2).
    rewrite <- !inject_Z_mult, <- inject_Z_plus, <- Zle_Qle. lia. }
  assert (Q2 : 2 * inject_Z a <= 2 * (inject_Z m0 * inject_Z b) + inject_Z b).
  { rewrite <- !inject_Z_mult. change 2 with (inject_Z 2).
    rewrite <- !inject_Z_mult, <- inject_Z_plus, <- Zle_Qle. lia. }
  set (t := q / pow2 e) in *.
  assert (Ht : q == t * pow2 e) by (unfold t; field; lra).
  assert (T1 : 2 * inject_Z m0 - 1 <= 2 * t) by nra.
  assert (T2 : 2 * t <= 2 * inject_Z m0 + 1) by nra.
  assert (TU : t < inject_Z (2 ^ 53)).
  { apply Qmult_lt_r with (z := pow2 e); [exact Pe|]. lra. }
  assert (M53 : (m0 <= 2 ^ 53)%Z).
  { apply Z.lt_succ_r. rewrite Zlt_Qlt. unfold Z.succ.
    rewrite inject_Z_plus. change (inject_Z 1) with 1. lra. }
  assert (Err : Qabs (inject_Z m0 * pow2 e - q) <= pow2 (e - 1)).
  { apply Qabs_Qle_condition. split; nra. }
  assert (Low : pow2 (emin + 52) <= q -> (2 ^ 52 <= m0)%Z).
  { intros Hq. specialize (L Hq).
    assert (TL : inject_Z (2 ^ 52) <= t).
    { apply Qmult_le_r with (z := pow2 e); [exact Pe|]. lra. }
    assert (inject_Z (2 ^ 52) < inject_Z (m0 + 1)).
    { rewrite inject_Z_plus. change (inject_Z 1) with 1. lra. }
    rewrite <- Zlt_Qlt in H. lia. }
  assert (Ex : forall k : Z, q == inject_Z k * pow2 e -> inject_Z m0 * pow2 e == q).
  { intros k Hk. assert (Etk : t == inject_Z k).
    { apply Qmult_inj_r with (z := pow2 e); [lra|]. lra. }
    assert (m0 = k) as ->; [|lra].
    apply rne_exact; [exact Hb|].
    apply inject_Z_injective. rewrite inject_Z_mult, Ea, Etk. ring. }
  destruct (Z.eqb_spec m0 (2 ^ prec)) as [C|C]; cbn [fst snd].
  - assert (V : inject_Z (2 ^ (prec - 1)) * pow2 (e + 1) == inject_Z m0 * pow2 e).
    { rewrite C, pow2_succ. change (inject_Z (2 ^ prec)) with (2 * inject_Z (2 ^ (prec - 1))).
      ring. }
    repeat split; try (cbn; lia).
    + rewrite V. exact Err.
    + intros k Hk. rewrite V. eauto.
  - change (2 ^ prec)%Z with (2 ^ 53)%Z in C.
    repeat split; try lia; auto.
Qed.

(** ** The Number value of a rational *)

Lemma val_finite (sg : bool) (m : positive) (e : Z) :
  val (S754_finite sg m e) == signed sg (inject_Z (Zpos m) * pow2 e).
Proof. destruct sg; cbn [val signed]; [|reflexivity]. 
  change (inject_Z (Z.neg m)) with (- inject_Z (Z.pos m)). ring. Qed.

Lemma build_cases (sg : bool) (m e : Z) :
  (0 <= m)%Z ->
  (m = 0%Z /\ build sg (m, e) = S754_zero sg)
  \/ (0 < m /\ emax - prec < e /\ build sg (m, e) = S754_infinity sg)%Z
  \/ (exists p, m = Zpos p /\ (e <= emax - prec)%Z
                /\ build sg (m, e) = S754_finite sg p e).
Proof.
  intros Hm. unfold build. destruct m as [|p|p]; [auto | | lia].
  destruct (Z.leb_spec e (emax - prec)); [right; right; eauto | right; left].
  repeat split; auto; lia.
Qed.

Lemma roundQ_Qeq (s : bool) (q q' : Q) : q == q' -> roundQ s q = roundQ s q'.
Proof. intros H. unfold roundQ. now rewrite (Qred_complete _ _ H). Qed.

(** [roundQ] on a positive and on a negative rational. *)
Lemma roundQ_pos (s : bool) (q : Q) :
  0 < q ->
  exists n d : Z, (0 < n)%Z /\ (0 < d)%Z /\ inject_Z n / inject_Z d == q
                  /\ roundQ s q = build false (roundPos n d).
Proof.
  intros Hq. unfold roundQ.
  pose proof (Qred_correct q) as E. destruct (Qred q) as [n d]. cbn [Qnum Qden].
  assert (Hn : (0 < n)%Z).
  { rewrite <- E in Hq. unfold Qlt in Hq. cbn in Hq. lia. }
  destruct n as [|n|n]; try lia.
  exists (Zpos n), (Zpos d). repeat split; try lia.
  rewrite <- E. symmetry. apply Qmake_Qdiv.
Qed.

Lemma roundQ_neg (s : bool) (q : Q) :
  q < 0 ->
  exists n d : Z, (0 < n)%Z /\ (0 < d)%Z /\ inject_Z n / inject_Z d == - q
                  /\ roundQ s q = build true (roundPos n d).
Proof.
  intros Hq. unfold roundQ.
  pose proof (Qred_correct q) as E. destruct (Qred q) as [n d]. cbn [Qnum Qden].
  assert (Hn : (n < 0)%Z).
  { rewrite <- E in Hq. unfold Qlt in Hq. cbn in Hq. lia. }
  destruct n as [|n|n]; try lia.
  exists (Zpos n), (Zpos d). repeat split; try lia.
  rewrite <- E, (Qmake_Qdiv (Z.neg n) d).
  change (inject_Z (Z.neg n)) with (- inject_Z (Z.pos n)).
  field. unfold Qeq. cbn. lia.
Qed.

Lemma roundQ_zero (s : bool) (q : Q) : q == 0 -> roundQ s q = S754_zero s.
Proof. intros H. rewrite (roundQ_Qeq s q 0 H). reflexivity. Qed.

Lemma build_wf (sg : bool) (n d : Z) :
  (0 < n)%Z -> (0 < d)%Z -> wf (build sg (roundPos n d)).
Proof.
  intros Hn Hd. destruct (roundPos_spec n d Hn Hd) as ([M0 M1] & _).
  destruct (roundPos n d) as [m e]. cbn [fst snd] in *.
  destruct (build_cases sg m e M0) as [[_ ->]|[(_ & _ & ->)|(p & -> & _ & ->)]];
    cbn; auto.
Qed.

Lemma build_not_nan (sg : bool) (me : Z * Z) : isNaN (build sg me) = false.
Proof.
  destruct me as [m e]. unfold build. destruct m; try reflexivity.
  destruct (e <=? emax - prec)%Z; reflexivity.
Qed.

Lemma roundQ_wf (s : bool) (q : Q) : wf (roundQ s q).
Proof.
  destruct (Q_dec q 0) as [[H|H]|H].
  - destruct (roundQ_neg s q H) as (n & d & Hn & Hd & _ & ->). now apply build_wf.
  - destruct (roundQ_pos s q H) as (n & d & Hn & Hd & _ & ->). now apply build_wf.
  - rewrite roundQ_zero by assumption. exact I.
Qed.

Lemma roundQ_not_nan (s : bool) (q : Q) : isNaN (roundQ s q) = false.
Proof.
  unfold roundQ. destruct (Qnum (Qred q)); auto using build_not_nan.
Qed.

(** In the normal range, a finite result is within relative error [2^-53]
    of the rational, has its sign, and is not zero. *)
Lemma build_error (sg : bool) (n d : Z) :
  (0 < n)%Z -> (0 < d)%Z ->
  let q := inject_Z n / inject_Z d in
  let r := build sg (roundPos n d) in
  pow2 (emin + 52) <= q ->
  (r = S754_infinity sg /\ pow2 (emax - 1) <= q)
  \/ (exists m e, r = S754_finite sg m e /\ (Zpos m < 2 ^ 53)%Z
                  /\ Qabs (inject_Z (Zpos m) * pow2 e - q) <= q * (1 # 2 ^ 53)).
Proof.
  intros Hn Hd q r Hq. subst r.
  destruct (roundPos_spec n d Hn Hd) as ([M0 M1] & [E0 E1] & Err & Low & _).
  destruct (binade_spec n d Hn Hd) as (U & L & _).
  fold q in Err, Low, U, L. specialize (Low Hq). specialize (L Hq).
  destruct (roundPos n d) as [m e']. cbn [fst snd] in *.
  set (e := binade n d) in *.
  destruct (build_cases sg m e' M0) as [[-> _]|[(_ & He & ->)|(p & -> & _ & ->)]].
  - lia.
  - left. split; [reflexivity|].
    apply Qle_trans with (pow2 (e + 52)); [|exact L].
    apply pow2_le. unfold emax, prec in *. lia.
  - right. exists p, e'. repeat split; auto.
    apply Qle_trans with (pow2 (e - 1)); [exact Err|].
    assert (P : pow2 (e + 52) == pow2 (e - 1) * inject_Z (2 ^ 53)).
    { replace (e + 52)%Z with (e - 1 + 53)%Z by lia. now rewrite pow2_add. }
    assert (Pp := pow2_pos (e - 1)).
    change (1 # 2 ^ 53) with (/ inject_Z (2 ^ 53)).
    apply Qle_shift_div_l; [reflexivity|]. lra.
Qed.

Lemma build_finite (sg : bool) (n d : Z) :
  (0 < n)%Z -> (0 < d)%Z ->
  let q := inject_Z n / inject_Z d in
  pow2 (emin + 52) <= q -> q < pow2 (emax - 1) ->
  exists m e, build sg (roundPos n d) = S754_finite sg m e.
Proof.
  intros Hn Hd q L U.
  destruct (build_error sg n d Hn Hd L) as [[_ H]|(m & e & H & _)]; [|eauto].
  fold q in H. lra.
Qed.

Lemma build_exact (sg : bool) (n d k : Z) :
  (0 < n)%Z -> (0 < d)%Z ->
  let q := inject_Z n / inject_Z d in
  pow2 (emin + 52) <= q -> q < pow2 (emax - 1) ->
  q == inject_Z k * pow2 (binade n d) ->
  exists m e, build sg (roundPos n d) = S754_finite sg m e
              /\ (Zpos m < 2 ^ 53)%Z
              /\ inject_Z (Zpos m) * pow2 e == q.
Proof.
  intros Hn Hd q L U Hk.
  destruct (build_finite sg n d Hn Hd L U) as (m & e & E).
  exists m, e. split; [exact E|].
  destruct (roundPos_spec n d Hn Hd) as ([M0 M1] & _ & _ & _ & Ex).
  fold q in Ex. specialize (Ex k Hk).
  destruct (roundPos n d) as [m' e']. cbn [fst snd] in *.
  destruct (build_cases sg m' e' M0) as [[_ C]|[(_ & _ & C)|(p & -> & _ & C)]];
    rewrite C in E; try discriminate.
  injection E as -> ->. split; [lia | exact Ex].
Qed.

Lemma negative_pos (q : Q) : 0 < q -> negative q = false.
Proof.
  intros H. unfold negative. apply negb_false_iff, Qle_bool_iff. lra.
Qed.

Lemma negative_neg (q : Q) : q < 0 -> negative q = true.
Proof.
  intros H. unfold negative. apply negb_true_iff.
  destruct (Qle_bool 0 q) eqn:E; [|reflexivity].
  apply Qle_bool_iff in E. lra.
Qed.

(** The error of [roundQ] in the normal range. *)
Lemma roundQ_error (s : bool) (q : Q) :
  pow2 (emin + 52) <= Qabs q ->
  isFinite (roundQ s q) = true ->
  exists m e, roundQ s q = S754_finite (negative q) m e
              /\ (Zpos m < 2 ^ 53)%Z
              /\ Qabs (val (roundQ s q) - q) <= Qabs q * (1 # 2 ^ 53).
Proof.
  intros L F.
  assert (P := pow2_pos (emin + 52)).
  destruct (Q_dec q 0) as [[H|H]|H].
  - destruct (roundQ_neg s q H) as (n & d & Hn & Hd & E & R).
    assert (Ea : Qabs q == - q) by (apply Qabs_neg; lra).
    rewrite R in *. rewrite negative_neg by assumption.
    rewrite Ea in L.
    destruct (build_error true n d Hn Hd) as [[C _]|(m & e & C & M & Err)].
    + now rewrite E.
    + rewrite C in F. discriminate.
    + exists m, e. rewrite C. repeat split; auto.
      rewrite val_finite, Ea. cbn [signed]. rewrite E in Err.
      rewrite <- Qabs_opp.
      setoid_replace (- (- (inject_Z (Z.pos m) * pow2 e) - q))
        with (inject_Z (Z.pos m) * pow2 e - - q) by ring.
      exact Err.
  - destruct (roundQ_pos s q H) as (n & d & Hn & Hd & E & R).
    assert (Ea : Qabs q == q) by (apply Qabs_pos; lra).
    rewrite R in *. rewrite negative_pos by assumption.
    rewrite Ea in L.
    destruct (build_error false n d Hn Hd) as [[C _]|(m & e & C & M & Err)].
    + now rewrite E.
    + rewrite C in F. discriminate.
    + exists m, e. rewrite C. repeat split; auto.
      rewrite val_finite, Ea. cbn [signed]. now rewrite E in Err.
  - rewrite H in L. cbn in L. lra.
Qed.

Lemma roundQ_finite (s : bool) (q : Q) :
  pow2 (emin + 52) <= Qabs q -> Qabs q < pow2 (emax - 1) ->
  isFinite (roundQ s q) = true.
Proof.
  intros L U.
  assert (P := pow2_pos (emin + 52)).
  destruct (Q_dec q 0) as [[H|H]|H].
  - destruct (roundQ_neg s q H) as (n & d & Hn & Hd & E & R).
    assert (Ea : Qabs q == - q) by (apply Qabs_neg; lra).
    rewrite Ea, <- E in L, U.
    destruct (build_finite true n d Hn Hd L U) as (m & e & C).
    now rewrite R, C.
  - destruct (roundQ_pos s q H) as (n & d & Hn & Hd & E & R).
    assert (Ea : Qabs q == q) by (apply Qabs_pos; lra).
    rewrite Ea, <- E in L, U.
    destruct (build_finite false n d Hn Hd L U) as (m & e & C).
    now rewrite R, C.
  - rewrite H in L. cbn in L. lra.
Qed.

(** Integers below [2^53] are Numbers. *)
Lemma ofZ_exact (n : Z) :
  n <> 0%Z -> (Z.abs n < 2 ^ 53)%Z ->
  exists m e, ofZ n = S754_finite (n <? 0)%Z m e
              /\ (Zpos m < 2 ^ 53)%Z
              /\ val (ofZ n) == inject_Z n.
Proof.
  intros N0 B. unfold ofZ.
  assert (core : forall sg a d, (0 < a)%Z -> (0 < d)%Z ->
            inject_Z a / inject_Z d == inject_Z (Z.abs n) ->
            exists m e, build sg (roundPos a d) = S754_finite sg m e
                        /\ (Zpos m < 2 ^ 53)%Z
                        /\ inject_Z (Zpos m) * pow2 e == inject_Z (Z.abs n)).
  { intros sg a d Ha Hd E.
    assert (Q1 : 1 <= inject_Z (Z.abs n)).
    { change 1 with (inject_Z 1). rewrite <- Zle_Qle. lia. }
    assert (Q2 : inject_Z (Z.abs n) < pow2 53).
    { rewrite pow2_53, <- Zlt_Qlt. exact B. }
    assert (L : pow2 (emin + 52) <= inject_Z a / inject_Z d).
    { rewrite E. apply Qle_trans with 1; [|exact Q1].
      change 1 with (pow2 0). apply pow2_le. unfold emin. lia. }
    assert (U : inject_Z a / inject_Z d < pow2 (emax - 1)).
    { rewrite E. apply Qlt_le_trans with (pow2 53); [exact Q2|].
      apply pow2_le. unfold emax. lia. }
    destruct (binade_spec a d Ha Hd) as (_ & Lb & _). specialize (Lb L).
    set (e := binade a d) in *.
    assert (He : (e <= 0)%Z).
    { assert (pow2 (e + 52) < pow2 53) by (rewrite E in Lb; lra).
      apply pow2_lt_inv in H. lia. }
    destruct (build_exact sg a d (Z.abs n * 2 ^ (- e)) Ha Hd L U) as (m & e' & C & M & V).
    { fold e. rewrite E, inject_Z_mult, <- (pow2_inject (- e)) by lia.
      rewrite pow2_neg. field. assert (P := pow2_pos e). lra. }
    exists m, e'. rewrite <- E. auto. }
  destruct (Z.ltb_spec n 0) as [H|H].
  - assert (Hq : inject_Z n < 0).
    { change 0 with (inject_Z 0). rewrite <- Zlt_Qlt. exact H. }
    destruct (roundQ_neg false _ Hq) as (a & d & Ha & Hd & E & R).
    destruct (core true a d Ha Hd) as (m & e & C & M & V).
    { rewrite E, <- inject_Z_opp. now rewrite Z.abs_neq by lia. }
    exists m, e. rewrite R, C. repeat split; auto.
    rewrite val_finite. cbn [signed]. rewrite V.
    rewrite Z.abs_neq, inject_Z_opp by lia. ring.
  - assert (Hq : 0 < inject_Z n).
    { change 0 with (inject_Z 0). rewrite <- Zlt_Qlt. lia. }
    destruct (roundQ_pos false _ Hq) as (a & d & Ha & Hd & E & R).
    destruct (core false a d Ha Hd) as (m & e & C & M & V).
    { rewrite E. now rewrite Z.abs_eq by lia. }
    exists m, e. rewrite R, C. repeat split; auto.
    rewrite val_finite. cbn [signed]. rewrite V.
    now rewrite Z.abs_eq by lia.
Qed.

(** ** Math.round and the two scalings by 100 *)

Lemma Qfloor_unique (x : Q) (k : Z) :
  inject_Z k <= x -> x < inject_Z k + 1 -> Qfloor x = k.
Proof.
  intros L U. pose proof (Qfloor_le x) as F1. pose proof (Qlt_floor x) as F2.
  rewrite inject_Z_plus in F2. change (inject_Z 1) with 1 in F2.
  assert (A : inject_Z (Qfloor x) < inject_Z (k + 1)).
  { rewrite inject_Z_plus. change (inject_Z 1) with 1. lra. }
  assert (B : inject_Z k < inject_Z (Qfloor x + 1)).
  { rewrite inject_Z_plus. change (inject_Z 1) with 1. lra. }
  rewrite <- Zlt_Qlt in A, B. lia.
Qed.

Lemma val_100 : val (ofZ 100) == 100.
Proof. vm_compute. reflexivity. Qed.

Lemma ofZ_100 : ofZ 100 = S754_finite false 7036874417766400 (-46).
Proof. vm_compute. reflexivity. Qed.

(** [Math.round] of a finite canonical number is the integer
    [floor (x + 1/2)], exactly. *)
Lemma round_spec (y : number) :
  wf y -> isFinite y = true ->
  let K := Qfloor (val y + (1 # 2)) in
  (K = 0%Z /\ round y = S754_zero (sign y))
  \/ (K <> 0%Z /\ isFinite (round y) = true /\ isZero (round y) = false
      /\ wf (round y) /\ val (round y) == inject_Z K).
Proof.
  intros W F K. destruct y as [s|s| |s m e]; try discriminate F; clear F.
  - left. split; reflexivity.
  - cbn [wf] in W. cbn [round].
    destruct (Z.leb_spec 0 e) as [He|He].
    + (* an integer already *)
      right.
      assert (V : val (S754_finite s m e)
                  == inject_Z (if s then - (Zpos m * 2 ^ e) else Zpos m * 2 ^ e)).
      { rewrite val_finite, pow2_inject by assumption.
        destruct s; cbn [signed]; rewrite ?inject_Z_opp, inject_Z_mult; reflexivity. }
      assert (EK : K = if s then (- (Zpos m * 2 ^ e))%Z else (Zpos m * 2 ^ e)%Z).
      { subst K. apply Qfloor_unique; rewrite V; lra. }
      assert (0 < 2 ^ e)%Z by (apply Z.pow_pos_nonneg; lia).
      repeat split; auto.
      * rewrite EK. destruct s; nia.
      * now rewrite EK.
    + fold K.
      assert (Pm := pow2_pos e).
      assert (Ph : pow2 e <= 1 # 2).
      { change (1 # 2) with (pow2 (-1)). apply pow2_le. lia. }
      assert (Mq : inject_Z (Zpos m) < inject_Z (2 ^ 53)) by now rewrite <- Zlt_Qlt.
      assert (M0 : 0 < inject_Z (Zpos m)) by now apply inject_Z_pos.
      assert (Vb : Qabs (val (S754_finite s m e)) < inject_Z (2 ^ 52)).
      { rewrite val_finite. change (inject_Z (2 ^ 53)) with (2 * inject_Z (2 ^ 52)) in Mq.
        destruct s; cbn [signed].
        - rewrite Qabs_opp, Qabs_pos by nra. nra.
        - rewrite Qabs_pos by nra. nra. }
      assert (KB : (Z.abs K < 2 ^ 53)%Z).
      { pose proof (Qfloor_le (val (S754_finite s m e) + (1 # 2))) as F1.
        pose proof (Qlt_floor (val (S754_finite s m e) + (1 # 2))) as F2.
        fold K in F1, F2. rewrite inject_Z_plus in F2.
        change (inject_Z 1) with 1 in F2.
        apply Qabs_Qlt_condition in Vb. destruct Vb as [V1 V2].
        assert (A : inject_Z K < inject_Z (2 ^ 52 + 1)).
        { rewrite inject_Z_plus. change (inject_Z 1) with 1. lra. }
        assert (B : inject_Z (- 2 ^ 52 - 1) < inject_Z K + 1).
        { change (inject_Z (- 2 ^ 52 - 1)) with (- inject_Z (2 ^ 52) - 1). lra. }
        change (inject_Z K + 1) with (inject_Z K + inject_Z 1) in B.
        rewrite <- inject_Z_plus in B.
        rewrite <- Zlt_Qlt in A, B. lia. }
      destruct (Z.eqb_spec K 0) as [K0|K0]; [left; auto|].
      right. destruct (ofZ_exact K K0 KB) as (m' & e' & C & M & V).
      rewrite C in *. repeat split; auto.
Qed.

Lemma mul_100_finite (s : bool) (m : positive) (e : Z) :
  mul (S754_finite s m e) (ofZ 100)
  = roundQ s (val (S754_finite s m e) * 100).
Proof.
  rewrite ofZ_100. unfold mul. cbn [isNaN isInf isZero orb andb sign].
  rewrite xorb_false_r. apply roundQ_Qeq.
  rewrite <- ofZ_100, val_100. reflexivity.
Qed.

Lemma div_100_finite (s : bool) (m : positive) (e : Z) :
  div (S754_finite s m e) (ofZ 100)
  = roundQ s (val (S754_finite s m e) / 100).
Proof.
  rewrite ofZ_100. unfold div. cbn [isNaN isInf isZero orb andb sign].
  rewrite xorb_false_r. apply roundQ_Qeq.
  rewrite <- ofZ_100, val_100. reflexivity.
Qed.

Lemma parseAmount_cases (x : string) :
  parseAmount x = zero \/ exists tmp, parseAmount x = amountOf (parseFloat tmp).
Proof.
  unfold parseAmount. destruct (isEmpty x); [now left|].
  destruct (isEmpty (trim (filterc isAmountChar (stripCurrency x)))); [now left|].
  right. eexists. reflexivity.
Qed.

Lemma parseFloat_wf (s : string) : wf (parseFloat s).
Proof.
  unfold parseFloat.
  destruct (signPart (trimStart s)) as [neg s2].
  destruct (startsWith s2 "Infinity"); [exact I|].
  destruct (spanc isDigit s2) as [ip r1].
  destruct (match r1 with String "." r => spanc isDigit r | _ => (EmptyString, r1) end)
    as [fp r2].
  destruct (isEmpty ip && isEmpty fp); [exact I|]. apply roundQ_wf.
Qed.


(** The three outcomes of [parseAmount]: a zero, an infinity, or the
    Number nearest to a non-zero integer number of hundredths. *)
Lemma amountOf_cases (num : number) :
  wf num ->
  (exists s, amountOf num = S754_zero s)
  \/ (exists s, amountOf num = S754_infinity s)
  \/ (exists (K : Z) (s : bool), K <> 0%Z /\ amountOf num = roundQ s (K # 100)).
Proof.
  intros W. unfold amountOf.
  destruct num as [s|s| |s m e]; cbn [isNaN].
  - left. exists s. destruct s; vm_compute; reflexivity.
  - right. left. exists s. destruct s; vm_compute; reflexivity.
  - left. exists false. reflexivity.
  - rewrite mul_100_finite.
    set (y := roundQ s (val (S754_finite s m e) * 100)).
    assert (Wy : wf y) by apply roundQ_wf.
    assert (Ny : isNaN y = false) by apply roundQ_not_nan.
    destruct y as [sy|sy| |sy my ey] eqn:Ey; try discriminate.
    + left. exists sy. destruct sy; vm_compute; reflexivity.
    + right. left. exists sy. destruct sy; vm_compute; reflexivity.
    + destruct (round_spec (S754_finite sy my ey) Wy eq_refl)
        as [[K0 R]|(K0 & F & Z0 & Wr & V)].
      * rewrite R. left. exists sy. cbn [sign]. destruct sy; vm_compute; reflexivity.
      * destruct (round (S754_finite sy my ey)) as [sr|sr| |sr mr er];
          try discriminate.
        rewrite div_100_finite. right. right.
        exists (Qfloor (val (S754_finite sy my ey) + (1 # 2))), sr.
        split; [exact K0|].
        apply roundQ_Qeq. rewrite V. rewrite (Qmake_Qdiv _ 100). reflexivity.
Qed.

Lemma parseAmount_outcomes (x : string) :
  (exists s, parseAmount x = S754_zero s)
  \/ (exists s, parseAmount x = S754_infinity s)
  \/ (exists (K : Z) (s : bool), K <> 0%Z /\ parseAmount x = roundQ s (K # 100)).
Proof.
  destruct (parseAmount_cases x) as [->|[tmp ->]].
  - left. now exists false.
  - apply amountOf_cases, parseFloat_wf.
Qed.


End Rounding.

Section Hundredths.
Local Open Scope Q_scope.

(** ** Amounts are fixed points of the rounding to hundredths *)

Lemma roundQ_sign_irrelevant (s s' : bool) (q : Q) :
  ~ q == 0 -> roundQ s q = roundQ s' q.
Proof.
  intros H. unfold roundQ. pose proof (Qred_correct q) as E.
  destruct (Qred q) as [n d]. cbn [Qnum Qden].
  destruct n; try reflexivity. destruct H. rewrite <- E. reflexivity.
Qed.

Lemma hundredths_mul (K : Z) : K # 100 == inject_Z K * (1 # 100).
Proof. rewrite (Qmake_Qdiv K 100). unfold Qdiv. reflexivity. Qed.

Lemma inject_Z_ge1 (K : Z) : (1 <= K)%Z -> 1 <= inject_Z K.
Proof. intros H. change 1 with (inject_Z 1). now rewrite <- Zle_Qle. Qed.

Lemma inject_Z_le_m1 (K : Z) : (K <= -1)%Z -> inject_Z K <= -1.
Proof. intros H. change (-1) with (inject_Z (-1)). now rewrite <- Zle_Qle. Qed.

Lemma hundredths_normal (K : Z) :
  K <> 0%Z -> pow2 (emin + 52) <= Qabs (K # 100).
Proof.
  intros H. apply Qle_trans with (1 # 100); [vm_compute; discriminate|].
  rewrite (hundredths_mul K).
  destruct (Z.lt_ge_cases K 0) as [C|C].
  - pose proof (inject_Z_le_m1 K ltac:(lia)). rewrite Qabs_neg; lra.
  - pose proof (inject_Z_ge1 K ltac:(lia)). rewrite Qabs_pos; lra.
Qed.

(** The Number nearest to [K / 100], when finite. *)
Lemma hundredths_error (s : bool) (K : Z) :
  K <> 0%Z -> isFinite (roundQ s (K # 100)) = true ->
  exists m e, roundQ s (K # 100) = S754_finite (K <? 0)%Z m e
              /\ (Zpos m < 2 ^ 53)%Z
              /\ Qabs (val (roundQ s (K # 100)) - inject_Z K * (1 # 100))
                 <= Qabs (inject_Z K * (1 # 100)) * eps.
Proof.
  intros K0 F.
  destruct (roundQ_error s (K # 100) (hundredths_normal K K0) F) as (m & e & R & M & Err).
  exists m, e. split; [|split; [exact M|]].
  - rewrite R. f_equal. unfold negative, Qle_bool. cbn.
    destruct (Z.ltb_spec K 0); destruct (Z.leb_spec 0 (K * 1)); auto; lia.
  - rewrite <- (hundredths_mul K). exact Err.
Qed.

(** Signed bounds on a Number with a relative error [eps]. *)
Lemma rel_error_bounds (v q : Q) :
  Qabs (v - q) <= Qabs q * eps ->
  (0 < q -> q - q * eps <= v <= q + q * eps)
  /\ (q < 0 -> q + q * eps <= v <= q - q * eps).
Proof.
  intros H. split; intros Hq.
  - rewrite (Qabs_pos q) in H by lra. apply Qabs_Qle_condition in H. lra.
  - rewrite (Qabs_neg q) in H by lra. apply Qabs_Qle_condition in H. lra.
Qed.

Lemma eps_val : eps == 1 # 9007199254740992.
Proof. reflexivity. Qed.

(** Scaling the Number nearest to [K / 100] back by 100 and rounding to an
    integer gives [K] again, as long as [|K| < 2^51]. *)
Lemma rescale_round (s s' : bool) (K : Z) :
  K <> 0%Z -> (Z.abs K < 2 ^ 51)%Z ->
  let r := roundQ s (K # 100) in
  let y := roundQ s' (val r * 100) in
  isFinite r = true /\ isFinite y = true
  /\ Qfloor (val y + (1 # 2)) = K.
Proof.
  intros K0 KB r y.
  assert (Fr : isFinite r = true).
  { apply roundQ_finite; [now apply hundredths_normal|].
    apply Qlt_trans with (pow2 51); [|vm_compute; reflexivity].
    rewrite (hundredths_mul K). change (pow2 51) with (inject_Z (2 ^ 51)).
    assert (inject_Z (Z.abs K) < inject_Z (2 ^ 51)) by now rewrite <- Zlt_Qlt.
    destruct (Z.lt_ge_cases K 0) as [C|C].
    - pose proof (inject_Z_le_m1 K ltac:(lia)).
      rewrite Z.abs_neq, inject_Z_opp in H by lia.
      rewrite Qabs_neg by lra. lra.
    - pose proof (inject_Z_ge1 K ltac:(lia)).
      rewrite Z.abs_eq in H by lia.
      rewrite Qabs_pos by lra. lra. }
  destruct (hundredths_error s K K0 Fr) as (m & e & R & M & Err). fold r in R, Err.
  apply rel_error_bounds in Err. destruct Err as [EP EN].
  assert (KQ : inject_Z (Z.abs K) <= inject_Z (2 ^ 51 - 1)) by (rewrite <- Zle_Qle; lia).
  change (inject_Z (2 ^ 51 - 1)) with 2251799813685247 in KQ.
  pose proof eps_val as Ev.
  assert (Ny : pow2 (emin + 52) <= Qabs (val r * 100)).
  { apply Qle_trans with (1 # 4); [vm_compute; discriminate|].
    destruct (Z.lt_ge_cases K 0) as [C|C].
    - pose proof (inject_Z_le_m1 K ltac:(lia)). specialize (EN ltac:(lra)).
      rewrite Qabs_neg; nra.
    - pose proof (inject_Z_ge1 K ltac:(lia)). specialize (EP ltac:(lra)).
      rewrite Qabs_pos; nra. }
  assert (Uy : Qabs (val r * 100) < pow2 (emax - 1)).
  { apply Qlt_trans with (pow2 52); [|vm_compute; reflexivity].
    change (pow2 52) with 4503599627370496.
    destruct (Z.lt_ge_cases K 0) as [C|C].
    - pose proof (inject_Z_le_m1 K ltac:(lia)). specialize (EN ltac:(lra)).
      rewrite Z.abs_neq, inject_Z_opp in KQ by lia.
      rewrite Qabs_neg; nra.
    - pose proof (inject_Z_ge1 K ltac:(lia)). specialize (EP ltac:(lra)).
      rewrite Z.abs_eq in KQ by lia.
      rewrite Qabs_pos; nra. }
  assert (Fy : isFinite y = true) by now apply roundQ_finite.
  destruct (roundQ_error s' (val r * 100) Ny Fy) as (my & ey & Ry & My & Erry).
  fold y in Ry, Erry. change (1 # 2 ^ 53) with eps in Erry.
  apply rel_error_bounds in Erry. destruct Erry as [YP YN].
  repeat split; auto.
  apply Qfloor_unique.
  - destruct (Z.lt_ge_cases K 0) as [C|C].
    + pose proof (inject_Z_le_m1 K ltac:(lia)). specialize (EN ltac:(lra)).
      rewrite Z.abs_neq, inject_Z_opp in KQ by lia.
      specialize (YN ltac:(nra)). nra.
    + pose proof (inject_Z_ge1 K ltac:(lia)). specialize (EP ltac:(lra)).
      rewrite Z.abs_eq in KQ by lia.
      specialize (YP ltac:(nra)). nra.
  - destruct (Z.lt_ge_cases K 0) as [C|C].
    + pose proof (inject_Z_le_m1 K ltac:(lia)). specialize (EN ltac:(lra)).
      rewrite Z.abs_neq, inject_Z_opp in KQ by lia.
      specialize (YN ltac:(nra)). nra.
    + pose proof (inject_Z_ge1 K ltac:(lia)). specialize (EP ltac:(lra)).
      rewrite Z.abs_eq in KQ by lia.
      specialize (YP ltac:(nra)). nra.
Qed.

(** Any finite Number with the value of the amount nearest to [K / 100]
    is normalised to that amount. *)
Lemma amountOf_fixpoint (s : bool) (K : Z) (z : number) :
  K <> 0%Z -> (Z.abs K < 2 ^ 51)%Z ->
  isFinite z = true -> isZero z = false ->
  val z == val (roundQ s (K # 100)) ->
  amountOf z = roundQ s (K # 100).
Proof.
  intros K0 KB Fz Zz Vz.
  destruct z as [sz|sz| |sz mz ez]; try discriminate.
  unfold amountOf. cbn [isNaN]. rewrite mul_100_finite.
  assert (E : roundQ sz (val (S754_finite sz mz ez) * 100)
              = roundQ sz (val (roundQ s (K # 100)) * 100)).
  { apply roundQ_Qeq. now rewrite Vz. }
  rewrite E. clear E.
  destruct (rescale_round s sz K K0 KB) as (_ & Fy & FK).
  set (y := roundQ sz (val (roundQ s (K # 100)) * 100)) in *.
  destruct (round_spec y (roundQ_wf _ _) Fy) as [[C _]|(_ & F & Z0 & _ & V)].
  - rewrite FK in C. contradiction.
  - rewrite FK in V.
    destruct (round y) as [sr|sr| |sr mr er]; try discriminate.
    rewrite div_100_finite.
    transitivity (roundQ sr (K # 100)).
    + apply roundQ_Qeq. rewrite V, (Qmake_Qdiv K 100). reflexivity.
    + apply roundQ_sign_irrelevant. rewrite (hundredths_mul K).
      destruct (Z.lt_ge_cases K 0) as [C|C].
      * pose proof (inject_Z_le_m1 K ltac:(lia)). lra.
      * pose proof (inject_Z_ge1 K ltac:(lia)). lra.
Qed.

Lemma val_abs (x : number) : val (abs x) == Qabs (val x).
Proof.
  destruct x as [s|s| |s m e]; try reflexivity.
  rewrite val_finite. change (abs (S754_finite s m e)) with (S754_finite false m e).
  rewrite val_finite. cbn [signed].
  assert (0 < inject_Z (Zpos m) * pow2 e).
  { apply Qmult_lt_0_compat; [now apply inject_Z_pos | apply pow2_pos]. }
  destruct s; cbn [signed]; [rewrite Qabs_opp|]; rewrite Qabs_pos; lra.
Qed.

Lemma leb_bound (x : number) (B : Z) :
  (0 < B < 2 ^ 53)%Z -> leb (abs x) (ofZ B) = true ->
  isInf x = false /\ isNaN x = false /\ Qabs (val x) <= inject_Z B.
Proof.
  intros HB H.
  destruct (ofZ_exact B ltac:(lia) ltac:(lia)) as (m & e & R & _ & V).
  rewrite <- V, <- val_abs. unfold leb, compare in H. rewrite R in *.
  destruct x as [s|s| |s mx ex]; cbn [abs isInf isNaN] in *; try discriminate;
    repeat split; auto.
  - destruct (Qcompare_spec (val (S754_zero false)) (val (S754_finite (B <? 0)%Z m e)));
      try discriminate; lra.
  - destruct (Qcompare_spec (val (S754_finite false mx ex)) (val (S754_finite (B <? 0)%Z m e)));
      try discriminate; lra.
Qed.

(** An amount of magnitude at most [amountBound] is fewer than [2^51]
    hundredths. *)
Lemma hundredths_bound (s : bool) (K : Z) :
  K <> 0%Z ->
  leb (abs (roundQ s (K # 100))) (ofZ amountBound) = true ->
  (Z.abs K <= 100 * amountBound)%Z /\ isFinite (roundQ s (K # 100)) = true.
Proof.
  intros K0 H. apply leb_bound in H; [|unfold amountBound; lia].
  destruct H as (I & N & B).
  assert (F : isFinite (roundQ s (K # 100)) = true).
  { destruct (roundQ s (K # 100)) as [s0|s0| |s0 m0 e0]; try discriminate; auto. }
  split; [|exact F].
  destruct (hundredths_error s K K0 F) as (m & e & _ & _ & Err).
  apply rel_error_bounds in Err. destruct Err as [EP EN].
  pose proof eps_val as Ev. unfold amountBound in *.
  change (inject_Z 20000000000000) with 20000000000000 in B.
  apply Qabs_Qle_condition in B. destruct B as [B1 B2].
  destruct (Z.lt_ge_cases K 0) as [C|C].
  - pose proof (inject_Z_le_m1 K ltac:(lia)). specialize (EN ltac:(lra)).
    assert (A : inject_Z (- 2000000000000001) < inject_Z K).
    { change (inject_Z (- 2000000000000001)) with (- 2000000000000001). nra. }
    rewrite <- Zlt_Qlt in A. lia.
  - pose proof (inject_Z_ge1 K ltac:(lia)). specialize (EP ltac:(lra)).
    assert (A : inject_Z K < inject_Z 2000000000000001).
    { change (inject_Z 2000000000000001) with 2000000000000001. nra. }
    rewrite <- Zlt_Qlt in A. lia.
Qed.

End Hundredths.

Section Rendering.

(** ** Decimal digits *)

Lemma digitChar_spec (d : Z) :
  (0 <= d <= 9)%Z -> isDigit (digitChar d) = true /\ digitVal (digitChar d) = d.
Proof.
  intros H.
  assert (E : (d = 0 \/ d = 1 \/ d = 2 \/ d = 3 \/ d = 4 \/ d = 5 \/ d = 6
              \/ d = 7 \/ d = 8 \/ d = 9)%Z) by lia.
  repeat (destruct E as [->|E]; [split; reflexivity|]). subst d. split; reflexivity.
Qed.

Lemma digitsK_digits (k : nat) (s : Z) : forallc isDigit (digitsK k s) = true.
Proof.
  revert s. induction k as [|k IH]; intros s; cbn [digitsK forallc]; [reflexivity|].
  rewrite IH, andb_true_r. apply digitChar_spec.
  pose proof (Z.mod_pos_bound (s / 10 ^ Z.of_nat k) 10 ltac:(lia)). lia.
Qed.

Lemma digitsK_length (k : nat) (s : Z) : String.length (digitsK k s) = k.
Proof. revert s. induction k as [|k IH]; intros s; cbn; [reflexivity|]. now rewrite IH. Qed.

Lemma digitsAcc_app (acc : Z) (a b : string) :
  digitsAcc acc (a ++ b) = digitsAcc (digitsAcc acc a) b.
Proof. revert acc. induction a as [|c a IH]; intros acc; cbn; auto. Qed.

Lemma digitsAcc_zeros (acc : Z) (j : nat) :
  digitsAcc acc (repeatc "0" j) = (acc * 10 ^ Z.of_nat j)%Z.
Proof.
  revert acc. induction j as [|j IH]; intros acc.
  - cbn. lia.
  - cbn [repeatc digitsAcc]. rewrite IH. change (digitVal "0") with 0%Z.
    rewrite Nat2Z.inj_succ, Z.pow_succ_r by lia. ring.
Qed.

Lemma digitsAcc_digitsK (acc : Z) (k : nat) (s : Z) :
  (0 <= s < 10 ^ Z.of_nat k)%Z ->
  digitsAcc acc (digitsK k s) = (acc * 10 ^ Z.of_nat k + s)%Z.
Proof.
  revert acc s. induction k as [|k IH]; intros acc s H.
  - cbn in *. lia.
  - cbn [digitsK digitsAcc].
    set (p := (10 ^ Z.of_nat k)%Z) in *.
    assert (Hp : (0 < p)%Z) by (apply Z.pow_pos_nonneg; lia).
    rewrite Nat2Z.inj_succ, Z.pow_succ_r in H by lia. fold p in H.
    assert (Hq : (0 <= s / p < 10)%Z).
    { split; [apply Z.div_pos; lia | apply Z.div_lt_upper_bound; lia]. }
    rewrite Z.mod_small by lia.
    destruct (digitChar_spec (s / p) ltac:(lia)) as [_ ->].
    rewrite IH by (apply Z.mod_pos_bound; lia).
    rewrite Nat2Z.inj_succ, Z.pow_succ_r by lia. fold p.
    pose proof (Z.div_mod s p ltac:(lia)). nia.
Qed.

Lemma digitsValue_digitsK (k : nat) (s : Z) :
  (0 <= s < 10 ^ Z.of_nat k)%Z -> digitsValue (digitsK k s) = s.
Proof. intros H. unfold digitsValue. rewrite digitsAcc_digitsK by assumption. lia. Qed.

Lemma repeatc_digits (j : nat) : forallc isDigit (repeatc "0" j) = true.
Proof. induction j; cbn; auto. Qed.

Lemma repeatc_length (c : ascii) (j : nat) : String.length (repeatc c j) = j.
Proof. induction j; cbn; auto. Qed.

Lemma takec_dropc (n : nat) (s : string) : takec n s ++ dropc n s = s.
Proof.
  revert s. induction n as [|n IH]; intros [|c s]; cbn; try reflexivity.
  now rewrite IH.
Qed.

Lemma takec_length (n : nat) (s : string) :
  n <= String.length s -> String.length (takec n s) = n.
Proof.
  revert s. induction n as [|n IH]; intros [|c s]; cbn; intros H; try lia.
  rewrite IH; lia.
Qed.

Lemma forallc_takec_dropc (p : ascii -> bool) (n : nat) (s : string) :
  forallc p s = true -> forallc p (takec n s) = true /\ forallc p (dropc n s) = true.
Proof.
  intros H. rewrite <- (takec_dropc n s), forallc_app in H.
  now apply andb_true_iff in H.
Qed.

(** ** Reading a plain decimal back *)

Lemma spanc_app (p : ascii -> bool) (x r : string) :
  forallc p x = true -> stopsAt p r = true -> spanc p (x ++ r) = (x, r).
Proof.
  intros Hx Hr. induction x as [|c x IH]; cbn [append spanc].
  - destruct r as [|c r]; cbn in *; [reflexivity|].
    apply negb_true_iff in Hr. now rewrite Hr.
  - cbn in Hx. apply andb_true_iff in Hx. destruct Hx as [Hc Hx].
    now rewrite Hc, IH.
Qed.

Lemma signPart_digit (c : ascii) (s : string) :
  isDigit c = true -> signPart (String c s) = (false, String c s).
Proof. destruct c as [[] [] [] [] [] [] [] []]; cbn; intros; congruence. Qed.

Lemma digit_not_I (c : ascii) : isDigit c = true -> Ascii.eqb "I" c = false.
Proof. destruct c as [[] [] [] [] [] [] [] []]; cbn; intros; congruence. Qed.

Lemma parseFloat_signed (neg : bool) (c : ascii) (s : string) :
  isDigit c = true ->
  parseFloat (signText neg ++ String c s)
  = let '(ip, r1) := spanc isDigit (String c s) in
    let '(fp, r2) :=
      match r1 with
      | String "." r => spanc isDigit r
      | _ => (EmptyString, r1)
      end in
    if isEmpty ip && isEmpty fp then NaN else
    let mant := digitsValue (ip ++ fp) in
    let ex := (exponentPart r2 - Z.of_nat (String.length fp))%Z in
    roundQ neg (inject_Z (if neg then - mant else mant) * pow10 ex).
Proof.
  intros Hc. unfold parseFloat.
  assert (E : signPart (trimStart (signText neg ++ String c s)) = (neg, String c s)).
  { destruct neg; cbn [signText append].
    - reflexivity.
    - cbn [trimStart]. rewrite (digit_not_space _ Hc). now apply signPart_digit. }
  rewrite E. cbn [startsWith]. rewrite (digit_not_I _ Hc). reflexivity.
Qed.

Lemma parseFloat_integer (neg : bool) (ip : string) :
  forallc isDigit ip = true -> 1 <= String.length ip ->
  parseFloat (signText neg ++ ip)
  = roundQ neg (inject_Z (if neg then - digitsValue ip else digitsValue ip) * pow10 0).
Proof.
  intros H L. destruct ip as [|c ip]; [cbn in L; lia|].
  assert (Hc : isDigit c = true) by (cbn in H; now apply andb_true_iff in H).
  rewrite parseFloat_signed by assumption.
  rewrite <- (string_app_nil_r (String c ip)) at 1.
  rewrite spanc_app by auto. cbn [isEmpty andb].
  now rewrite string_app_nil_r.
Qed.

Lemma parseFloat_fraction (neg : bool) (ip fp : string) :
  forallc isDigit ip = true -> 1 <= String.length ip ->
  forallc isDigit fp = true ->
  parseFloat (signText neg ++ ip ++ "." ++ fp)
  = roundQ neg (inject_Z (if neg then - digitsValue (ip ++ fp) else digitsValue (ip ++ fp))
                * pow10 (0 - Z.of_nat (String.length fp))).
Proof.
  intros H L Hf. destruct ip as [|c ip]; [cbn in L; lia|].
  assert (Hc : isDigit c = true) by (cbn in H; now apply andb_true_iff in H).
  cbn [append]. rewrite parseFloat_signed by assumption.
  change (String c (ip ++ String "." fp)) with (String c ip ++ String "." fp).
  rewrite spanc_app by auto.
  rewrite <- (string_app_nil_r fp) at 1.
  rewrite spanc_app by auto. cbn [isEmpty andb]. reflexivity.
Qed.

(** ** The cleaning steps of parseAmount on a plain decimal *)

Lemma plain_facts (c : ascii) :
  isPlain c = true ->
  isAmountChar c = true /\ isSpace c = false /\ isComma c = false
  /\ forall s, currencyToken (String c s) = None.
Proof.
  destruct c as [[] [] [] [] [] [] [] []]; cbn; intros; try discriminate;
    repeat split; reflexivity.
Qed.

Lemma stripCurrency_plain (s : string) :
  forallc isPlain s = true -> stripCurrency s = s.
Proof.
  unfold stripCurrency. induction s as [|c s IH]; [reflexivity|].
  cbn [forallc]. intros H. apply andb_true_iff in H. destruct H as [Hc Hs].
  cbn [stripCurrencyFrom]. destruct (plain_facts c Hc) as (_ & _ & _ & ->).
  now rewrite IH.
Qed.

Lemma filterc_id (p : ascii -> bool) (s : string) :
  forallc p s = true -> filterc p s = s.
Proof.
  induction s as [|c s IH]; cbn; [reflexivity|]. intros H.
  apply andb_true_iff in H. destruct H as [-> Hs]. now rewrite IH.
Qed.

Lemma existsc_false (p : ascii -> bool) (s : string) :
  forallc (fun c => negb (p c)) s = true -> existsc p s = false.
Proof.
  induction s as [|c s IH]; cbn; [reflexivity|]. intros H.
  apply andb_true_iff in H. destruct H as [Hc Hs].
  apply negb_true_iff in Hc. now rewrite Hc, IH.
Qed.

Lemma parseAmount_plain (t : string) :
  forallc isPlain t = true -> 1 <= String.length t ->
  parseAmount t = amountOf (parseFloat t).
Proof.
  intros H L. unfold parseAmount, amountOf.
  assert (E1 : isEmpty t = false) by (destruct t; [cbn in L; lia | reflexivity]).
  assert (Hns : forallc notSpace t = true).
  { revert H. apply forallc_impl. intros c Hc. unfold notSpace.
    destruct (plain_facts c Hc) as (_ & -> & _). reflexivity. }
  assert (E2 : trim (filterc isAmountChar (stripCurrency t)) = t).
  { rewrite stripCurrency_plain by assumption.
    rewrite filterc_id.
    - unfold trim. destruct t as [|c t]; [reflexivity|].
      rewrite trimStart_id; [now apply trimEnd_notSpace|].
      cbn in Hns |- *. now apply andb_true_iff in Hns.
    - revert H. apply forallc_impl. intros c Hc. now apply plain_facts. }
  rewrite E1, E2, E1.
  rewrite existsc_false; [reflexivity|].
  revert H. apply forallc_impl. intros c Hc.
  destruct (plain_facts c Hc) as (_ & _ & -> & _). reflexivity.
Qed.

(** ** The shortest decimal of an amount *)

Local Open Scope Q_scope.

Lemma qltb_lt (a b : Q) : qltb a b = true <-> a < b.
Proof.
  unfold qltb. rewrite negb_true_iff. split; intros H.
  - destruct (Qlt_le_dec a b) as [|C]; [assumption|].
    apply Qle_bool_iff in C. congruence.
  - destruct (Qle_bool b a) eqn:E; [|reflexivity].
    apply Qle_bool_iff in E. lra.
Qed.

Lemma isDecExp_spec (q : Q) (n : Z) :
  isDecExp q n = true <-> pow10 (n - 1) <= q /\ q < pow10 n.
Proof.
  unfold isDecExp. rewrite andb_true_iff, Qle_bool_iff, qltb_lt. reflexivity.
Qed.

Lemma decExpFrom_spec (fuel : nat) (n : Z) (q : Q) :
  pow10 (n - 1) <= q -> q < pow10 (n + Z.of_nat fuel) ->
  isDecExp q (decExpFrom fuel n q) = true.
Proof.
  revert n. induction fuel as [|fuel IH]; intros n L U; cbn [decExpFrom].
  - apply isDecExp_spec. rewrite Z.add_0_r in U. auto.
  - destruct (qltb q (pow10 n)) eqn:E.
    + apply isDecExp_spec. apply qltb_lt in E. auto.
    + apply IH.
      * replace (n + 1 - 1)%Z with n by lia.
        destruct (Qlt_le_dec q (pow10 n)) as [C|C]; [|exact C].
        apply qltb_lt in C. congruence.
      * replace (n + 1 + Z.of_nat fuel)%Z with (n + Z.of_nat (S fuel))%Z by lia.
        exact U.
Qed.

Lemma decExp_spec (q : Q) :
  pow10 (-325) <= q -> q < pow10 316 -> isDecExp q (decExp q) = true.
Proof.
  intros L U. unfold decExp.
  destruct (find _ _) as [n|] eqn:E.
  - apply find_some in E. apply E.
  - apply decExpFrom_spec; [exact L|].
    change (-324 + Z.of_nat 640)%Z with 316%Z. exact U.
Qed.

Lemma pow10_lt_inv (a b : Z) : pow10 a < pow10 b -> (a < b)%Z.
Proof.
  intros H. destruct (Z.lt_ge_cases a b) as [|G]; [assumption|].
  apply pow10_le in G. lra.
Qed.

Lemma pow10_inject (e : Z) : (0 <= e)%Z -> pow10 e = inject_Z (10 ^ e).
Proof. unfold pow10. intros H. destruct (Z.leb_spec 0 e); [reflexivity | lia]. Qed.

Lemma compare_refl_finite (s : bool) (m : positive) (e : Z) :
  eqb (S754_finite s m e) (S754_finite s m e) = true.
Proof.
  unfold eqb, compare.
  destruct (Qcompare_spec (val (S754_finite s m e)) (val (S754_finite s m e)));
    auto; lra.
Qed.

Lemma eqb_finite (z x : number) :
  eqb z x = true -> isFinite x = true -> ~ val x == 0 ->
  isFinite z = true /\ isZero z = false /\ val z == val x.
Proof.
  unfold eqb, compare. intros H F V.
  destruct x as [sx|sx| |sx mx ex]; try discriminate;
    destruct z as [sz|sz| |sz mz ez]; try discriminate;
    try (destruct sz; discriminate).
  - destruct V. reflexivity.
  - destruct V. reflexivity.
  - destruct (Qcompare_spec (val (S754_zero sz)) (val (S754_finite sx mx ex)));
      try discriminate. destruct V. now symmetry.
  - destruct (Qcompare_spec (val (S754_finite sz mz ez)) (val (S754_finite sx mx ex)));
      try discriminate. auto.
Qed.

(** What a candidate is, when there is one. *)
Lemma candidate_spec (x : number) (q : Q) (n0 : Z) (k : nat) (s : Z) :
  candidate x q n0 k = Some s ->
  denotes x s (n0 - Z.of_nat k) = true
  /\ (s = Qfloor (q / pow10 (n0 - Z.of_nat k))
      \/ s = (Qfloor (q / pow10 (n0 - Z.of_nat k)) + 1)%Z).
Proof.
  unfold candidate.
  set (g := (n0 - Z.of_nat k)%Z). set (lo := Qfloor (q / pow10 g)).
  destruct (match (q / pow10 g + q / pow10 g ?= inject_Z (lo + (lo + 1))) with
            | Eq => Z.even lo | Lt => true | Gt => false end).
  - destruct (denotes x lo g) eqn:E1; [intros [= <-]; auto|].
    destruct (denotes x (lo + 1) g) eqn:E2; [intros [= <-]; auto | discriminate].
  - destruct (denotes x (lo + 1) g) eqn:E1; [intros [= <-]; auto|].
    destruct (denotes x lo g) eqn:E2; [intros [= <-]; auto | discriminate].
Qed.

(** There is a candidate as soon as a neighbour of [q] on the grid
    denotes [x]. *)
Lemma candidate_exists (x : number) (q : Q) (n0 : Z) (k : nat) (s : Z) :
  denotes x s (n0 - Z.of_nat k) = true ->
  (s = Qfloor (q / pow10 (n0 - Z.of_nat k))
   \/ s = (Qfloor (q / pow10 (n0 - Z.of_nat k)) + 1)%Z) ->
  candidate x q n0 k <> None.
Proof.
  unfold candidate.
  set (g := (n0 - Z.of_nat k)%Z). set (lo := Qfloor (q / pow10 g)).
  intros D [->| ->];
    destruct (match (q / pow10 g + q / pow10 g ?= inject_Z (lo + (lo + 1))) with
              | Eq => Z.even lo | Lt => true | Gt => false end);
    rewrite ?D; try discriminate;
    match goal with |- context [denotes x ?a g] => destruct (denotes x a g) end;
    rewrite ?D; discriminate.
Qed.

Lemma denotes_Qeq (x : number) (s g s' g' : Z) :
  inject_Z s * pow10 g == inject_Z s' * pow10 g' ->
  denotes x s g = denotes x s' g'.
Proof. intros H. unfold denotes. now rewrite (roundQ_Qeq _ _ _ H). Qed.

(** The digits of a candidate, brought back to [k] digits when they are
    [10^k]. *)
Lemma found_spec (x : number) (q : Q) (n0 : Z) (k : nat) (s : Z) :
  pow10 (n0 - 1) <= q -> q < pow10 n0 -> (1 <= k)%nat ->
  candidate x q n0 k = Some s ->
  let '(s', n, k') :=
    if (s =? 10 ^ Z.of_nat k)%Z
    then ((10 ^ (Z.of_nat k - 1))%Z, (n0 + 1)%Z, k) else (s, n0, k) in
  denotes x s' (n - Z.of_nat k') = true
  /\ (0 <= s' < 10 ^ Z.of_nat k')%Z
  /\ k' = k
  /\ (n0 <= n <= n0 + 1)%Z.
Proof.
  intros L U Hk E. apply candidate_spec in E. destruct E as [D S].
  set (g := (n0 - Z.of_nat k)%Z) in *.
  set (t := q / pow10 g) in *.
  assert (Pg := pow10_pos g). assert (Pn := pow10_pos (n0 - 1)).
  assert (Et : q == t * pow10 g) by (unfold t; field; lra).
  assert (Ek : pow10 n0 == inject_Z (10 ^ Z.of_nat k) * pow10 g).
  { replace n0 with (Z.of_nat k + g)%Z at 1 by (unfold g; lia).
    rewrite pow10_add, pow10_inject by lia. reflexivity. }
  assert (T0 : 0 < t) by (apply Qmult_lt_r with (z := pow10 g); lra).
  assert (T1 : t < inject_Z (10 ^ Z.of_nat k)).
  { apply Qmult_lt_r with (z := pow10 g); lra. }
  pose proof (Qfloor_le t) as F1. pose proof (Qlt_floor t) as F2.
  assert (B : (0 <= Qfloor t < 10 ^ Z.of_nat k)%Z).
  { split.
    - assert (A : inject_Z (-1) < inject_Z (Qfloor t)).
      { rewrite inject_Z_plus in F2. change (inject_Z 1) with 1 in F2.
        change (inject_Z (-1)) with (-1). lra. }
      rewrite <- Zlt_Qlt in A. lia.
    - rewrite Zlt_Qlt. lra. }
  assert (P10 : (10 ^ Z.of_nat k = 10 * 10 ^ (Z.of_nat k - 1))%Z).
  { rewrite <- Z.pow_succ_r by lia. f_equal. lia. }
  assert (Pk : (0 < 10 ^ (Z.of_nat k - 1))%Z) by (apply Z.pow_pos_nonneg; lia).
  destruct (Z.eqb_spec s (10 ^ Z.of_nat k)) as [C|C].
  - repeat split; try lia.
    rewrite <- D. apply denotes_Qeq.
    replace (n0 + 1 - Z.of_nat k)%Z with (g + 1)%Z by (unfold g; lia).
    rewrite pow10_succ, C, P10, inject_Z_mult. change (inject_Z 10) with 10. ring.
  - repeat split; try lia; auto.
Qed.

(** The digits found by the search denote [x] and are not more than
    [k0] digits. *)
Lemma shortestFrom_spec (fuel : nat) (x : number) (q : Q) (n0 : Z) (k k0 : nat) :
  pow10 (n0 - 1) <= q -> q < pow10 n0 ->
  (1 <= k <= k0)%nat -> (k0 <= k + fuel)%nat ->
  candidate x q n0 k0 <> None ->
  let '(s, n, k') := shortestFrom fuel x q n0 k in
  denotes x s (n - Z.of_nat k') = true
  /\ (0 <= s < 10 ^ Z.of_nat k')%Z
  /\ (1 <= k' <= k0)%nat
  /\ (n0 <= n <= n0 + 1)%Z.
Proof.
  intros L U. revert k. induction fuel as [|fuel IH]; intros k Hk Hf C;
    cbn [shortestFrom].
  - assert (k0 = k) as -> by lia.
    destruct (candidate x q n0 k) as [s|] eqn:E; [|contradiction].
    pose proof (found_spec x q n0 k s L U ltac:(lia) E) as F.
    destruct (if (s =? 10 ^ Z.of_nat k)%Z then _ else _) as [[s' n] k'].
    destruct F as (? & ? & -> & ?). repeat split; auto; lia.
  - destruct (candidate x q n0 k) as [s|] eqn:E.
    + pose proof (found_spec x q n0 k s L U ltac:(lia) E) as F.
      destruct (if (s =? 10 ^ Z.of_nat k)%Z then _ else _) as [[s' n] k'].
      destruct F as (? & ? & -> & ?). repeat split; auto; lia.
    + assert (k <> k0) by (intros ->; contradiction).
      specialize (IH (S k) ltac:(lia) ltac:(lia) C).
      destruct (shortestFrom fuel x q n0 (S k)) as [[s' n] k'].
      destruct IH as (? & ? & ? & ?). repeat split; auto; lia.
Qed.

Local Close Scope Q_scope.
Local Open Scope string_scope.

Lemma digits_plain (s : string) : forallc isDigit s = true -> forallc isPlain s = true.
Proof.
  apply forallc_impl. intros c H. unfold isPlain. now rewrite H.
Qed.

Lemma dropc_length (n : nat) (s : string) :
  String.length (dropc n s) = String.length s - n.
Proof.
  revert s. induction n as [|n IH]; intros [|c s]; cbn; auto.
Qed.

(** The plain notations of Number::toString are read back as the decimal
    they write. *)
Lemma formatPositive_parse (s n : Z) (k : nat) (neg : bool) :
  (0 <= s < 10 ^ Z.of_nat k)%Z -> (1 <= k)%nat -> (-6 < n <= 21)%Z ->
  let p := formatPositive (s, n, k) in
  forallc isPlain p = true /\ 1 <= String.length p
  /\ exists mant ex : Z,
       parseFloat (signText neg ++ p)
       = roundQ neg (inject_Z (if neg then - mant else mant) * pow10 ex)
       /\ (inject_Z mant * pow10 ex == inject_Z s * pow10 (n - Z.of_nat k))%Q.
Proof.
  intros Hs Hk Hn. cbn zeta. unfold formatPositive.
  pose proof (digitsK_digits k s) as Dd. pose proof (digitsK_length k s) as Dl.
  set (ds := digitsK k s) in *.
  destruct (Z.leb_spec (Z.of_nat k) n) as [C1|C1];
    [destruct (Z.leb_spec n 21) as [C2|C2]; [|lia]|]; cbn [andb].
  - (* an integer: the digits, then zeros *)
    set (j := Z.to_nat (n - Z.of_nat k)).
    assert (Dp : forallc isDigit (ds ++ repeatc "0" j) = true)
      by now rewrite forallc_app, Dd, repeatc_digits.
    assert (Lp : 1 <= String.length (ds ++ repeatc "0" j))
      by (rewrite string_length_app, Dl; lia).
    split; [now apply digits_plain|]. split; [exact Lp|].
    exists (digitsValue (ds ++ repeatc "0" j)), 0%Z.
    split; [now apply parseFloat_integer|].
    unfold digitsValue. rewrite digitsAcc_app, digitsAcc_zeros.
    unfold ds. rewrite digitsAcc_digitsK by assumption.
    unfold j. rewrite Z2Nat.id by lia.
    rewrite (pow10_inject (n - Z.of_nat k)) by lia.
    rewrite Z.mul_0_l, Z.add_0_l, inject_Z_mult. change (pow10 0) with 1%Q.
    ring.
  - destruct (Z.ltb_spec 0 n) as [C3|C3];
      [destruct (Z.leb_spec n 21) as [C2|C2]; [|lia]|]; cbn [andb].
    + (* the point inside the digits *)
      unfold insertDot. set (j := Z.to_nat n).
      assert (Hj : 1 <= j < k) by (unfold j; lia).
      destruct (forallc_takec_dropc isDigit j ds Dd) as [Dt Dr].
      assert (Lt : String.length (takec j ds) = j) by (apply takec_length; lia).
      split; [|split].
      * rewrite !forallc_app. cbn [forallc].
        now rewrite (digits_plain _ Dt), (digits_plain _ Dr).
      * rewrite string_length_app, Lt. lia.
      * exists (digitsValue (takec j ds ++ dropc j ds)),
               (0 - Z.of_nat (String.length (dropc j ds)))%Z.
        split; [apply parseFloat_fraction; auto; lia|].
        rewrite takec_dropc, dropc_length, Dl. unfold ds.
        rewrite digitsValue_digitsK by assumption.
        replace (0 - Z.of_nat (k - j))%Z with (n - Z.of_nat k)%Z by (unfold j; lia).
        reflexivity.
    + (* zero, the point, zeros and the digits *)
      destruct (Z.ltb_spec (-6) n) as [C4|C4]; [|lia].
      destruct (Z.leb_spec n 0) as [C5|C5]; [|lia]. cbn [andb].
      set (j := Z.to_nat (- n)).
      assert (Df : forallc isDigit (repeatc "0" j ++ ds) = true)
        by now rewrite forallc_app, Dd, repeatc_digits.
      split; [|split].
      * change ("0." ++ repeatc "0" j ++ ds)
          with (String "0" (String "." (repeatc "0" j ++ ds))).
        cbn [forallc]. now rewrite (digits_plain _ Df).
      * cbn. lia.
      * exists (digitsValue ("0" ++ repeatc "0" j ++ ds)),
               (0 - Z.of_nat (String.length (repeatc "0" j ++ ds)))%Z.
        split.
        { change ("0." ++ repeatc "0" j ++ ds)
            with ("0" ++ "." ++ (repeatc "0" j ++ ds)).
          apply parseFloat_fraction; auto. }
        unfold digitsValue. rewrite !digitsAcc_app, digitsAcc_zeros.
        unfold ds at 1. rewrite digitsAcc_digitsK by assumption.
        rewrite string_length_app, repeatc_length, Dl.
        replace (0 - Z.of_nat (j + k))%Z with (n - Z.of_nat k)%Z by (unfold j; lia).
        change (digitsAcc 0 "0") with 0%Z.
        rewrite !Z.mul_0_l, Z.add_0_l. reflexivity.
Qed.

(** ** Negation *)

Lemma opp_build (sg : bool) (me : Z * Z) : opp (build sg me) = build (negb sg) me.
Proof.
  destruct me as [m e]. unfold build. destruct m; try reflexivity.
  destruct (e <=? emax - prec)%Z; reflexivity.
Qed.

Lemma roundQ_opp (s : bool) (q : Q) : roundQ s (- q) = opp (roundQ (negb s) q).
Proof.
  unfold roundQ. rewrite Qred_opp. destruct (Qred q) as [n d].
  destruct n; cbn [Qopp Qnum Qden Z.opp opp]; rewrite ?opp_build, ?negb_involutive;
    reflexivity.
Qed.

Lemma val_opp (x : number) : (val (opp x) == - val x)%Q.
Proof.
  destruct x as [s|s| |s m e]; try reflexivity.
  change (opp (S754_finite s m e)) with (S754_finite (negb s) m e).
  rewrite !val_finite. destruct s; cbn [negb signed]; ring.
Qed.

Lemma hundredths_opp (K : Z) : (- K # 100 == - (K # 100))%Q.
Proof. reflexivity. Qed.

(** The magnitude of the amount nearest to [K / 100] is the amount nearest
    to [|K| / 100]. *)
Lemma abs_hundredths (s : bool) (K : Z) :
  K <> 0%Z -> isFinite (roundQ s (K # 100)) = true ->
  abs (roundQ s (K # 100)) = roundQ false (Z.abs K # 100).
Proof.
  intros K0 F.
  destruct (hundredths_error s K K0 F) as (m & e & R & _).
  destruct (Z.ltb_spec K 0) as [C|C].
  - rewrite Z.abs_neq by lia.
    rewrite (roundQ_Qeq false _ _ (hundredths_opp K)), roundQ_opp. cbn [negb].
    rewrite (roundQ_sign_irrelevant true s), R; [reflexivity|].
    rewrite (hundredths_mul K). pose proof (inject_Z_le_m1 K ltac:(lia)).
    intros E. lra.
  - rewrite Z.abs_eq by lia. rewrite R.
    rewrite (roundQ_sign_irrelevant false s), R; [reflexivity|].
    rewrite (hundredths_mul K). pose proof (inject_Z_ge1 K ltac:(lia)).
    intros E. lra.
Qed.

Lemma opp_finite (w : number) :
  isFinite w = true -> isZero w = false ->
  isFinite (opp w) = true /\ isZero (opp w) = false.
Proof. destruct w; cbn; auto. Qed.

Local Open Scope Q_scope.

(** ** The rendering of an amount is read back as the amount *)

Lemma toString_roundtrip (s : bool) (K : Z) :
  K <> 0%Z -> (Z.abs K <= 100 * amountBound)%Z ->
  isFinite (roundQ s (K # 100)) = true ->
  let r := roundQ s (K # 100) in
  let t := toString r in
  parseAmount t = amountOf (parseFloat t)
  /\ isFinite (parseFloat t) = true /\ isZero (parseFloat t) = false
  /\ val (parseFloat t) == val r.
Proof.
  intros K0 KB F r t.
  destruct (hundredths_error s K K0 F) as (m & e & R & M & _). fold r in R.
  set (K1 := Z.abs K) in *.
  assert (K1pos : (1 <= K1)%Z) by (unfold K1; lia).
  set (x0 := S754_finite false m e).
  assert (Ex0 : x0 = roundQ false (K1 # 100)).
  { unfold K1. rewrite <- (abs_hundredths s K K0 F). fold r. now rewrite R. }
  assert (F0 : isFinite (roundQ false (K1 # 100)) = true) by now rewrite <- Ex0.
  destruct (hundredths_error false K1 ltac:(lia) F0) as (_ & _ & _ & _ & Err).
  rewrite <- Ex0 in Err. apply rel_error_bounds in Err. destruct Err as [EP _].
  pose proof (inject_Z_ge1 K1 K1pos) as G1.
  specialize (EP ltac:(lra)).
  set (qx := val x0) in *.
  pose proof eps_val as Ev.
  assert (KQ : inject_Z K1 <= inject_Z (100 * amountBound)) by now rewrite <- Zle_Qle.
  change (inject_Z (100 * amountBound)) with 2000000000000000 in KQ.
  assert (Lq : 1 # 100 <= qx).
  { destruct (Z.eq_dec K1 1) as [E1|E1].
    - unfold qx. rewrite Ex0, E1. vm_compute. discriminate.
    - pose proof (inject_Z_ge1 (K1 - 1) ltac:(lia)) as G2.
      replace (K1 - 1)%Z with (K1 + -1)%Z in G2 by lia.
      rewrite inject_Z_plus in G2. change (inject_Z (-1)) with (-1) in G2. nra. }
  assert (Uq : qx < 100000000000000) by nra.
  (* the decimal exponent *)
  assert (D : isDecExp qx (decExp qx) = true).
  { apply decExp_spec.
    - apply Qle_trans with (1 # 100); [|exact Lq].
      change (1 # 100) with (pow10 (-2)). apply pow10_le. lia.
    - apply Qlt_le_trans with (pow10 14); [exact Uq|]. apply pow10_le. lia. }
  apply isDecExp_spec in D. set (n0 := decExp qx) in *. destruct D as [L0 U0].
  assert (N0 : (-1 <= n0 <= 14)%Z).
  { split.
    - assert (pow10 (-2) < pow10 n0) by (change (pow10 (-2)) with (1 # 100); lra).
      apply pow10_lt_inv in H. lia.
    - assert (pow10 (n0 - 1) < pow10 14)
        by (change (pow10 14) with 100000000000000; lra).
      apply pow10_lt_inv in H. lia. }
  (* the hundredths are a candidate *)
  set (k0 := Z.to_nat (n0 + 2)).
  assert (G0 : (n0 - Z.of_nat k0 = -2)%Z) by (unfold k0; lia).
  assert (C : candidate x0 qx n0 k0 <> None).
  { apply (candidate_exists x0 qx n0 k0 K1); rewrite G0.
    - unfold denotes.
      rewrite (roundQ_Qeq false (inject_Z K1 * pow10 (-2)) (K1 # 100)),
        <- Ex0 by (rewrite (hundredths_mul K1); reflexivity).
      apply compare_refl_finite.
    - assert (Et : qx / pow10 (-2) == qx * 100) by (change (pow10 (-2)) with (1 # 100); field).
      destruct (Qlt_le_dec (qx / pow10 (-2)) (inject_Z K1)) as [Lt|Ge].
      + right. rewrite (Qfloor_unique (qx / pow10 (-2)) (K1 - 1)); [lia| |].
        * replace (K1 - 1)%Z with (K1 + -1)%Z by lia. rewrite inject_Z_plus.
          change (inject_Z (-1)) with (-1). nra.
        * replace (K1 - 1)%Z with (K1 + -1)%Z by lia. rewrite inject_Z_plus.
          change (inject_Z (-1)) with (-1). lra.
      + left. symmetry. apply Qfloor_unique; [exact Ge | nra]. }
  pose proof (shortestFrom_spec 16 x0 qx n0 1 k0 L0 U0
                ltac:(unfold k0; lia) ltac:(unfold k0; lia) C) as S.
  assert (Et : t = signText (K <? 0)%Z ++ formatPositive (shortestFrom 16 x0 qx n0 1)).
  { unfold t. rewrite R. reflexivity. }
  destruct (shortestFrom 16 x0 qx n0 1) as [[s' n] k'].
  destruct S as (Dn & Bs & Bk & Bn).
  destruct (formatPositive_parse s' n k' (K <? 0)%Z Bs ltac:(lia) ltac:(lia))
    as (Pp & Lp & mant & ex & Pf & Pv).
  rewrite <- Et in Pf.
  assert (Vx : ~ val x0 == 0) by (fold qx; lra).
  unfold denotes in Dn.
  destruct (eqb_finite _ x0 Dn eq_refl Vx) as (Fw & Zw & Vw).
  split; [|clear Pp Lp].
  { apply parseAmount_plain.
    - rewrite Et, forallc_app, Pp. destruct (K <? 0)%Z; reflexivity.
    - rewrite Et, string_length_app. lia. }
  rewrite Pf, R.
  destruct (K <? 0)%Z.
  - assert (Eq : inject_Z (- mant) * pow10 ex
                 == - (inject_Z s' * pow10 (n - Z.of_nat k'))).
    { rewrite inject_Z_opp, <- Pv. ring. }
    rewrite (roundQ_Qeq true _ _ Eq), roundQ_opp. cbn [negb].
    destruct (opp_finite _ Fw Zw) as [Fo Zo].
    repeat split; auto.
    rewrite val_opp, Vw. unfold x0. rewrite !val_finite. cbn [signed]. ring.
  - rewrite (roundQ_Qeq false _ _ Pv). repeat split; auto.
Qed.

(** ** Idempotence on amounts of bounded magnitude *)

Lemma eqb_refl_amount (r : number) :
  isNaN r = false -> eqb r r = true.
Proof.
  destruct r as [s|s| |s m e]; try discriminate; intros _.
  - reflexivity.
  - destruct s; reflexivity.
  - apply compare_refl_finite.
Qed.

(** C6, amended. For every input string whose normalised amount has a
    magnitude of at most 20,000,000,000,000, normalising the decimal
    rendering of the amount gives the amount again:
    [parseAmount(String(parseAmount(x))) === parseAmount(x)]. *)
Theorem C6_idempotent_bounded (x : string) :
  leb (abs (parseAmount x)) (ofZ amountBound) = true ->
  eqb (parseAmount (toString (parseAmount x))) (parseAmount x) = true.
Proof.
  intros B.
  destruct (parseAmount_outcomes x) as [[s E]|[[s E]|(K & s & K0 & E)]];
    rewrite E in *.
  - destruct s; reflexivity.
  - destruct s; discriminate B.
  - destruct (hundredths_bound s K K0 B) as [KB F].
    destruct (toString_roundtrip s K K0 KB F) as (P & Fz & Zz & Vz).
    rewrite P.
    rewrite (amountOf_fixpoint s K _ K0 ltac:(unfold amountBound in KB; lia) Fz Zz Vz).
    apply eqb_refl_amount. apply roundQ_not_nan.
Qed.

Local Close Scope Q_scope.

Lemma C6_idempotent_bounded_witness :
  leb (abs (parseAmount "ETB 1,234.56")) (ofZ amountBound) = true
  /\ toString (parseAmount "ETB 1,234.56") = "1234.56"
  /\ eqb (parseAmount (toString (parseAmount "ETB 1,234.56")))
         (parseAmount "ETB 1,234.56") = true.
Proof.
  split; [vm_compute; reflexivity|]. split; [vm_compute; reflexivity|].
  apply C6_idempotent_bounded. vm_compute. reflexivity.
Defined.

(** C6 as stated fails: ["43772294210269.625"] is normalised to
    43772294210269.63, whose rendering is normalised to 43772294210269.64,
    because the product by 100 is no longer exact at this magnitude. *)
Lemma C6_counterexample :
  toString (parseAmount "43772294210269.625") = "43772294210269.63"
  /\ toString (parseAmount "43772294210269.63") = "43772294210269.64"
  /\ eqb (parseAmount (toString (parseAmount "43772294210269.625")))
         (parseAmount "43772294210269.625") = false.
Proof. repeat split; vm_compute; reflexivity. Qed.

(** From [10^21] on the rendering uses the exponent notation, of which the
    cleaning step keeps the digits only: [1e+22] is read as 122. *)
Lemma exponent_rendering_not_read_back :
  toString (parseAmount "10000000000000000000000") = "1e+22"
  /\ parseAmount "1e+22" = ofZ 122.
Proof. split; vm_compute; reflexivity. Qed.

End Rendering.

(* ================================================================== *)
(** * Further properties of the code *)
(* ================================================================== *)

(** ** White space: trimming *)

Lemma trimStart_stops (s : string) : stopsAt isSpace (trimStart s) = true.
Proof.
  induction s as [|c s IH]; cbn; [reflexivity|].
  destruct (isSpace c) eqn:E; [exact IH|]. cbn. now rewrite E.
Qed.

Lemma trimStart_stopsAt (s : string) : stopsAt isSpace s = true -> trimStart s = s.
Proof.
  destruct s as [|c s]; cbn; [reflexivity|].
  intros H. apply negb_true_iff in H. now rewrite H.
Qed.

Lemma trimEnd_idem (s : string) : trimEnd (trimEnd s) = trimEnd s.
Proof.
  induction s as [|c s IH]; cbn [trimEnd]; [reflexivity|].
  destruct (isSpace c && isEmpty (trimEnd s)) eqn:E; [reflexivity|].
  cbn [trimEnd]. now rewrite IH, E.
Qed.

Lemma trimEnd_stops (s : string) :
  stopsAt isSpace s = true -> stopsAt isSpace (trimEnd s) = true.
Proof.
  destruct s as [|c s]; cbn [trimEnd stopsAt]; [reflexivity|].
  intros H. apply negb_true_iff in H. rewrite H. cbn. now rewrite H.
Qed.

Lemma trim_idem (s : string) : trim (trim s) = trim s.
Proof.
  unfold trim.
  rewrite (trimStart_stopsAt (trimEnd (trimStart s))).
  - apply trimEnd_idem.
  - apply trimEnd_stops, trimStart_stops.
Qed.

Lemma trim_stops (s : string) : stopsAt isSpace (trim s) = true.
Proof. apply trimEnd_stops, trimStart_stops. Qed.

Lemma trimEnd_trim (s : string) : trimEnd (trim s) = trim s.
Proof. apply trimEnd_idem. Qed.

(** A string of white space trims to nothing. *)
Lemma trimStart_spaces (s : string) : forallc isSpace s = true -> trimStart s = "".
Proof.
  induction s as [|c s IH]; cbn; [reflexivity|].
  intros H. apply andb_true_iff in H. destruct H as [-> H]. auto.
Qed.

Lemma trim_spaces (s : string) : forallc isSpace s = true -> trim s = "".
Proof. intros H. unfold trim. now rewrite trimStart_spaces. Qed.

(** ** White space: collapsing *)

Lemma tidy_collapse (b : bool) (s : string) : tidyFrom b (collapseFrom b s) = true.
Proof.
  revert b. induction s as [|c s IH]; intros b; cbn [collapseFrom]; [reflexivity|].
  destruct (isSpace c) eqn:E.
  - destruct b; [apply IH|]. cbn. apply IH.
  - cbn [tidyFrom]. rewrite E. apply IH.
Qed.

Lemma tidy_weaken (s : string) : tidyFrom true s = true -> tidyFrom false s = true.
Proof.
  destruct s as [|c s]; cbn; [reflexivity|].
  destruct (isSpace c); [discriminate | auto].
Qed.

Lemma tidy_any (b : bool) (s : string) : tidyFrom b s = true -> tidyFrom false s = true.
Proof. destruct b; [apply tidy_weaken | auto]. Qed.

Lemma collapse_tidy (b : bool) (s : string) :
  tidyFrom b s = true -> collapseFrom b s = s.
Proof.
  revert b. induction s as [|c s IH]; intros b; cbn; [reflexivity|].
  destruct (isSpace c) eqn:E.
  - intros H. apply andb_true_iff in H. destruct H as [H H3].
    apply andb_true_iff in H. destruct H as [H1 H2].
    apply negb_true_iff in H1. subst b.
    apply Ascii.eqb_eq in H2. subst c. now rewrite IH.
  - intros H. now rewrite IH.
Qed.

Lemma collapseSpaces_idem (s : string) :
  collapseSpaces (collapseSpaces s) = collapseSpaces s.
Proof. apply collapse_tidy, tidy_collapse. Qed.

Lemma tidy_trimStart (b : bool) (s : string) :
  tidyFrom b s = true -> tidyFrom true (trimStart s) = true.
Proof.
  revert b. induction s as [|c s IH]; intros b; cbn [trimStart tidyFrom]; [reflexivity|].
  destruct (isSpace c) eqn:E.
  - intros H. apply andb_true_iff in H. destruct H as [_ H]. eauto.
  - intros H. cbn. now rewrite E.
Qed.

Lemma tidy_trimEnd (b : bool) (s : string) :
  tidyFrom b s = true -> tidyFrom b (trimEnd s) = true.
Proof.
  revert b. induction s as [|c s IH]; intros b; cbn [trimEnd tidyFrom]; [reflexivity|].
  destruct (isSpace c) eqn:E; cbn [andb].
  - intros H. apply andb_true_iff in H. destruct H as [H1 H2].
    destruct (isEmpty (trimEnd s)); [reflexivity|].
    cbn. rewrite E, H1. cbn. eauto.
  - intros H. cbn. rewrite E. eauto.
Qed.

Lemma tidy_trim (b : bool) (s : string) :
  tidyFrom b s = true -> tidyFrom true (trim s) = true.
Proof. intros H. apply tidy_trimEnd. eapply tidy_trimStart; eauto. Qed.

(** Trimming a single-spaced string leaves it single-spaced. *)
Lemma collapse_trim_collapse (t : string) :
  collapseSpaces (trim (collapseSpaces t)) = trim (collapseSpaces t).
Proof.
  apply collapse_tidy, tidy_weaken. eapply tidy_trim. apply tidy_collapse.
Qed.

Lemma trimEnd_nonempty_collapse (b : bool) (s : string) :
  trimEnd s = s -> isEmpty s = false -> isEmpty (collapseFrom b s) = false.
Proof.
  revert b. induction s as [|c s IH]; intros b; [discriminate|].
  cbn [trimEnd collapseFrom]. intros H _.
  destruct (isSpace c) eqn:E; [|reflexivity].
  destruct b; [|reflexivity].
  cbn [andb] in H.
  destruct (isEmpty (trimEnd s)) eqn:E2; [discriminate|].
  injection H as H. apply IH; [exact H|]. now rewrite <- H.
Qed.

Lemma trimEnd_collapse (b : bool) (s : string) :
  trimEnd s = s -> trimEnd (collapseFrom b s) = collapseFrom b s.
Proof.
  revert b. induction s as [|c s IH]; intros b; [reflexivity|].
  cbn [trimEnd collapseFrom]. intros H.
  destruct (isSpace c) eqn:E; cbn [andb] in H.
  - destruct (isEmpty (trimEnd s)) eqn:E2; [discriminate|].
    injection H as H. rewrite H in E2.
    destruct b; [auto|].
    cbn [trimEnd]. rewrite (IH true H).
    rewrite (trimEnd_nonempty_collapse true s H E2). now rewrite andb_false_r.
  - injection H as H. cbn [trimEnd]. rewrite E. cbn [andb]. now rewrite IH.
Qed.

Lemma collapse_stops (s : string) :
  stopsAt isSpace s = true -> stopsAt isSpace (collapseFrom false s) = true.
Proof.
  destruct s as [|c s]; cbn; [reflexivity|].
  intros H. apply negb_true_iff in H. rewrite H. cbn. now rewrite H.
Qed.

Lemma trim_collapse_trim (s : string) :
  trim (collapseSpaces (trim s)) = collapseSpaces (trim s).
Proof.
  unfold trim at 1, collapseSpaces.
  rewrite trimStart_stopsAt by (apply collapse_stops, trim_stops).
  apply trimEnd_collapse, trimEnd_trim.
Qed.

(** Normalising twice is normalising once. *)
Lemma normalize_idem (s : string) : normalize (normalize s) = normalize s.
Proof.
  unfold normalize. rewrite trim_collapse_trim. apply collapseSpaces_idem.
Qed.

(** ** The date normaliser on its own output *)

Lemma padStart_full (m : string) : String.length m = 2 -> padStart 2 "0" m = m.
Proof. intros L. unfold padStart. now rewrite L. Qed.

Lemma iso_normalize (y m d : string) :
  forallc isDigit y = true -> forallc isDigit m = true -> forallc isDigit d = true ->
  normalize (y ++ "-" ++ m ++ "-" ++ d) = y ++ "-" ++ m ++ "-" ++ d.
Proof.
  intros Hy Hm Hd. apply normalize_notSpace.
  now apply (ymd_notSpace y m d "-" "-").
Qed.

Lemma iso_not_empty (y m d : string) : isEmpty (y ++ "-" ++ m ++ "-" ++ d) = false.
Proof. destruct y; reflexivity. Qed.

(** A date in the canonical form is left as it is. *)
Lemma parseDateFlexible_iso (y m d : string) :
  forallc isDigit y = true -> String.length y = 4 ->
  twoDigits m -> twoDigits d ->
  parseDateFlexible (y ++ "-" ++ m ++ "-" ++ d) = y ++ "-" ++ m ++ "-" ++ d.
Proof.
  intros Hy Ly [Lm Hm] [Ld Hd]. unfold parseDateFlexible.
  rewrite iso_not_empty. fold (normalize (y ++ "-" ++ m ++ "-" ++ d)).
  rewrite iso_normalize by assumption.
  change (y ++ "-" ++ m ++ "-" ++ d) with (y ++ String "-" (m ++ String "-" d)) at 1.
  rewrite ymdRe_matches; auto; try lia.
  now rewrite !padStart_full.
Qed.

(** With a year of three digits the canonical form matches none of the
    three patterns, and is left as it is as well. *)
Lemma parseDateFlexible_iso3 (y m d : string) :
  forallc isDigit y = true -> String.length y = 3 ->
  twoDigits m -> twoDigits d ->
  parseDateFlexible (y ++ "-" ++ m ++ "-" ++ d) = y ++ "-" ++ m ++ "-" ++ d.
Proof.
  intros Hy Ly [Lm Hm] [Ld Hd]. unfold parseDateFlexible.
  rewrite iso_not_empty. fold (normalize (y ++ "-" ++ m ++ "-" ++ d)).
  rewrite iso_normalize by assumption.
  assert (E1 : exec ymdRe (y ++ "-" ++ m ++ "-" ++ d) = None).
  { change (y ++ "-" ++ m ++ "-" ++ d) with (y ++ String "-" (m ++ String "-" d)).
    apply ymdRe_short; auto. lia. }
  rewrite E1.
  destruct y as [|y1 [|y2 [|y3 [|]]]]; try discriminate Ly.
  cbn in Hy. apply andb_true_iff in Hy. destruct Hy as [D1 Hy].
  apply andb_true_iff in Hy. destruct Hy as [D2 Hy].
  apply andb_true_iff in Hy. destruct Hy as [D3 _].
  assert (E2 : exec dmyRe (String y1 (String y2 (String y3 "")) ++ "-" ++ m ++ "-" ++ d) = None).
  { apply exec_None. cbn [append]. unfold dmyRe, bind at 1, rep. cbn [repc].
    rewrite D1, D2, andb_false_r. cbn [andb canMore less pred Nat.eqb map app flat_map].
    unfold bind at 1. rewrite chr_nil by (now apply digit_not_sep).
    cbn [flat_map app].
    unfold bind at 1. rewrite chr_nil by (now apply digit_not_sep).
    reflexivity. }
  assert (E3 : exec longRe (String y1 (String y2 (String y3 "")) ++ "-" ++ m ++ "-" ++ d) = None).
  { apply exec_None. cbn [append]. unfold longRe, bind at 1, rep. cbn [repc].
    rewrite D1, D2, andb_false_r. cbn [andb canMore less pred Nat.eqb map app flat_map].
    unfold bind at 1. cbn [repc]. rewrite (digit_not_space _ D3).
    cbn [andb Nat.eqb flat_map app].
    unfold bind at 1. cbn [repc]. rewrite (digit_not_space _ D2).
    reflexivity. }
  now rewrite E2, E3.
Qed.

(** X1. The date normaliser is idempotent: for every string, normalising
    the result again gives the same result.  (A recognised date comes out as
    [Y-MM-DD], which is read as it is; any other text comes out trimmed with
    its white space collapsed, which that cleaning leaves alone.) *)
Theorem parseDateFlexible_idempotent (s : string) :
  parseDateFlexible (parseDateFlexible s) = parseDateFlexible s.
Proof.
  unfold parseDateFlexible at 2 3.
  destruct (isEmpty s) eqn:Es; [reflexivity|]. fold (normalize s).
  destruct (exec ymdRe (normalize s)) as [[[y m] d]|] eqn:Eymd.
  { apply ymdRe_inv in Eymd.
    destruct Eymd as (c1 & c2 & _ & _ & _ & Hy & Ly & Hm & Lm & Hd & Ld).
    apply parseDateFlexible_iso; auto using padStart_twoDigits. }
  destruct (exec dmyRe (normalize s)) as [[[d m] y]|] eqn:Edmy.
  { apply dmyRe_inv in Edmy.
    destruct Edmy as (c1 & c2 & _ & _ & _ & Hy & Ly & Hm & Lm & Hd & Ld).
    apply parseDateFlexible_iso; auto using padStart_twoDigits. }
  destruct (exec longRe (normalize s)) as [[[d w] yRaw]|] eqn:Elong.
  { apply longRe_inv in Elong.
    destruct Elong as (ws1 & ws2 & _ & _ & _ & _ & _ & Hd & Ld & Hw & Lw & Hy & Ly).
    pose proof (monthNumbers_twoDigits _ (monthNameToNumber_range w)) as Hmn.
    pose proof (padStart_twoDigits d Hd Ld) as Hdd.
    destruct (Nat.eqb_spec (String.length yRaw) 2) as [L2|L2].
    - apply parseDateFlexible_iso; auto. cbn. now rewrite L2.
    - destruct (Nat.eq_dec (String.length yRaw) 4) as [L4|L4].
      + apply parseDateFlexible_iso; auto.
      + apply parseDateFlexible_iso3; auto. lia. }
  unfold parseDateFlexible.
  destruct (isEmpty (normalize s)) eqn:En.
  { destruct (normalize s); [reflexivity | discriminate]. }
  fold (normalize (normalize s)). rewrite normalize_idem.
  now rewrite Eymd, Edmy, Elong.
Qed.

(** ** Dates: what is returned *)

(** X2. Numeric dates. For [y] of four digits, [m] and [d] of one or two
    digits and any two separators among [-] and [/] (they need not be the
    same), the year-first [y c1 m c2 d] and the day-first [d c1 m c2 y] both
    give [y-mm-dd], month and day zero-padded: when the year comes last the
    first number is always taken as the day. *)
Theorem parseDateFlexible_numeric (y m d : string) (c1 c2 : ascii) :
  forallc isDigit y = true -> String.length y = 4 ->
  forallc isDigit m = true -> 1 <= String.length m <= 2 ->
  forallc isDigit d = true -> 1 <= String.length d <= 2 ->
  isDateSep c1 = true -> isDateSep c2 = true ->
  parseDateFlexible (y ++ String c1 (m ++ String c2 d))
  = y ++ "-" ++ padStart 2 "0" m ++ "-" ++ padStart 2 "0" d
  /\ parseDateFlexible (d ++ String c1 (m ++ String c2 y))
     = y ++ "-" ++ padStart 2 "0" m ++ "-" ++ padStart 2 "0" d.
Proof.
  intros Hy Ly Hm Lm Hd Ld S1 S2. split.
  - unfold parseDateFlexible.
    assert (E : isEmpty (y ++ String c1 (m ++ String c2 d)) = false)
      by (destruct y; reflexivity).
    rewrite E. fold (normalize (y ++ String c1 (m ++ String c2 d))).
    rewrite normalize_notSpace by (now apply ymd_notSpace).
    now rewrite ymdRe_matches.
  - unfold parseDateFlexible.
    assert (E : isEmpty (d ++ String c1 (m ++ String c2 y)) = false)
      by (destruct d; reflexivity).
    rewrite E. fold (normalize (d ++ String c1 (m ++ String c2 y))).
    rewrite normalize_notSpace by (now apply ymd_notSpace).
    rewrite ymdRe_short by (auto; lia).
    now rewrite dmyRe_matches.
Qed.

Lemma parseDateFlexible_numeric_witness :
  parseDateFlexible "2024/3-7" = "2024-03-07"
  /\ parseDateFlexible "7-3/2024" = "2024-03-07".
Proof.
  apply (parseDateFlexible_numeric "2024" "3" "7" "/" "-");
    try reflexivity; cbn; lia.
Defined.

(** X3. A year of two digits after a month name is completed with [20]:
    [D Mon YY], with any white space between the three parts, gives
    [20YY-MM-DD], where [MM] is what [monthNameToNumber] returns for the
    word and [DD] is [D] zero-padded. *)
Theorem parseDateFlexible_two_digit_year (d ws1 w ws2 y : string) :
  forallc isDigit d = true -> 1 <= String.length d <= 2 ->
  forallc isSpace ws1 = true -> 1 <= String.length ws1 ->
  forallc isAlpha w = true -> 3 <= String.length w ->
  forallc isSpace ws2 = true -> 1 <= String.length ws2 ->
  forallc isDigit y = true -> String.length y = 2 ->
  parseDateFlexible (d ++ ws1 ++ w ++ ws2 ++ y)
  = "20" ++ y ++ "-" ++ monthNameToNumber w ++ "-" ++ padStart 2 "0" d.
Proof.
  intros Hd Ld H1 L1 Hw Lw H2 L2 Hy Ly.
  assert (Hl : exec longRe (d ++ ws1 ++ w ++ ws2 ++ y) = Some (d, w, y))
    by (apply longRe_matches; auto; lia).
  destruct (normalize_longRe _ _ _ _ Hl) as (_ & E1 & E2 & E3).
  unfold parseDateFlexible. fold (normalize (d ++ ws1 ++ w ++ ws2 ++ y)).
  rewrite E1, E2, E3, Ly.
  destruct d as [|c d]; [cbn in Ld; lia|]. reflexivity.
Qed.

Lemma parseDateFlexible_two_digit_year_witness :
  parseDateFlexible "5  Mar 98" = "2098-03-05".
Proof.
  apply (parseDateFlexible_two_digit_year "5" "  " "Mar" " " "98");
    try reflexivity; cbn; lia.
Defined.

(** X4. Month names are recognised by prefix and without regard to letter
    case: when the name in lower case starts with a key of the month table,
    the number of that key is returned, whatever follows the key. *)
Theorem monthNameToNumber_names (k v name rest : string) :
  In (k, v) monthMap -> toLowerCase name = k ++ rest ->
  monthNameToNumber name = v.
Proof.
  intros Hin E. unfold monthNameToNumber. rewrite E. clear E. cbn in Hin.
  repeat (destruct Hin as [[= <- <-]|Hin]; [destruct rest; reflexivity|]). destruct Hin.
Qed.

Lemma monthNameToNumber_names_witness :
  monthNameToNumber "SEPTEMBRE" = "09".
Proof.
  apply (monthNameToNumber_names "sept" "09" "SEPTEMBRE" "embre").
  - cbn. tauto.
  - reflexivity.
Defined.

(** ** The validator: when it accepts *)

(** An exact count [c{n}] takes the first [n] characters when they are in
    the class, whatever follows. *)
Lemma repc_exact (p : ascii -> bool) (pv : option ascii) (x r : string) :
  forallc p x = true ->
  exists pv', hd_error (repc p (String.length x) (Some (String.length x)) pv (x ++ r))
              = Some (x, (pv', r)).
Proof.
  revert pv. induction x as [|c x IH]; intros pv Hx.
  - cbn [String.length append]. destruct r as [|c r]; cbn; [eauto|].
    rewrite andb_false_r. cbn. eauto.
  - cbn in Hx. apply andb_true_iff in Hx. destruct Hx as [Hc Hx].
    cbn [String.length append repc]. rewrite Hc. cbn [andb canMore pred less].
    destruct (IH (Some c) Hx) as [pv' E].
    destruct (repc p (String.length x) (Some (String.length x)) (Some c) (x ++ r))
      as [|[x0 c0] l]; [discriminate|].
    cbn in E. injection E as -> ->. cbn. eauto.
Qed.

Lemma rep_exact (p : ascii -> bool) (n : nat) (pv : option ascii) (x r : string) :
  forallc p x = true -> String.length x = n ->
  exists pv', hd_error (rep p n (Some n) (pv, x ++ r)) = Some (x, (pv', r)).
Proof. intros H <-. now apply repc_exact. Qed.

(** The date rule of the validator looks at the first ten characters. *)
Lemma isoPrefix_matches (y m d rest : string) :
  forallc isDigit y = true -> String.length y = 4 ->
  twoDigits m -> twoDigits d ->
  matchesAt isoPrefix (None, y ++ "-" ++ m ++ "-" ++ d ++ rest) = true.
Proof.
  intros Hy Ly [Lm Hm] [Ld Hd].
  destruct (rep_exact isDigit 4 None y ("-" ++ m ++ "-" ++ d ++ rest) Hy Ly) as [pv1 E1].
  destruct (rep_exact isDigit 2 (Some "-"%char) m ("-" ++ d ++ rest) Hm Lm) as [pv2 E2].
  destruct (rep_exact isDigit 2 (Some "-"%char) d rest Hd Ld) as [pv3 E3].
  assert (E : hd_error (isoPrefix (None, y ++ "-" ++ m ++ "-" ++ d ++ rest))
              = Some (d, (pv3, rest))).
  { unfold isoPrefix.
    eapply hd_bind; [exact E1|]. eapply hd_bind; [now apply chr_hd|].
    eapply hd_bind; [exact E2|]. eapply hd_bind; [now apply chr_hd|].
    exact E3. }
  unfold matchesAt. destruct (isoPrefix _); [discriminate | reflexivity].
Qed.

Lemma blank_iso (y m d : string) :
  forallc isDigit y = true -> 3 <= String.length y ->
  blank (y ++ "-" ++ m ++ "-" ++ d) = false.
Proof.
  intros Hy Ly. destruct y as [|c y]; [cbn in Ly; lia|].
  cbn in Hy. apply andb_true_iff in Hy. destruct Hy as [Hc Hy].
  unfold blank, trim. cbn [append isEmpty trimStart orb].
  rewrite (digit_not_space _ Hc). cbn [trimEnd].
  now rewrite (digit_not_space _ Hc).
Qed.

Lemma recognised_normalize (s : string) : recognised s -> recognised (normalize s).
Proof.
  intros [H|[H|H]].
  - destruct (exec ymdRe s) as [g|] eqn:E; [|now destruct H].
    left. rewrite (normalize_ymd _ _ E), E. discriminate.
  - destruct (exec dmyRe s) as [g|] eqn:E; [|now destruct H].
    right. left. rewrite (normalize_dmy _ _ E), E. discriminate.
  - destruct (exec longRe s) as [[[d w] y]|] eqn:E; [|now destruct H].
    right. right. apply normalize_longRe in E.
    destruct E as (_ & _ & _ & ->). discriminate.
Qed.

(** The output for a recognised date: the year as matched (or completed to
    four digits), then month and day on two digits. *)
Lemma recognised_output (s : string) :
  recognised s ->
  exists y m d,
    parseDateFlexible s = y ++ "-" ++ m ++ "-" ++ d
    /\ forallc isDigit y = true /\ twoDigits m /\ twoDigits d
    /\ (String.length y = 4
        \/ String.length y = 3
           /\ exists d' w', exec longRe (normalize s) = Some (d', w', y)).
Proof.
  intros Hs. unfold parseDateFlexible.
  rewrite (recognised_not_empty _ Hs). fold (normalize s).
  apply recognised_normalize in Hs.
  destruct (exec ymdRe (normalize s)) as [[[y m] d]|] eqn:Eymd.
  { apply ymdRe_inv in Eymd.
    destruct Eymd as (c1 & c2 & _ & _ & _ & Hy & Ly & Hm & Lm & Hd & Ld).
    exists y, (padStart 2 "0" m), (padStart 2 "0" d).
    repeat split; auto; apply padStart_twoDigits; assumption. }
  destruct (exec dmyRe (normalize s)) as [[[d m] y]|] eqn:Edmy.
  { apply dmyRe_inv in Edmy.
    destruct Edmy as (c1 & c2 & _ & _ & _ & Hy & Ly & Hm & Lm & Hd & Ld).
    exists y, (padStart 2 "0" m), (padStart 2 "0" d).
    repeat split; auto; apply padStart_twoDigits; assumption. }
  destruct (exec longRe (normalize s)) as [[[d w] yRaw]|] eqn:Elong;
    [|destruct Hs as [H|[H|H]]; now destruct H].
  apply longRe_inv in Elong.
  destruct Elong as (ws1 & ws2 & _ & _ & _ & _ & _ & Hd & Ld & Hw & Lw & Hy & Ly).
  exists (if (String.length yRaw =? 2)%nat then "20" ++ yRaw else yRaw),
         (monthNameToNumber w), (padStart 2 "0" d).
  split; [reflexivity|].
  pose proof (monthNumbers_twoDigits _ (monthNameToNumber_range w)) as Hmn.
  pose proof (padStart_twoDigits d Hd Ld) as Hdd.
  destruct (Nat.eqb_spec (String.length yRaw) 2) as [L2|L2].
  - split; [cbn; exact Hy|]. split; [exact Hmn|]. split; [exact Hdd|].
    left. cbn. now rewrite L2.
  - split; [exact Hy|]. split; [exact Hmn|]. split; [exact Hdd|].
    destruct (Nat.eq_dec (String.length yRaw) 4) as [L4|L4]; [now left|].
    right. split; [lia|]. eauto.
Qed.

(** X5. A date recognised by the normaliser is accepted by the validator:
    if [s] matches one of the three patterns and, when it is written with a
    month name, its year does not have three digits, then
    [parseDateFlexible s] is not blank and matches [/^\d{4}-\d{2}-\d{2}/],
    which are the two book-date checks of [validateTransactions]. *)
Theorem normalised_date_accepted (s : string) :
  recognised s ->
  (forall d w y, exec longRe (normalize s) = Some (d, w, y) -> String.length y <> 3) ->
  blank (parseDateFlexible s) = false
  /\ matchesAt isoPrefix (None, parseDateFlexible s) = true.
Proof.
  intros Hs H3.
  destruct (recognised_output s Hs) as (y & m & d & E & Hy & Hm & Hd & Ly).
  rewrite E. split.
  - apply blank_iso; [assumption|]. destruct Ly as [->|[-> _]]; lia.
  - destruct Ly as [Ly|[Ly (d' & w' & El)]].
    + rewrite <- (string_app_nil_r d). now apply isoPrefix_matches.
    + now destruct (H3 _ _ _ El).
Qed.

Lemma normalised_date_accepted_witness :
  blank (parseDateFlexible "7 sept  24") = false
  /\ matchesAt isoPrefix (None, parseDateFlexible "7 sept  24") = true.
Proof.
  apply normalised_date_accepted.
  - right; right; discriminate.
  - intros d w y H. vm_compute in H. injection H as _ _ <-. discriminate.
Defined.

Lemma checkTransaction_nil (index : nat) (t : ParsedTransaction) :
  checkTransaction index t = [] <-> acceptable t = true.
Proof.
  unfold checkTransaction, acceptable, when.
  destruct (blank (bookDate t)), (matchesAt isoPrefix (None, bookDate t)),
    (blank (reference t)), (blank (description t)),
    (Num.eqb (debit t) Num.zero && Num.eqb (credit t) Num.zero),
    (Num.ltb (debit t) Num.zero), (Num.ltb (credit t) Num.zero);
    cbn; split; intros H; (discriminate H || reflexivity).
Qed.

Lemma checkFrom_nil (k : nat) (ts : list ParsedTransaction) :
  checkFrom k ts = [] <-> forallb acceptable ts = true.
Proof.
  revert k. induction ts as [|t ts IH]; intros k; cbn [checkFrom forallb].
  - tauto.
  - rewrite andb_true_iff, <- (IH (S k)), <- (checkTransaction_nil k). split.
    + intros H. apply app_eq_nil in H. exact H.
    + intros [-> ->]. reflexivity.
Qed.

Lemma valid_iff (ts : list ParsedTransaction) :
  valid (validateTransactions ts) = true
  <-> ts <> [] /\ forallb acceptable ts = true.
Proof.
  unfold validateTransactions. destruct ts as [|t ts].
  - cbn. split; [discriminate | intros [H _]; now destruct H].
  - cbn [List.length Nat.eqb valid]. rewrite <- (checkFrom_nil 0). split.
    + intros H. split; [discriminate|].
      destruct (checkFrom 0 (t :: ts)); [reflexivity | discriminate].
    + intros [_ ->]. reflexivity.
Qed.

(** X6. The validator answers [valid: true] exactly when the list is not
    empty and every transaction has a book date that is not blank and starts
    with [dddd-dd-dd], a reference and a description that are not blank,
    debit and credit not both zero, and neither of them below zero. *)
Theorem validateTransactions_valid (ts : list ParsedTransaction) :
  valid (validateTransactions ts) = true
  <-> ts <> [] /\ forallb acceptable ts = true.
Proof. apply valid_iff. Qed.

Lemma validateTransactions_valid_witness :
  valid (validateTransactions [shopTransaction]) = true
  /\ valid (validateTransactions [shopTransaction; zeroZero]) = false.
Proof.
  split.
  - apply validateTransactions_valid. split; [discriminate | reflexivity].
  - apply not_true_is_false. intros H.
    apply validateTransactions_valid in H. destruct H as [_ H]. discriminate H.
Defined.

(** X7. The validator reads the book date, the reference, the description,
    the debit and the credit, and nothing else: two lists whose transactions
    agree on these five fields, position by position, get the same result.
    The value date and the closing balance are never checked. *)
Theorem validateTransactions_fields (ts us : list ParsedTransaction) :
  Forall2 (fun t u => bookDate t = bookDate u /\ reference t = reference u
                      /\ description t = description u
                      /\ debit t = debit u /\ credit t = credit u) ts us ->
  validateTransactions ts = validateTransactions us.
Proof.
  intros H. unfold validateTransactions.
  assert (E : forall k, checkFrom k ts = checkFrom k us).
  { induction H as [|t u ts us (E1 & E2 & E3 & E4 & E5) _ IH]; intros k;
      cbn [checkFrom]; [reflexivity|].
    rewrite IH. f_equal. unfold checkTransaction.
    now rewrite E1, E2, E3, E4, E5. }
  rewrite E. now rewrite (Forall2_length H).
Qed.

Lemma validateTransactions_fields_witness :
  validateTransactions [shopTransaction]
  = validateTransactions
      [mkTransaction "2024-03-01" (Some "not a date") "ABC12345" "Shop payment"
                     (Num.ofZ 100) Num.zero None].
Proof.
  apply validateTransactions_fields. constructor; [|constructor].
  repeat split; reflexivity.
Defined.

Lemma checkTransaction_label (index : nat) (t : ParsedTransaction) (e : string) :
  In e (checkTransaction index t) -> exists rest, e = label index ++ rest.
Proof.
  unfold checkTransaction. fold (label index). cbn [List.concat].
  rewrite !in_app_iff. unfold when.
  destruct (blank (bookDate t)), (matchesAt isoPrefix (None, bookDate t)),
    (blank (reference t)), (blank (description t)),
    (Num.eqb (debit t) Num.zero && Num.eqb (credit t) Num.zero),
    (Num.ltb (debit t) Num.zero), (Num.ltb (credit t) Num.zero);
    cbn [In negb];
    intros H;
    repeat match goal with
    | H : _ \/ _ |- _ => destruct H as [H|H]
    | H : False |- _ => destruct H
    end; subst e; eauto.
Qed.

(** X8. Every message of the validator about a list that is not empty
    starts with [Transaction i: ], where [i], counted from 1, is a position
    of the list. *)
Theorem validateTransactions_positions (ts : list ParsedTransaction) (e : string) :
  ts <> [] -> In e (errors (validateTransactions ts)) ->
  exists index rest,
    index < List.length ts
    /\ e = "Transaction " ++ Num.decimal (index + 1) ++ ": " ++ rest.
Proof.
  intros Hne. unfold validateTransactions.
  destruct ts as [|t ts]; [contradiction|].
  cbn [List.length Nat.eqb errors]. rewrite In_checkFrom.
  intros (j & u & Hj & Hin). cbn [Nat.add] in Hin.
  apply checkTransaction_label in Hin. destruct Hin as [rest ->].
  exists j, rest. split.
  - change (j < List.length (t :: ts)). apply nth_error_Some. congruence.
  - unfold label. now rewrite !string_app_assoc.
Qed.

Lemma validateTransactions_positions_witness :
  [zeroZero; creditOnly] <> []
  /\ exists index rest,
       index < 2
       /\ "Transaction 1: Both debit and credit are zero"
          = "Transaction " ++ Num.decimal (index + 1) ++ ": " ++ rest.
Proof.
  split; [discriminate|].
  apply (validateTransactions_positions [zeroZero; creditOnly]
           "Transaction 1: Both debit and credit are zero").
  - discriminate.
  - vm_compute. tauto.
Defined.

(** ** Amounts written with separators *)

Lemma amountChar_facts (c : ascii) :
  isAmountChar c = true ->
  isSpace c = false /\ forall s, currencyToken (String c s) = None.
Proof.
  destruct c as [[] [] [] [] [] [] [] []]; cbn; intros; try discriminate;
    split; reflexivity.
Qed.

Lemma stripCurrency_amountChars (s : string) :
  forallc isAmountChar s = true -> stripCurrency s = s.
Proof.
  unfold stripCurrency. induction s as [|c s IH]; [reflexivity|].
  cbn [forallc]. intros H. apply andb_true_iff in H. destruct H as [Hc Hs].
  cbn [stripCurrencyFrom]. destruct (amountChar_facts c Hc) as (_ & ->).
  now rewrite IH.
Qed.

(** On a text made of digits, dots, commas and minus signs only the
    separator rule is at work. *)
Lemma parseAmount_amountChars (t : string) :
  forallc isAmountChar t = true -> 1 <= String.length t ->
  parseAmount t
  = amountOf (parseFloat
      (if existsc isComma t && existsc isDot t then removeCommas t
       else if existsc isComma t then
         if (1 <? List.length (split "," t))%nat
            && (String.length (last (split "," t) "") =? 2)%nat
         then join "." (split "," t)
         else removeCommas t
       else t)).
Proof.
  intros H L. unfold parseAmount, amountOf.
  assert (E1 : isEmpty t = false) by (destruct t; [cbn in L; lia | reflexivity]).
  assert (Hns : forallc notSpace t = true).
  { revert H. apply forallc_impl. intros c Hc. unfold notSpace.
    destruct (amountChar_facts c Hc) as (-> & _). reflexivity. }
  assert (E2 : trim (filterc isAmountChar (stripCurrency t)) = t).
  { rewrite stripCurrency_amountChars by assumption.
    rewrite filterc_id by assumption.
    unfold trim. destruct t as [|c t]; [reflexivity|].
    rewrite trimStart_id; [now apply trimEnd_notSpace|].
    cbn in Hns |- *. now apply andb_true_iff in Hns. }
  now rewrite E1, E2, E1.
Qed.

Lemma filterc_app (p : ascii -> bool) (a b : string) :
  filterc p (a ++ b) = filterc p a ++ filterc p b.
Proof.
  induction a as [|c a IH]; cbn; [reflexivity|].
  destruct (p c); cbn; now rewrite IH.
Qed.

Lemma existsc_app (p : ascii -> bool) (a b : string) :
  existsc p (a ++ b) = existsc p a || existsc p b.
Proof.
  induction a as [|c a IH]; cbn; [reflexivity|]. now rewrite IH, orb_assoc.
Qed.

Lemma digit_facts (c : ascii) :
  isDigit c = true ->
  isAmountChar c = true /\ isComma c = false /\ isDot c = false
  /\ isGrouped c = true /\ (0 <= digitVal c <= 9)%Z.
Proof.
  destruct c as [[] [] [] [] [] [] [] []]; cbn; intros; try discriminate;
    repeat split; (reflexivity || discriminate).
Qed.

Lemma digits_amountChars (s : string) :
  forallc isDigit s = true -> forallc isAmountChar s = true.
Proof. apply forallc_impl. intros c H. now apply digit_facts. Qed.

Lemma digits_no_comma (s : string) :
  forallc isDigit s = true -> existsc isComma s = false.
Proof.
  intros H. apply existsc_false. revert H. apply forallc_impl.
  intros c Hc. destruct (digit_facts c Hc) as (_ & -> & _). reflexivity.
Qed.

Lemma digits_no_dot (s : string) :
  forallc isDigit s = true -> existsc isDot s = false.
Proof.
  intros H. apply existsc_false. revert H. apply forallc_impl.
  intros c Hc. destruct (digit_facts c Hc) as (_ & _ & -> & _). reflexivity.
Qed.

Lemma removeCommas_digits (s : string) :
  forallc isDigit s = true -> removeCommas s = s.
Proof.
  intros H. apply filterc_id. revert H. apply forallc_impl.
  intros c Hc. destruct (digit_facts c Hc) as (_ & -> & _). reflexivity.
Qed.

Lemma grouped_facts (c : ascii) :
  isGrouped c = true ->
  isAmountChar c = true /\ isDot c = false
  /\ (isComma c = false -> isDigit c = true).
Proof.
  destruct c as [[] [] [] [] [] [] [] []]; cbn; intros; try discriminate;
    repeat split; (reflexivity || discriminate || auto).
Qed.

Lemma removeCommas_grouped (s : string) :
  forallc isGrouped s = true -> forallc isDigit (removeCommas s) = true.
Proof.
  unfold removeCommas. induction s as [|c s IH]; cbn; [reflexivity|].
  intros H. apply andb_true_iff in H. destruct H as [Hc Hs].
  destruct (isComma c) eqn:E; cbn; [auto|].
  destruct (grouped_facts c Hc) as (_ & _ & D). rewrite (D E). auto.
Qed.

Lemma signText_amountChars (neg : bool) : forallc isAmountChar (signText neg) = true.
Proof. destruct neg; reflexivity. Qed.

Lemma removeCommas_signText (neg : bool) : removeCommas (signText neg) = signText neg.
Proof. destruct neg; reflexivity. Qed.

Lemma digitsAcc_bounds (acc : Z) (s : string) :
  forallc isDigit s = true ->
  (acc * 10 ^ Z.of_nat (String.length s) <= digitsAcc acc s
   < (acc + 1) * 10 ^ Z.of_nat (String.length s))%Z.
Proof.
  revert acc. induction s as [|c s IH]; intros acc H.
  - cbn. lia.
  - cbn in H. apply andb_true_iff in H. destruct H as [Hc Hs].
    destruct (digit_facts c Hc) as (_ & _ & _ & _ & V).
    cbn [String.length digitsAcc].
    specialize (IH (10 * acc + digitVal c)%Z Hs).
    rewrite Nat2Z.inj_succ, Z.pow_succ_r by lia.
    set (p := (10 ^ Z.of_nat (String.length s))%Z) in *.
    assert (Hp : (0 < p)%Z) by (apply Z.pow_pos_nonneg; lia).
    nia.
Qed.

Lemma digitsValue_bounds (s : string) :
  forallc isDigit s = true ->
  (0 <= digitsValue s < 10 ^ Z.of_nat (String.length s))%Z.
Proof. intros H. pose proof (digitsAcc_bounds 0 s H). unfold digitsValue. lia. Qed.

(** The amount nearest to [K / 100] is left as it is by the rounding to
    hundredths. *)
Lemma amountOf_hundredths (s : bool) (K : Z) :
  (Z.abs K < 2 ^ 51)%Z -> amountOf (roundQ s (K # 100)) = roundQ s (K # 100).
Proof.
  intros KB. destruct (Z.eq_dec K 0) as [->|K0].
  - destruct s; vm_compute; reflexivity.
  - destruct (rescale_round s s K K0 KB) as (F & _).
    destruct (hundredths_error s K K0 F) as (m & e & R & _).
    apply amountOf_fixpoint; auto.
    + now rewrite R.
    + reflexivity.
Qed.

Lemma cents_value (K : Z) :
  (inject_Z K * pow10 (0 - Z.of_nat 2) == K # 100)%Q.
Proof. change (pow10 (0 - Z.of_nat 2)) with (1 # 100)%Q. symmetry. apply hundredths_mul. Qed.

Lemma units_value (K : Z) : (inject_Z K * pow10 0 == (K * 100) # 100)%Q.
Proof.
  change (pow10 0) with 1%Q. rewrite (Qmake_Qdiv (K * 100) 100), inject_Z_mult.
  change (inject_Z 100) with 100%Q. change (inject_Z (Z.pos 100)) with 100%Q. field.
Qed.

Lemma signed_abs (neg : bool) (N : Z) :
  (0 <= N)%Z -> Z.abs (if neg then - N else N) = N.
Proof. destruct neg; lia. Qed.

(** X9. An amount written with a decimal point and two decimals, with or
    without a leading minus sign and with commas anywhere among the digits
    before the point, is read as the Number nearest to it: the commas are
    dropped and, with [N] the integer written by all the digits (at most 13
    before the point), the result is the Number nearest to [N/100], negated
    under a minus sign. *)
Theorem parseAmount_two_decimals (neg : bool) (xi fp : string) :
  forallc isGrouped xi = true ->
  1 <= String.length (removeCommas xi) <= 13 ->
  forallc isDigit fp = true -> String.length fp = 2 ->
  parseAmount (signText neg ++ xi ++ "." ++ fp)
  = roundQ neg ((if neg then - digitsValue (removeCommas xi ++ fp)
                 else digitsValue (removeCommas xi ++ fp)) # 100).
Proof.
  intros Hx Lx Hf Lf.
  pose proof (removeCommas_grouped xi Hx) as Hip.
  set (ip := removeCommas xi) in *.
  assert (Hx' : forallc isAmountChar xi = true).
  { revert Hx. apply forallc_impl. intros c Hc. now apply grouped_facts. }
  assert (Hdot : existsc isDot (signText neg ++ xi ++ "." ++ fp) = true).
  { rewrite !existsc_app. cbn. now rewrite !orb_true_r. }
  rewrite parseAmount_amountChars.
  2:{ rewrite !forallc_app, signText_amountChars, Hx'. cbn.
      now apply digits_amountChars. }
  2:{ rewrite !string_length_app. cbn. lia. }
  rewrite Hdot, andb_true_r.
  assert (R : removeCommas (signText neg ++ xi ++ "." ++ fp)
              = signText neg ++ ip ++ "." ++ fp).
  { unfold removeCommas. rewrite !filterc_app.
    fold (removeCommas (signText neg)). fold (removeCommas xi).
    fold (removeCommas fp). rewrite removeCommas_signText.
    now rewrite (removeCommas_digits fp). }
  assert (E : (if existsc isComma (signText neg ++ xi ++ "." ++ fp)
               then removeCommas (signText neg ++ xi ++ "." ++ fp)
               else
                 if existsc isComma (signText neg ++ xi ++ "." ++ fp)
                 then
                   if (1 <? List.length (split "," (signText neg ++ xi ++ "." ++ fp)))%nat
                      && (String.length
                            (last (split "," (signText neg ++ xi ++ "." ++ fp)) "") =? 2)%nat
                   then join "." (split "," (signText neg ++ xi ++ "." ++ fp))
                   else removeCommas (signText neg ++ xi ++ "." ++ fp)
                 else signText neg ++ xi ++ "." ++ fp)
              = signText neg ++ ip ++ "." ++ fp).
  { destruct (existsc isComma (signText neg ++ xi ++ "." ++ fp)) eqn:C; [exact R|].
    rewrite <- R. symmetry. apply filterc_id.
    clear - C. induction (signText neg ++ xi ++ "." ++ fp) as [|c s IH];
      cbn in *; [reflexivity|].
    apply orb_false_iff in C. destruct C as [-> C]. auto. }
  rewrite E. rewrite parseFloat_fraction by (auto; lia).
  rewrite Lf.
  set (N := digitsValue (ip ++ fp)).
  rewrite (roundQ_Qeq neg _ _ (cents_value (if neg then - N else N))).
  apply amountOf_hundredths.
  assert (B : (0 <= N < 10 ^ Z.of_nat (String.length (ip ++ fp)))%Z).
  { apply digitsValue_bounds. now rewrite forallc_app, Hip, Hf. }
  rewrite signed_abs by lia.
  rewrite string_length_app, Lf in B.
  assert (P : (10 ^ Z.of_nat (String.length ip + 2) <= 10 ^ 15)%Z).
  { apply Z.pow_le_mono_r; lia. }
  lia.
Qed.

Lemma parseAmount_two_decimals_witness :
  parseAmount "-12,345.60" = roundQ true (-1234560 # 100).
Proof.
  apply (parseAmount_two_decimals true "12,345" "60"); try reflexivity; cbn; lia.
Defined.

Lemma split_none (sep : ascii) (b : string) :
  existsc (fun c => Ascii.eqb c sep) b = false -> split sep b = [b].
Proof.
  induction b as [|c b IH]; cbn; [reflexivity|].
  intros H. apply orb_false_iff in H. destruct H as [-> H]. now rewrite IH.
Qed.

Lemma split_app (sep : ascii) (x b : string) :
  existsc (fun c => Ascii.eqb c sep) x = false ->
  split sep (x ++ String sep b) = x :: split sep b.
Proof.
  induction x as [|c x IH]; cbn [append split existsc].
  - intros _. now rewrite Ascii.eqb_refl.
  - intros H. apply orb_false_iff in H. destruct H as [-> H]. now rewrite IH.
Qed.

Lemma integer_value (K : Z) : (inject_Z K == (K * 100) # 100)%Q.
Proof.
  rewrite (Qmake_Qdiv (K * 100) 100), inject_Z_mult.
  change (inject_Z 100) with 100%Q. change (inject_Z (Z.pos 100)) with 100%Q. field.
Qed.

(** X10. One comma and no point: in [a,b], with [a] and [b] made of digits
    (13 at most together, [a] not empty), the comma is the decimal separator
    when exactly two digits follow it, and is dropped otherwise, which gives
    the integer [ab]: [12,34] is 12.34, [1,234] is 1234 and [1,5] is 15.  A
    leading minus sign negates the result. *)
Theorem parseAmount_one_comma (neg : bool) (a b : string) :
  forallc isDigit a = true -> 1 <= String.length a ->
  forallc isDigit b = true -> String.length a + String.length b <= 13 ->
  parseAmount (signText neg ++ a ++ "," ++ b)
  = if (String.length b =? 2)%nat
    then roundQ neg ((if neg then - digitsValue (a ++ b) else digitsValue (a ++ b)) # 100)
    else roundQ neg (inject_Z (if neg then - digitsValue (a ++ b) else digitsValue (a ++ b))).
Proof.
  intros Ha La Hb Lab.
  set (t := signText neg ++ a ++ "," ++ b).
  assert (Hsign : existsc isComma (signText neg) = false) by (destruct neg; reflexivity).
  assert (Hcomma : existsc isComma t = true).
  { unfold t. rewrite !existsc_app. cbn. now rewrite !orb_true_r. }
  assert (Hdot : existsc isDot t = false).
  { unfold t. rewrite !existsc_app, (digits_no_dot a), (digits_no_dot b) by assumption.
    destruct neg; reflexivity. }
  assert (Hparts : split "," t = [signText neg ++ a; b]).
  { unfold t. rewrite <- string_app_assoc. cbn [append].
    change (fun c => Ascii.eqb c ",") with isComma in *.
    rewrite (split_app "," (signText neg ++ a) b).
    - rewrite split_none; [reflexivity|]. now apply digits_no_comma.
    - change (fun c => Ascii.eqb c ",") with isComma.
      now rewrite existsc_app, Hsign, digits_no_comma. }
  assert (B : (0 <= digitsValue (a ++ b) < 10 ^ 13)%Z).
  { pose proof (digitsValue_bounds (a ++ b)) as B.
    rewrite forallc_app, Ha, Hb, string_length_app in B. specialize (B eq_refl).
    assert (P : (10 ^ Z.of_nat (String.length a + String.length b) <= 10 ^ 13)%Z)
      by (apply Z.pow_le_mono_r; lia).
    lia. }
  set (N := digitsValue (a ++ b)) in *.
  rewrite parseAmount_amountChars.
  2:{ unfold t. rewrite !forallc_app, signText_amountChars. cbn.
      now rewrite !digits_amountChars. }
  2:{ unfold t. rewrite !string_length_app. cbn. lia. }
  rewrite Hcomma, Hdot, Hparts. cbn [andb List.length Nat.ltb Nat.leb last].
  destruct (Nat.eqb_spec (String.length b) 2) as [L2|L2].
  - cbn [join String.concat]. rewrite string_app_assoc.
    rewrite parseFloat_fraction by (auto; lia). rewrite L2. fold N.
    rewrite (roundQ_Qeq neg _ _ (cents_value (if neg then - N else N))).
    apply amountOf_hundredths. rewrite signed_abs; lia.
  - assert (R : removeCommas t = signText neg ++ a ++ b).
    { unfold t, removeCommas. rewrite !filterc_app.
      cbn [append filterc]. change (isComma ",") with true. cbn [negb].
      fold (removeCommas (signText neg)). fold (removeCommas a). fold (removeCommas b).
      now rewrite removeCommas_signText, !removeCommas_digits. }
    rewrite R. rewrite parseFloat_integer.
    + fold N.
      rewrite (roundQ_Qeq neg _ _ (units_value (if neg then - N else N))).
      rewrite (roundQ_Qeq neg _ _ (integer_value (if neg then - N else N))).
      apply amountOf_hundredths.
      replace ((if neg then - N else N) * 100)%Z
        with (if neg then - (N * 100) else N * 100)%Z by (destruct neg; lia).
      rewrite signed_abs; lia.
    + now rewrite forallc_app, Ha, Hb.
    + rewrite string_length_app. lia.
Qed.

Lemma parseAmount_one_comma_witness :
  parseAmount "12,34" = roundQ false (1234 # 100)
  /\ parseAmount "1,234" = roundQ false (inject_Z 1234)
  /\ parseAmount "1,5" = roundQ false (inject_Z 15).
Proof.
  split; [|split].
  - apply (parseAmount_one_comma false "12" "34"); try reflexivity; cbn; lia.
  - apply (parseAmount_one_comma false "1" "234"); try reflexivity; cbn; lia.
  - apply (parseAmount_one_comma false "1" "5"); try reflexivity; cbn; lia.
Defined.

(** ** Amounts: text without a digit *)

Lemma mark_cases (c : ascii) : isMark c = true -> c = "."%char \/ c = ","%char \/ c = "-"%char.
Proof.
  destruct c as [[] [] [] [] [] [] [] []]; cbn; intros; try discriminate; auto.
Qed.

Lemma amountChar_mark (c : ascii) :
  isAmountChar c = true -> isDigit c = false -> isMark c = true.
Proof.
  destruct c as [[] [] [] [] [] [] [] []]; cbn; intros; try discriminate; auto.
Qed.

Lemma forallc_filterc (q p : ascii -> bool) (s : string) :
  forallc q s = true -> forallc q (filterc p s) = true.
Proof.
  induction s as [|c s IH]; cbn; [reflexivity|]. intros H.
  apply andb_true_iff in H. destruct H as [Hc Hs].
  destruct (p c); cbn; [rewrite Hc|]; auto.
Qed.

Lemma forallc_filterc_self (p : ascii -> bool) (s : string) :
  forallc p (filterc p s) = true.
Proof.
  induction s as [|c s IH]; cbn; [reflexivity|].
  destruct (p c) eqn:E; cbn; [rewrite E|]; auto.
Qed.

Lemma forallc_trimStart (q : ascii -> bool) (s : string) :
  forallc q s = true -> forallc q (trimStart s) = true.
Proof.
  induction s as [|c s IH]; cbn; [reflexivity|]. intros H.
  destruct (isSpace c); [|exact H].
  apply andb_true_iff in H. destruct H as [_ Hs]. auto.
Qed.

Lemma forallc_trimEnd (q : ascii -> bool) (s : string) :
  forallc q s = true -> forallc q (trimEnd s) = true.
Proof.
  induction s as [|c s IH]; cbn; [reflexivity|]. intros H.
  apply andb_true_iff in H. destruct H as [Hc Hs].
  destruct (isSpace c && isEmpty (trimEnd s)); cbn; [reflexivity|].
  rewrite Hc. auto.
Qed.

Lemma forallc_trim (q : ascii -> bool) (s : string) :
  forallc q s = true -> forallc q (trim s) = true.
Proof. intros H. now apply forallc_trimEnd, forallc_trimStart. Qed.

Lemma forallc_stripCurrencyFrom (q : ascii -> bool) (k : nat) (s : string) :
  forallc q s = true -> forallc q (stripCurrencyFrom k s) = true.
Proof.
  revert k. induction s as [|c s IH]; intros k; cbn [stripCurrencyFrom forallc];
    [reflexivity|].
  intros H. apply andb_true_iff in H. destruct H as [Hc Hs].
  destruct k as [|k]; [|auto].
  destruct (currencyToken (String c s)) as [[|n]|]; cbn [forallc];
    rewrite ?Hc; cbn [andb]; auto.
Qed.

Lemma split_nonempty (sep : ascii) (s : string) : split sep s <> [].
Proof.
  destruct s as [|c s]; cbn; [discriminate|].
  destruct (Ascii.eqb c sep); [discriminate|].
  destruct (split sep s); discriminate.
Qed.

Lemma concat_cons_char (sep : string) (c : ascii) (p : string) (ps : list string) :
  String.concat sep (String c p :: ps) = String c (String.concat sep (p :: ps)).
Proof. destruct ps; reflexivity. Qed.

Lemma forallc_join_split (q : ascii -> bool) (t : string) :
  q "."%char = true -> forallc q t = true ->
  forallc q (join "." (split "," t)) = true.
Proof.
  intros Hdot. unfold join. induction t as [|c t IH]; cbn [split forallc];
    [reflexivity|].
  intros H. apply andb_true_iff in H. destruct H as [Hc Ht].
  specialize (IH Ht). pose proof (split_nonempty "," t) as Hne.
  destruct (Ascii.eqb c ",").
  - destruct (split "," t) as [|p ps]; [contradiction|].
    cbn [String.concat append forallc]. now rewrite Hdot.
  - destruct (split "," t) as [|p ps]; [contradiction|].
    rewrite concat_cons_char. cbn [forallc]. now rewrite Hc.
Qed.

Lemma spanc_mark (r : string) :
  forallc isMark r = true -> spanc isDigit r = ("", r).
Proof.
  destruct r as [|c r]; cbn; [reflexivity|]. intros H.
  apply andb_true_iff in H. destruct H as [Hc _].
  apply mark_cases in Hc. destruct Hc as [->|[->| ->]]; reflexivity.
Qed.

Lemma startsWith_mark (r : string) :
  forallc isMark r = true -> startsWith r "Infinity" = false.
Proof.
  destruct r as [|c r]; cbn; [reflexivity|]. intros H.
  apply andb_true_iff in H. destruct H as [Hc _].
  apply mark_cases in Hc. destruct Hc as [->|[->| ->]]; reflexivity.
Qed.

(** Without a digit there is no number to read. *)
Lemma parseFloat_marks (t : string) :
  forallc isMark t = true -> parseFloat t = NaN.
Proof.
  intros H. unfold parseFloat.
  assert (E : exists neg s2, signPart (trimStart t) = (neg, s2)
                             /\ forallc isMark s2 = true).
  { destruct t as [|c r]; [exists false, ""; auto|].
    cbn in H. apply andb_true_iff in H. destruct H as [Hc Hr].
    apply mark_cases in Hc. destruct Hc as [->|[->| ->]]; cbn.
    - exists false, (String "." r). auto.
    - exists false, (String "," r). auto.
    - exists true, r. auto. }
  destruct E as (neg & s2 & -> & H2).
  rewrite (startsWith_mark s2 H2), (spanc_mark s2 H2).
  destruct s2 as [|c r]; [reflexivity|].
  cbn in H2. apply andb_true_iff in H2. destruct H2 as [Hc Hr].
  apply mark_cases in Hc. destruct Hc as [->|[->| ->]];
    try reflexivity.
  now rewrite (spanc_mark r Hr).
Qed.

Lemma existsc_forallc_neg (p : ascii -> bool) (s : string) :
  existsc p s = false -> forallc (fun c => negb (p c)) s = true.
Proof.
  induction s as [|c s IH]; cbn; [reflexivity|]. intros H.
  apply orb_false_iff in H. destruct H as [-> H]. auto.
Qed.

Lemma forallc_and (p q r : ascii -> bool) (s : string) :
  (forall c, p c = true -> q c = true -> r c = true) ->
  forallc p s = true -> forallc q s = true -> forallc r s = true.
Proof.
  intros Hr. induction s as [|c s IH]; cbn; [reflexivity|]. intros Hp Hq.
  apply andb_true_iff in Hp, Hq. destruct Hp as [Hp1 Hp2], Hq as [Hq1 Hq2].
  rewrite (Hr _ Hp1 Hq1). auto.
Qed.

(** X11. [parseAmount] never returns NaN, and a text without any digit
    gives 0. *)
Theorem parseAmount_no_number (x : string) :
  isNaN (parseAmount x) = false
  /\ (existsc isDigit x = false -> parseAmount x = zero).
Proof.
  split.
  - destruct (parseAmount_outcomes x) as [[s ->]|[[s ->]|(K & s & _ & ->)]];
      try reflexivity. apply roundQ_not_nan.
  - intros H. apply existsc_forallc_neg in H. unfold parseAmount.
    destruct (isEmpty x); [reflexivity|].
    set (tmp := trim (filterc isAmountChar (stripCurrency x))).
    assert (Hm : forallc isMark tmp = true).
    { apply (forallc_and isAmountChar (fun c => negb (isDigit c))).
      - intros c A D. apply amountChar_mark; [assumption|].
        now apply negb_true_iff.
      - apply forallc_trim, forallc_filterc_self.
      - apply forallc_trim, forallc_filterc.
        now apply forallc_stripCurrencyFrom. }
    destruct (isEmpty tmp); [reflexivity|].
    rewrite parseFloat_marks; [reflexivity|].
    destruct (existsc isComma tmp && existsc isDot tmp).
    { now apply forallc_filterc. }
    destruct (existsc isComma tmp); [|assumption].
    destruct ((1 <? List.length (split "," tmp))%nat
              && (String.length (last (split "," tmp) "") =? 2)%nat).
    + now apply forallc_join_split.
    + now apply forallc_filterc.
Qed.

Lemma parseAmount_no_number_witness :
  parseAmount "N/A -,-" = zero.
Proof. apply parseAmount_no_number. reflexivity. Defined.

(** ** Amounts: the sign *)



















(** ** References *)

Lemma forallc_collapseSeps (q : ascii -> bool) (b : bool) (s : string) :
  q "-"%char = true -> forallc q s = true ->
  forallc q (collapseSepsFrom b s) = true.
Proof.
  intros Hq. revert b. induction s as [|c s IH]; intros b; cbn [collapseSepsFrom forallc];
    [reflexivity|].
  intros H. apply andb_true_iff in H. destruct H as [Hc Hs].
  destruct (isRefSep c).
  - destruct b; [auto|].
    destruct s as [|c' s']; [cbn; now rewrite Hc|].
    destruct (isRefSep c'); cbn [forallc].
    + rewrite Hq. cbn [andb]. auto.
    + rewrite Hc. cbn [andb]. auto.
  - cbn [forallc]. rewrite Hc. cbn [andb]. auto.
Qed.

Lemma removeSpaces_notSpace (s : string) : forallc notSpace (removeSpaces s) = true.
Proof. apply forallc_filterc_self. Qed.

Lemma sepRunFree_collapseSeps (b : bool) (s : string) :
  sepRunFree b (collapseSepsFrom b s) = true.
Proof.
  revert b. induction s as [|c s IH]; intros b; cbn [collapseSepsFrom]; [reflexivity|].
  destruct (isRefSep c) eqn:Ec.
  - destruct b; [apply IH|].
    destruct s as [|c' s']; [cbn; now rewrite Ec|].
    destruct (isRefSep c') eqn:Ec'.
    + cbn [sepRunFree]. change (isRefSep "-") with true. cbn [negb andb]. apply IH.
    + cbn [sepRunFree]. rewrite Ec. cbn [negb andb].
      specialize (IH false). cbn [collapseSepsFrom] in IH |- *.
      rewrite Ec' in IH |- *. cbn [sepRunFree] in IH |- *.
      now rewrite Ec' in IH |- *.
  - cbn [sepRunFree]. rewrite Ec. apply IH.
Qed.

Lemma sepRunFree_weaken (s : string) :
  sepRunFree true s = true -> sepRunFree false s = true.
Proof.
  destruct s as [|c s]; cbn; [reflexivity|].
  destruct (isRefSep c); [discriminate | auto].
Qed.

Lemma collapseSeps_id (b : bool) (s : string) :
  sepRunFree b s = true -> collapseSepsFrom b s = s.
Proof.
  revert b. induction s as [|c s IH]; intros b; cbn [collapseSepsFrom sepRunFree];
    [reflexivity|].
  destruct (isRefSep c) eqn:Ec.
  - intros H. apply andb_true_iff in H. destruct H as [Hb Hs].
    apply negb_true_iff in Hb. subst b.
    destruct s as [|c' s']; [reflexivity|].
    destruct (isRefSep c') eqn:Ec'.
    + cbn in Hs. now rewrite Ec' in Hs.
    + now rewrite (IH false (sepRunFree_weaken _ Hs)).
  - intros H. now rewrite IH.
Qed.

Lemma removeSpaces_id (s : string) :
  forallc notSpace s = true -> removeSpaces s = s.
Proof. apply filterc_id. Qed.

Lemma fixReference_notSpace (ref : string) :
  forallc notSpace (fixReference ref) = true.
Proof.
  unfold fixReference. destruct (isEmpty ref); [reflexivity|].
  apply forallc_collapseSeps; [reflexivity | apply removeSpaces_notSpace].
Qed.

Lemma fixReference_sepRunFree (ref : string) :
  sepRunFree false (fixReference ref) = true.
Proof.
  unfold fixReference. destruct (isEmpty ref); [reflexivity|].
  apply sepRunFree_collapseSeps.
Qed.

(** X12. A cleaned reference holds no white space and no two separators
    ([-], [\], [/]) in a row. *)
Theorem fixReference_shape (ref : string) :
  forallc notSpace (fixReference ref) = true
  /\ sepRunFree false (fixReference ref) = true.
Proof. split; [apply fixReference_notSpace | apply fixReference_sepRunFree]. Qed.

(** X13. Cleaning a reference twice is the same as cleaning it once. *)
Theorem fixReference_idempotent (ref : string) :
  fixReference (fixReference ref) = fixReference ref.
Proof.
  pose proof (fixReference_notSpace ref) as H1.
  pose proof (fixReference_sepRunFree ref) as H2.
  unfold fixReference at 1.
  destruct (isEmpty (fixReference ref)) eqn:E.
  - destruct (fixReference ref); [reflexivity | discriminate].
  - rewrite removeSpaces_id by assumption. now apply collapseSeps_id.
Qed.

(** ** The column lookup *)

Lemma findIndexFrom_none {A} (p : A -> bool) (i : Z) (a : list A) :
  (0 <= i)%Z ->
  (findIndexFrom p i a = (-1)%Z <-> forall x, In x a -> p x = false).
Proof.
  revert i. induction a as [|x a IH]; intros i Hi; cbn [findIndexFrom].
  - split; [intros _ x [] | reflexivity].
  - destruct (p x) eqn:E.
    + split; [lia|]. intros H. rewrite (H x) in E by now left. discriminate.
    + rewrite IH by lia. split.
      * intros H y [<-|Hy]; auto.
      * intros H y Hy. apply H. now right.
Qed.

Lemma findIndexFrom_found {A} (p : A -> bool) (i : Z) (a : list A) (d : A) :
  (0 <= i)%Z -> findIndexFrom p i a <> (-1)%Z ->
  (i <= findIndexFrom p i a < i + Z.of_nat (List.length a))%Z
  /\ p (nth (Z.to_nat (findIndexFrom p i a - i)) a d) = true
  /\ forall j, j < Z.to_nat (findIndexFrom p i a - i) -> p (nth j a d) = false.
Proof.
  revert i. induction a as [|x a IH]; intros i Hi; cbn [findIndexFrom].
  - intros H. now destruct H.
  - destruct (p x) eqn:E.
    + intros _. rewrite Z.sub_diag. cbn [Z.to_nat nth List.length].
      split; [lia|]. split; [exact E|]. intros j Hj. lia.
    + intros H. destruct (IH (i + 1)%Z ltac:(lia) H) as (B & P & F).
      set (r := findIndexFrom p (i + 1) a) in *.
      replace (Z.to_nat (r - i)) with (S (Z.to_nat (r - (i + 1)))) by lia.
      cbn [nth List.length]. split; [lia|]. split; [exact P|].
      intros [|j] Hj; [exact E|]. apply F. lia.
Qed.

(** The lookup fails exactly when no header carries any of the names. *)
Lemma findColumnIndex_none (headers possibleNames : list string) :
  findColumnIndex headers possibleNames = (-1)%Z
  <-> forall name, In name possibleNames -> absent headers name.
Proof.
  induction possibleNames as [|n ns IH]; cbn [findColumnIndex].
  - split; [intros _ name [] | reflexivity].
  - unfold findIndex.
    destruct (Z.eqb_spec (findIndexFrom (fun h => includes h (toLowerCase n)) 0 headers) (-1))
      as [E|E]; cbn [negb].
    + rewrite IH. pose proof (proj1 (findIndexFrom_none _ 0 headers ltac:(lia)) E) as E'.
      split.
      * intros H name [<-|Hn]; [exact E' | auto].
      * intros H name Hn. apply H. now right.
    + split; [contradiction|]. intros H. destruct E.
      apply (proj2 (findIndexFrom_none _ 0 headers ltac:(lia))). apply (H n). now left.
Qed.

(** Otherwise the first name carried by some header decides, and the
    first header carrying it is the column. *)
Lemma findColumnIndex_found (headers possibleNames : list string) :
  findColumnIndex headers possibleNames <> (-1)%Z ->
  exists before name after,
    possibleNames = (before ++ name :: after)%list
    /\ (forall n, In n before -> absent headers n)
    /\ (0 <= findColumnIndex headers possibleNames < Z.of_nat (List.length headers))%Z
    /\ names name (nth (Z.to_nat (findColumnIndex headers possibleNames)) headers "") = true
    /\ forall j, j < Z.to_nat (findColumnIndex headers possibleNames) ->
                 names name (nth j headers "") = false.
Proof.
  induction possibleNames as [|n ns IH]; cbn [findColumnIndex].
  - intros H. now destruct H.
  - unfold findIndex.
    destruct (Z.eqb_spec (findIndexFrom (fun h => includes h (toLowerCase n)) 0 headers) (-1))
      as [E|E]; cbn [negb].
    + intros H. destruct (IH H) as (before & name & after & -> & Hb & R).
      exists (n :: before), name, after. split; [reflexivity|]. split; [|exact R].
      intros n' [<-|Hn]; [|auto].
      exact (proj1 (findIndexFrom_none _ 0 headers ltac:(lia)) E).
    + intros _. exists [], n, ns. split; [reflexivity|]. split; [intros n' []|].
      destruct (findIndexFrom_found _ 0 headers "" ltac:(lia) E) as (B & P & F).
      rewrite Z.sub_0_r in P, F. split; [lia|]. split; [exact P | exact F].
Qed.

(** X14. The contract of the column lookup.  Either no header contains any
    of the candidate names (in lower case) and the result is [-1]; or the
    result is the index of a header, namely the first header that contains
    the first candidate name that some header contains.  The order of the
    names decides before the order of the columns. *)
Theorem findColumnIndex_contract (headers possibleNames : list string) :
  (findColumnIndex headers possibleNames = (-1)%Z
   /\ forall name, In name possibleNames -> absent headers name)
  \/ exists before name after,
       possibleNames = (before ++ name :: after)%list
       /\ (forall n, In n before -> absent headers n)
       /\ (0 <= findColumnIndex headers possibleNames < Z.of_nat (List.length headers))%Z
       /\ names name (nth (Z.to_nat (findColumnIndex headers possibleNames)) headers "") = true
       /\ forall j, j < Z.to_nat (findColumnIndex headers possibleNames) ->
                    names name (nth j headers "") = false.
Proof.
  destruct (Z.eq_dec (findColumnIndex headers possibleNames) (-1)) as [E|E].
  - left. split; [exact E|]. now apply findColumnIndex_none.
  - right. now apply findColumnIndex_found.
Qed.

(** ** Substrings *)

Lemma startsWith_iff (s k : string) :
  startsWith s k = true <-> exists b, s = k ++ b.
Proof.
  revert s. induction k as [|a k IH]; intros s.
  - split; [intros _; exists s; reflexivity|]. intros _. destruct s; reflexivity.
  - destruct s as [|c s]; cbn [startsWith append].
    + split; [discriminate | intros [b H]; discriminate].
    + rewrite andb_true_iff, IH. split.
      * intros [E [b ->]]. apply Ascii.eqb_eq in E. subst c. eauto.
      * intros [b [= -> ->]]. rewrite Ascii.eqb_refl. eauto.
Qed.

Lemma includes_iff (s k : string) :
  includes s k = true <-> exists a b, s = a ++ k ++ b.
Proof.
  induction s as [|c s IH]; cbn [includes].
  - rewrite orb_false_r, startsWith_iff. split.
    + intros [b H]. exists "", b. exact H.
    + intros (a & b & H). destruct a; [eauto | discriminate].
  - rewrite orb_true_iff, startsWith_iff, IH. split.
    + intros [[b H]|(a & b & ->)].
      * exists "", b. exact H.
      * exists (String c a), b. reflexivity.
    + intros ([|c' a] & b & H); cbn [append] in H.
      * left. eauto.
      * right. injection H as -> ->. eauto.
Qed.

Lemma includes_trans (s k k' : string) :
  includes s k = true -> includes k k' = true -> includes s k' = true.
Proof.
  rewrite !includes_iff. intros (a & b & ->) (a' & b' & ->).
  exists (a ++ a'), (b' ++ b). now rewrite !string_app_assoc.
Qed.

(** ** The transaction assembler: columns and fields *)

Lemma findIndexFrom_first {A} (p : A -> bool) (i : Z) (a : list A) (d : A) (k : nat) :
  k < List.length a -> p (nth k a d) = true ->
  (forall j, j < k -> p (nth j a d) = false) ->
  findIndexFrom p i a = (i + Z.of_nat k)%Z.
Proof.
  revert i k. induction a as [|x a IH]; intros i k Hk Hp Hf; cbn [List.length] in Hk;
    [lia|].
  cbn [findIndexFrom]. destruct k as [|k].
  - cbn in Hp. rewrite Hp. lia.
  - pose proof (Hf 0 ltac:(lia)) as H0. cbn [nth] in H0, Hp. rewrite H0.
    rewrite (IH (i + 1)%Z k); [lia | lia | exact Hp |].
    intros j Hj. apply (Hf (S j)). lia.
Qed.

Lemma findColumnIndex_first (headers : list string) (name : string)
      (others : list string) (k : nat) :
  k < List.length headers -> names name (nth k headers "") = true ->
  (forall j, j < k -> names name (nth j headers "") = false) ->
  findColumnIndex headers (name :: others) = Z.of_nat k.
Proof.
  intros Hk Hp Hf. cbn [findColumnIndex]. unfold findIndex.
  rewrite (findIndexFrom_first (fun h => includes h (toLowerCase name)) 0 headers "" k Hk Hp Hf).
  destruct (Z.eqb_spec (0 + Z.of_nat k) (-1)); [lia|]. cbn. lia.
Qed.

Lemma findColumnIndex_skip (headers : list string) (name : string)
      (others : list string) :
  absent headers name ->
  findColumnIndex headers (name :: others) = findColumnIndex headers others.
Proof.
  intros H. cbn [findColumnIndex]. unfold findIndex.
  rewrite (proj2 (findIndexFrom_none (fun h => includes h (toLowerCase name)) 0 headers
                    ltac:(lia)) H).
  reflexivity.
Qed.

(** X15. Missing columns.  In every transaction assembled from a table, a
    field whose candidate names occur in no header (lower-cased and trimmed)
    is blank: the book date, the reference and the description are the empty
    string and the value date is absent; the closing balance is absent
    exactly when no header contains [balance]. *)
Theorem parseTableData_missing_columns
        (headers : list string) (rows : list (list string)) (t : ParsedTransaction) :
  In t (transactions (parseTableData headers rows)) ->
  (absent (normalizedHeaders headers) "book date" ->
   absent (normalizedHeaders headers) "date" -> bookDate t = "")
  /\ (absent (normalizedHeaders headers) "value date" -> valueDate t = None)
  /\ (absent (normalizedHeaders headers) "reference" ->
      absent (normalizedHeaders headers) "ref" -> reference t = "")
  /\ (absent (normalizedHeaders headers) "description" ->
      absent (normalizedHeaders headers) "details" ->
      absent (normalizedHeaders headers) "narration" -> description t = "")
  /\ (closingBalance t = None <-> absent (normalizedHeaders headers) "balance").
Proof.
  unfold parseTableData. cbn [transactions]. fold (normalizedHeaders headers).
  intros H. apply in_map_iff in H. destruct H as (row & <- & _).
  unfold assemble. cbn [bookDate valueDate reference description closingBalance].
  repeat split.
  - intros A1 A2. now rewrite !findColumnIndex_skip.
  - intros A1. now rewrite !findColumnIndex_skip.
  - intros A1 A2. now rewrite !findColumnIndex_skip.
  - intros A1 A2 A3. now rewrite !findColumnIndex_skip.
  - intros H.
    destruct (Z.eqb_spec (findColumnIndex (normalizedHeaders headers) ["balance"]) (-1))
      as [E|E]; [|discriminate].
    apply (proj1 (findColumnIndex_none _ _) E). now left.
  - intros A. now rewrite findColumnIndex_skip.
Qed.

Lemma parseTableData_missing_columns_witness :
  let t := assemble 0 (-1) (-1) (-1) 1 (-1) (-1) ["01/03/2024"; "-5.00"] in
  reference t = "" /\ closingBalance t = None.
Proof.
  cbn zeta.
  destruct (parseTableData_missing_columns ["Date"; "Debit"] [["01/03/2024"; "-5.00"]]
              (assemble 0 (-1) (-1) (-1) 1 (-1) (-1) ["01/03/2024"; "-5.00"]))
    as (_ & _ & R & _ & B).
  - left. reflexivity.
  - split.
    + apply R; intros h [<-|[<-|[]]]; reflexivity.
    + apply B. intros h [<-|[<-|[]]]; reflexivity.
Defined.

(** X16. Without a credit column the credit is read from the description.
    If no header contains [credit], the header at index [k] contains
    [description] and no header before it contains [cr], then for every row
    the description is the trimmed cell [k] and the credit is the amount read
    from that same text (or from the whole row joined by spaces, when the
    fallback for a row whose debit and credit are both zero applies): the
    candidate name [cr] is found inside the word [description]. *)
Theorem credit_read_from_description
        (headers : list string) (rows : list (list string)) (k : nat)
        (t : ParsedTransaction) :
  absent (normalizedHeaders headers) "credit" ->
  k < List.length headers ->
  names "description" (nth k (normalizedHeaders headers) "") = true ->
  (forall j, j < k -> names "cr" (nth j (normalizedHeaders headers) "") = false) ->
  In t (transactions (parseTableData headers rows)) ->
  exists row, In row rows
    /\ description t = trim (nth k row "")
    /\ (credit t = parseAmount (description t)
        \/ credit t = parseAmount (join " " row)).
Proof.
  intros Hc Hk Hd Hcr. unfold parseTableData. cbn [transactions].
  fold (normalizedHeaders headers).
  assert (Lh : k < List.length (normalizedHeaders headers))
    by (unfold normalizedHeaders; now rewrite length_map).
  assert (Ed : findColumnIndex (normalizedHeaders headers)
                 ["description"; "details"; "narration"] = Z.of_nat k).
  { apply findColumnIndex_first; auto.
    intros j Hj. destruct (names "description" (nth j (normalizedHeaders headers) "")) eqn:E;
      [|reflexivity].
    rewrite <- (Hcr j Hj). symmetry. unfold names in *.
    apply (includes_trans _ _ _ E). reflexivity. }
  assert (Ec : findColumnIndex (normalizedHeaders headers)
                 ["credit"; "cr"; "deposit"] = Z.of_nat k).
  { rewrite findColumnIndex_skip by assumption.
    apply findColumnIndex_first; auto.
    unfold names in *. apply (includes_trans _ _ _ Hd). reflexivity. }
  rewrite Ed, Ec. intros H. apply in_map_iff in H. destruct H as (row & <- & Hrow).
  exists row. split; [exact Hrow|].
  unfold assemble. cbn [description credit].
  set (cell := if (0 <=? Z.of_nat k)%Z && (Z.of_nat k <? Z.of_nat (List.length row))%Z
               then trim (at_ row (Z.of_nat k)) else "").
  assert (Ecell : cell = trim (nth k row "")).
  { unfold cell, at_. destruct (Z.ltb_spec (Z.of_nat k) 0) as [C|C]; [lia|].
    rewrite Nat2Z.id.
    destruct (Z.leb_spec 0 (Z.of_nat k)); [|lia]. cbn [andb].
    destruct (Z.ltb_spec (Z.of_nat k) (Z.of_nat (List.length row))); [reflexivity|].
    rewrite nth_overflow by lia. reflexivity. }
  split; [exact Ecell|].
  match goal with |- context [if ?b then _ else _] => destruct b end; auto.
Qed.

Lemma credit_read_from_description_witness :
  exists row, In row [["01/03/2024"; "Invoice 2024"; "5.00"]]
    /\ description (assemble 0 (-1) (-1) 1 2 1 (-1) ["01/03/2024"; "Invoice 2024"; "5.00"])
       = trim (nth 1 row "")
    /\ (credit (assemble 0 (-1) (-1) 1 2 1 (-1) ["01/03/2024"; "Invoice 2024"; "5.00"])
        = parseAmount
            (description (assemble 0 (-1) (-1) 1 2 1 (-1)
                                   ["01/03/2024"; "Invoice 2024"; "5.00"]))
        \/ credit (assemble 0 (-1) (-1) 1 2 1 (-1) ["01/03/2024"; "Invoice 2024"; "5.00"])
           = parseAmount (join " " row)).
Proof.
  apply (credit_read_from_description ["Date"; "Description"; "Debit"]
           [["01/03/2024"; "Invoice 2024"; "5.00"]] 1).
  - intros h [<-|[<-|[<-|[]]]]; reflexivity.
  - cbn. lia.
  - reflexivity.
  - intros [|j] Hj; [reflexivity | lia].
  - left. reflexivity.
Defined.

(** ** The continuation merger, row by row *)

Section Merger.
Variables descriptionIndex debitIndex creditIndex balanceIndex : Z.

(** A dated row opens a block, which takes the rows up to the next dated
    row. *)
Lemma groupRows_dated (row : list string) (rest groupedRows : list (list string)) :
  hasDate row = true ->
  groupRows descriptionIndex debitIndex creditIndex balanceIndex (row :: rest) groupedRows
  = groupRows descriptionIndex debitIndex creditIndex balanceIndex (snd (absorbRows descriptionIndex debitIndex creditIndex balanceIndex rest row)) (groupedRows ++ [fst (absorbRows descriptionIndex debitIndex creditIndex balanceIndex rest row)])%list.
Proof.
  intros H. cbn [groupRows]. rewrite H. clear H.
  revert row. induction rest as [|nextRow following IH]; intros block.
  - reflexivity.
  - cbn [absorbRows]. cbv beta iota fix. fold groupRows.
    destruct (hasDate nextRow) eqn:E.
    + reflexivity.
    + apply IH.
Qed.

Lemma groupRows_undated (row : list string) (rest groupedRows : list (list string)) :
  hasDate row = false ->
  groupRows descriptionIndex debitIndex creditIndex balanceIndex (row :: rest) groupedRows
  = groupRows descriptionIndex debitIndex creditIndex balanceIndex rest (if (0 <? List.length groupedRows)%nat
                then updateLast (fun prev => mergeDescription descriptionIndex prev row)
                                groupedRows
                else groupedRows).
Proof.
  intros H. cbn [groupRows]. rewrite H.
  destruct (0 <? List.length groupedRows)%nat; reflexivity.
Qed.

Lemma absorbRows_remaining (following : list (list string)) (block : list string) :
  List.length (snd (absorbRows descriptionIndex debitIndex creditIndex balanceIndex following block)) <= List.length following
  /\ List.length (filter hasDate (snd (absorbRows descriptionIndex debitIndex creditIndex balanceIndex following block)))
     = List.length (filter hasDate following)
  /\ (Forall (fun r => hasDate r = true) following ->
      absorbRows descriptionIndex debitIndex creditIndex balanceIndex following block = (block, following)).
Proof.
  revert block. induction following as [|nextRow following IH]; intros block;
    cbn [absorbRows].
  - cbn. auto.
  - destruct (hasDate nextRow) eqn:E.
    + cbn [snd]. split; [lia|]. split; [reflexivity|]. intros _. reflexivity.
    + destruct (IH (absorbRow descriptionIndex debitIndex creditIndex balanceIndex
                              block nextRow)) as (L & F & _).
      cbn [List.length filter]. rewrite E. repeat split; [lia | exact F |].
      intros A. inversion A; congruence.
Qed.

Lemma updateLast_length {A} (f : A -> A) (l : list A) :
  List.length (updateLast f l) = List.length l.
Proof.
  unfold updateLast. rewrite <- (length_rev l).
  destruct (rev l) as [|x before]; [reflexivity|].
  rewrite length_app, length_rev. cbn. lia.
Qed.

Lemma groupRows_length (rows groupedRows : list (list string)) :
  List.length (groupRows descriptionIndex debitIndex creditIndex balanceIndex rows groupedRows)
  = List.length groupedRows + List.length (filter hasDate rows).
Proof.
  remember (List.length rows) as n eqn:Hn.
  assert (Hle : List.length rows <= n) by lia. clear Hn.
  revert rows groupedRows Hle. induction n as [|n IH]; intros rows groupedRows Hle.
  - destruct rows; [cbn; lia | cbn in Hle; lia].
  - destruct rows as [|row rest]; [cbn; lia|]. cbn [List.length] in Hle.
    destruct (hasDate row) eqn:E.
    + rewrite groupRows_dated by assumption.
      destruct (absorbRows_remaining rest row) as (L & F & _).
      rewrite IH by lia. rewrite length_app, F. cbn [filter List.length]. rewrite E.
      cbn [List.length]. lia.
    + rewrite groupRows_undated by assumption. rewrite IH by lia.
      cbn [filter]. rewrite E.
      destruct (0 <? List.length groupedRows)%nat; [|reflexivity].
      now rewrite updateLast_length.
Qed.

(** Rows come out in blocks appended to the rows pushed before; when no
    row has been pushed, undated rows are dropped. *)
Lemma groupRows_leading (leading rows : list (list string)) :
  Forall (fun r => hasDate r = false) leading ->
  groupRows descriptionIndex debitIndex creditIndex balanceIndex (leading ++ rows) [] = groupRows descriptionIndex debitIndex creditIndex balanceIndex rows [].
Proof.
  induction 1 as [|r leading Hr _ IH]; [reflexivity|].
  cbn [app]. now rewrite groupRows_undated.
Qed.

Lemma groupRows_all_dated (rows groupedRows : list (list string)) :
  Forall (fun r => hasDate r = true) rows ->
  groupRows descriptionIndex debitIndex creditIndex balanceIndex rows groupedRows = (groupedRows ++ rows)%list.
Proof.
  intros H. revert groupedRows.
  induction H as [|row rest Hrow Hrest IH]; intros groupedRows.
  - cbn. now rewrite app_nil_r.
  - rewrite groupRows_dated by assumption.
    destruct (absorbRows_remaining rest row) as (_ & _ & R). rewrite (R Hrest).
    cbn [fst snd]. rewrite IH, <- app_assoc. reflexivity.
Qed.

End Merger.

(** X17. The merger yields exactly one logical row for each physical row
    that has a date in its first cell. *)
Theorem groupRows_one_per_dated_row
        (descriptionIndex debitIndex creditIndex balanceIndex : Z)
        (rows : list (list string)) :
  List.length (groupRows descriptionIndex debitIndex creditIndex balanceIndex rows [])
  = List.length (filter hasDate rows).
Proof. now rewrite groupRows_length. Qed.

(** X18. Rows that come before the first dated row are dropped: they are
    merged into no block. *)
Theorem groupRows_drops_leading_rows
        (descriptionIndex debitIndex creditIndex balanceIndex : Z)
        (leading rows : list (list string)) :
  Forall (fun r => hasDate r = false) leading ->
  groupRows descriptionIndex debitIndex creditIndex balanceIndex (leading ++ rows) []
  = groupRows descriptionIndex debitIndex creditIndex balanceIndex rows [].
Proof. apply groupRows_leading. Qed.

Lemma groupRows_drops_leading_rows_witness :
  groupRows 2 3 4 5 ([["Carried forward"; ""; "1,000.00"]] ++ [paymentRow; salaryRow]) []
  = groupRows 2 3 4 5 [paymentRow; salaryRow] [].
Proof.
  apply groupRows_drops_leading_rows. constructor; [reflexivity | constructor].
Defined.

(** X19. When every row has a date in its first cell the merger returns
    the rows as they are. *)
Theorem groupRows_dated_rows_unchanged
        (descriptionIndex debitIndex creditIndex balanceIndex : Z)
        (rows : list (list string)) :
  Forall (fun r => hasDate r = true) rows ->
  groupRows descriptionIndex debitIndex creditIndex balanceIndex rows [] = rows.
Proof. intros H. now rewrite groupRows_all_dated. Qed.

Lemma groupRows_dated_rows_unchanged_witness :
  groupRows 2 3 4 5 [paymentRow; salaryRow] [] = [paymentRow; salaryRow].
Proof.
  apply groupRows_dated_rows_unchanged.
  constructor; [reflexivity|]. constructor; [reflexivity | constructor].
Defined.

(** ** The header search *)

Lemma findHeaderFrom_max (i : Z) (rows : list (list string)) (st : nat * Z) :
  fst st <= fst (findHeaderFrom i rows st)
  /\ (forall row, In row rows -> rowScore row <= fst (findHeaderFrom i rows st))
  /\ (findHeaderFrom i rows st = st
      \/ exists k, k < List.length rows
           /\ snd (findHeaderFrom i rows st) = (i + Z.of_nat k)%Z
           /\ rowScore (nth k rows []) = fst (findHeaderFrom i rows st)
           /\ fst st < fst (findHeaderFrom i rows st)
           /\ forall j, j < k -> rowScore (nth j rows []) < fst (findHeaderFrom i rows st)).
Proof.
  revert i st. induction rows as [|row rows IH]; intros i st; cbn [findHeaderFrom].
  - split; [lia|]. split; [intros row []|]. now left.
  - set (st' := if (fst st <? rowScore row)%nat then (rowScore row, i) else st).
    destruct (IH (i + 1)%Z st') as (M & A & C).
    set (r := findHeaderFrom (i + 1) rows st') in *.
    assert (S1 : fst st <= fst st' /\ rowScore row <= fst st').
    { unfold st'. destruct (Nat.ltb_spec (fst st) (rowScore row)); cbn [fst]; lia. }
    split; [lia|]. split.
    { intros x [<-|Hx]; [lia | auto]. }
    destruct (Nat.ltb_spec (fst st) (rowScore row)) as [U|U]; subst st'; cbn [fst] in *.
    + right. destruct C as [E|(k & Hk & E1 & E2 & E3 & E4)].
      * exists 0. fold r. rewrite E. cbn [fst snd nth List.length].
        split; [lia|]. split; [lia|]. split; [reflexivity|]. split; [lia|].
        intros j Hj. lia.
      * exists (S k). fold r. cbn [nth List.length].
        split; [lia|]. split; [lia|]. split; [exact E2|]. split; [lia|].
        intros [|j] Hj; [lia | apply E4; lia].
    + destruct C as [E|(k & Hk & E1 & E2 & E3 & E4)].
      * left. exact E.
      * right. exists (S k). fold r. cbn [nth List.length].
        split; [lia|]. split; [lia|]. split; [exact E2|]. split; [lia|].
        intros [|j] Hj; [lia | apply E4; lia].
Qed.

Lemma findHeader_cases (rows : list (list string)) :
  (findHeader rows = (O, (-1)%Z)
   /\ forall row, In row (firstn 10 rows) -> rowScore row = O)
  \/ exists k,
       findHeader rows = (rowScore (nth k rows []), Z.of_nat k)
       /\ k < Nat.min 10 (List.length rows)
       /\ 0 < rowScore (nth k rows [])
       /\ (forall j, j < Nat.min 10 (List.length rows) ->
                     rowScore (nth j rows []) <= rowScore (nth k rows []))
       /\ (forall j, j < k -> rowScore (nth j rows []) < rowScore (nth k rows [])).
Proof.
  unfold findHeader. set (limit := Nat.min 10 (List.length rows)).
  assert (Ll : List.length (firstn limit rows) = limit).
  { rewrite length_firstn. unfold limit. lia. }
  assert (Nf : forall j, j < limit -> nth j (firstn limit rows) [] = nth j rows []).
  { intros j Hj. rewrite nth_firstn. destruct (Nat.ltb_spec j limit); [reflexivity | lia]. }
  destruct (findHeaderFrom_max 0 (firstn limit rows) (O, (-1)%Z)) as (_ & A & C).
  destruct C as [E|(k & Hk & E1 & E2 & E3 & E4)].
  - left. split; [exact E|]. intros row Hrow.
    rewrite <- (firstn_min_length 10 rows) in Hrow. fold limit in Hrow.
    specialize (A row Hrow). rewrite E in A. cbn [fst] in A. lia.
  - right. exists k. rewrite Ll in Hk.
    set (r := findHeaderFrom 0 (firstn limit rows) (O, (-1)%Z)) in *.
    rewrite (Nf k Hk) in E2. cbn [fst] in E3.
    split; [|split; [exact Hk|split; [lia|split]]].
    + destruct r as [score idx]. cbn [fst snd] in *. subst. f_equal.
    + intros j Hj. rewrite E2, <- (Nf j Hj). apply A. apply nth_In. now rewrite Ll.
    + intros j Hj. rewrite E2, <- (Nf j) by lia. now apply E4.
Qed.

(** X20. The header row of a table is the first of the rows with the
    highest keyword score among the first ten rows; rows beyond the tenth
    are not looked at.  When none of these rows scores, there is no header
    (index [-1]) and the best score is 0. *)
Theorem findHeader_first_best_row (rows : list (list string)) :
  (findHeader rows = (O, (-1)%Z)
   /\ forall row, In row (firstn 10 rows) -> rowScore row = O)
  \/ exists k,
       findHeader rows = (rowScore (nth k rows []), Z.of_nat k)
       /\ k < Nat.min 10 (List.length rows)
       /\ 0 < rowScore (nth k rows [])
       /\ (forall j, j < Nat.min 10 (List.length rows) ->
                     rowScore (nth j rows []) <= rowScore (nth k rows []))
       /\ (forall j, j < k -> rowScore (nth j rows []) < rowScore (nth k rows [])).
Proof. apply findHeader_cases. Qed.

(** ** The table-document extractor *)

(** X21. The rule behind the rejection of documents without header
    keywords, for every document: when none of the first ten rows of any
    table contains a header keyword, [parseWord] fails with the message
    [No transactions found across tables], whatever the rows hold. *)
Theorem parseWord_without_keywords
        (readDocument : list Byte.byte -> result (option Document))
        (file : File) (tblEls : Document) :
  readDocument (content file) = Ok (Some tblEls) ->
  tblEls <> [] -> Forall scoreless tblEls ->
  parseWord readDocument file = Err "No transactions found across tables".
Proof.
  intros Hread Hne Hall. unfold parseWord. rewrite Hread.
  now apply parseTables_scoreless.
Qed.

Lemma parseWord_without_keywords_witness :
  parseWord (fun _ => Ok (Some plainDocument)) (mkFile "" "lunch.docx" [])
  = Err "No transactions found across tables".
Proof.
  apply (parseWord_without_keywords _ _ plainDocument).
  - reflexivity.
  - discriminate.
  - constructor; [|constructor].
    intros row H. cbn in H. destruct H as [<-|[<-|[]]]; reflexivity.
Defined.

(** What the scan keeps: the chosen header is a row of the document that
    carries a keyword, and rows are merged only once a header is chosen;
    the merged rows are rows of the document. *)
Lemma scanTables_invariant (tblEls : Document) :
  (mergedRows (scanTables tblEls) = []
   \/ exists row, In row (textRows tblEls) /\ 0 < rowScore row
                  /\ chosenHeaders (scanTables tblEls) = map trim row)
  /\ forall r, In r (mergedRows (scanTables tblEls)) -> In r (textRows tblEls).
Proof.
  unfold scanTables.
  assert (Inv : forall l st,
            (forall tbl, In tbl l -> In tbl tblEls) ->
            ((mergedRows st = [] /\ chosenHeaders st = []
              \/ exists row, In row (textRows tblEls) /\ 0 < rowScore row
                             /\ chosenHeaders st = map trim row)
             /\ forall r, In r (mergedRows st) -> In r (textRows tblEls)) ->
            let st' := fold_left scanTable l st in
            (mergedRows st' = [] /\ chosenHeaders st' = []
             \/ exists row, In row (textRows tblEls) /\ 0 < rowScore row
                            /\ chosenHeaders st' = map trim row)
            /\ forall r, In r (mergedRows st') -> In r (textRows tblEls)).
  { induction l as [|tbl l IH]; intros st Hl H; cbn [fold_left]; [exact H|].
    apply IH; [intros t Ht; apply Hl; now right|].
    assert (Htbl : forall row, In row (map (map getCellText) tbl) ->
                               In row (textRows tblEls)).
    { intros row Hrow. unfold textRows. apply in_flat_map. exists tbl.
      split; [apply Hl; now left | exact Hrow]. }
    destruct H as [H1 H2]. unfold scanTable.
    set (rows := map (map getCellText) tbl) in *.
    destruct (List.length rows =? 0)%nat; [now split|].
    destruct (findHeader_cases rows) as [[E _]|(k & E & Hk & Hs & _)];
      rewrite E.
    - cbn. now split.
    - destruct (Z.eqb_spec (Z.of_nat k) (-1)) as [C|_]; [lia|].
      rewrite Nat2Z.id.
      assert (Hin : In (nth k rows []) (textRows tblEls)).
      { apply Htbl. apply nth_In. lia. }
      split.
      + right.
        destruct ((List.length (chosenHeaders st) =? 0)%nat
                  || (globalBestScore st <? rowScore (nth k rows []))%nat) eqn:B;
          cbn [chosenHeaders].
        * exists (nth k rows []). auto.
        * destruct H1 as [[_ H1]|H1]; [|exact H1].
          rewrite H1 in B. discriminate.
      + destruct ((List.length (chosenHeaders st) =? 0)%nat
                  || (globalBestScore st <? rowScore (nth k rows []))%nat);
          cbn [mergedRows]; intros r Hr; apply in_app_or in Hr;
          (destruct Hr as [Hr|Hr]; [now apply H2|]);
          apply filter_In in Hr; destruct Hr as [Hr _];
          apply Htbl;
          rewrite <- (firstn_skipn (Z.to_nat (Z.of_nat k + 1)) rows);
          apply in_or_app; now right. }
  destruct (Inv tblEls (mkScan [] [] O)) as [[[H _]|H] H2]; auto.
  cbn. split; [now left | intros r []].
Qed.

(** X22. The headers returned by [parseWord] always come from the
    document: they are the cells of a row that contains at least one header
    keyword, each trimmed and with its white space collapsed.  The generic
    labels [Column N] are never returned. *)
Theorem parseWord_headers_from_document
        (readDocument : list Byte.byte -> result (option Document))
        (file : File) (tblEls : Document) (table : ParsedTable) :
  readDocument (content file) = Ok (Some tblEls) ->
  parseWord readDocument file = Ok table ->
  exists row, In row (textRows tblEls) /\ 0 < rowScore row
              /\ headers table = map (fun c => trim (collapseSpaces (trim c))) row.
Proof.
  intros Hread. unfold parseWord. rewrite Hread. unfold parseTables.
  destruct (List.length tblEls =? 0)%nat; [discriminate|].
  destruct (scanTables_invariant tblEls) as [[Hm|(row & Hin & Hs & Hc)] _].
  { rewrite Hm. discriminate. }
  destruct (List.length (mergedRows (scanTables tblEls)) =? 0)%nat; [discriminate|].
  rewrite Hc. intros [= <-]. exists row. split; [exact Hin|]. split; [exact Hs|].
  unfold parseTableData. cbn [headers].
  destruct row as [|c row]; [cbn in Hs; lia|].
  cbn [map List.length Nat.eqb]. now rewrite map_map.
Qed.

Lemma parseWord_headers_from_document_witness :
  exists row, In row (textRows statementDocument) /\ 0 < rowScore row
              /\ statementHeader = map (fun c => trim (collapseSpaces (trim c))) row.
Proof.
  apply (parseWord_headers_from_document
           (fun _ => Ok (Some statementDocument)) (mkFile "" "statement.docx" [])
           statementDocument (mkTable statementHeader [shopRow] [shopTransaction]));
    reflexivity.
Defined.

Lemma hasDate_tabulate (n : nat) (r : list string) :
  test dateRegex (trim (nth 0 r "")) = false ->
  hasDate (tabulate n (fun i => trim (nth i r ""))) = false.
Proof.
  intros H. unfold hasDate, at_, tabulate. cbn [Z.ltb Z.compare Z.to_nat].
  destruct n as [|n]; [reflexivity|]. cbn [seq map nth]. exact H.
Qed.

Lemma no_dates_no_rows
        (readDocument : list Byte.byte -> result (option Document))
        (file : File) (tblEls : Document) (table : ParsedTable) :
  readDocument (content file) = Ok (Some tblEls) ->
  parseWord readDocument file = Ok table ->
  (forall row, In row (textRows tblEls) ->
               test dateRegex (trim (nth 0 row "")) = false) ->
  rows table = [] /\ transactions table = [].
Proof.
  intros Hread. unfold parseWord. rewrite Hread. unfold parseTables.
  destruct (List.length tblEls =? 0)%nat; [discriminate|].
  destruct (List.length (mergedRows (scanTables tblEls)) =? 0)%nat; [discriminate|].
  intros [= <-] Hall.
  destruct (scanTables_invariant tblEls) as [_ Hm].
  match goal with
  | |- context [groupRows ?d ?a ?b ?c ?p []] =>
      assert (E : groupRows d a b c p [] = [])
  end.
  { match goal with |- groupRows _ _ _ _ ?p [] = [] => rewrite <- (app_nil_r p) end.
    rewrite groupRows_leading; [reflexivity|].
    apply Forall_forall. intros p Hp. apply in_map_iff in Hp.
    destruct Hp as (r & <- & Hr). apply hasDate_tabulate. auto. }
  rewrite E. cbn. split; reflexivity.
Qed.

(** X23. A document in which no row has a date in its first cell, when it
    is not rejected for want of a header, is parsed into a table with no row
    and no transaction. *)
Theorem parseWord_without_dates
        (readDocument : list Byte.byte -> result (option Document))
        (file : File) (tblEls : Document) (table : ParsedTable) :
  readDocument (content file) = Ok (Some tblEls) ->
  parseWord readDocument file = Ok table ->
  (forall row, In row (textRows tblEls) ->
               test dateRegex (trim (nth 0 row "")) = false) ->
  rows table = [] /\ transactions table = [].
Proof. apply no_dates_no_rows. Qed.

Lemma parseWord_without_dates_witness :
  rows (parseTableData ["Date"; "Debit"] []) = []
  /\ transactions (parseTableData ["Date"; "Debit"] []) = [].
Proof.
  apply (parseWord_without_dates
           (fun _ => Ok (Some [ [ [["Date"]; ["Debit"]]; [["yesterday"]; ["12.50"]] ] ]))
           (mkFile "" "statement.docx" [])
           [ [ [["Date"]; ["Debit"]]; [["yesterday"]; ["12.50"]] ] ]).
  - reflexivity.
  - reflexivity.
  - intros row H. cbn in H. destruct H as [<-|[<-|[]]]; reflexivity.
Defined.

(** ** The dispatcher: what is returned *)

Lemma findIndexHoles_dense (name : string) (i : Z) (a : list string) :
  findIndexHoles name i (map Some a)
  = Ok (findIndexFrom (fun h => includes h name) i a).
Proof.
  revert i. induction a as [|h a IH]; intros i; cbn; [reflexivity|].
  destruct (includes h name); [reflexivity | apply IH].
Qed.

Lemma findColumnIndexHoles_dense (headers possibleNames : list string) :
  findColumnIndexHoles (map Some headers) possibleNames
  = Ok (findColumnIndex headers possibleNames).
Proof.
  induction possibleNames as [|name names IH]; cbn [findColumnIndexHoles findColumnIndex];
    [reflexivity|].
  rewrite findIndexHoles_dense. cbn [andThen]. unfold findIndex.
  destruct (negb (_ =? -1)%Z); [reflexivity | apply IH].
Qed.

(** On arrays without a hole the table of a sheet is assembled as every
    other table is. *)
Lemma parseSheetData_dense (headers : list string) (rows : list (list string)) :
  parseSheetData (map Some headers) (map (map Some) rows)
  = Ok (parseTableData headers rows).
Proof.
  assert (M : forall l : list string, map orEmpty (map Some l) = l).
  { intros l. rewrite map_map. cbn. apply map_id. }
  unfold parseSheetData, parseTableData, mapCells.
  rewrite (map_map Some). cbn [option_map].
  rewrite <- (map_map (fun h => trim (toLowerCase h)) Some).
  rewrite !findColumnIndexHoles_dense. cbn [andThen].
  rewrite M. rewrite (map_map (map Some)).
  rewrite (map_ext _ (fun l => l) M), map_id. reflexivity.
Qed.

Lemma parseSheetData_length (hs : list (option string))
      (rs : list (list (option string))) (table : ParsedTable) :
  parseSheetData hs rs = Ok table ->
  List.length (transactions table) = List.length (rows table).
Proof.
  unfold parseSheetData.
  repeat match goal with
  | |- andThen ?r _ = _ -> _ => destruct r; cbn [andThen]; [|discriminate]
  end.
  intros [= <-]. cbn [transactions rows]. apply length_map.
Qed.

Lemma parseFile_shape
        (readBuffer : list Byte.byte -> result (list Byte.byte))
        (readDocument : list Byte.byte -> result (option Document))
        (readSheet : list Byte.byte -> result (list (list (option SheetValue))))
        (file : File) (table : ParsedTable) :
  parseFile readBuffer readDocument readSheet file = Ok table ->
  List.length (transactions table) = List.length (rows table).
Proof.
  assert (P : forall h r, List.length (transactions (parseTableData h r))
                          = List.length (rows (parseTableData h r))).
  { intros h r. unfold parseTableData. cbn [transactions rows]. apply length_map. }
  unfold parseFile.
  destruct ((type file =? "application/pdf") || endsWith (toLowerCase (name file)) ".pdf").
  { unfold parsePDF, pdfParse. destruct (readBuffer (content file)); discriminate. }
  destruct ((type file =? "application/vnd.openxmlformats-officedocument.wordprocessingml.document")
            || endsWith (toLowerCase (name file)) ".docx").
  { unfold parseWord. destruct (readDocument (content file)) as [[tblEls|]|msg];
      try discriminate.
    unfold parseTables.
    destruct (List.length tblEls =? 0)%nat; [discriminate|].
    destruct (List.length (mergedRows (scanTables tblEls)) =? 0)%nat; [discriminate|].
    intros [= <-]. apply P. }
  destruct ((type file =? "application/vnd.ms-excel")
            || (type file =? "application/vnd.openxmlformats-officedocument.spreadsheetml.sheet")
            || endsWith (toLowerCase (name file)) ".xls"
            || endsWith (toLowerCase (name file)) ".xlsx"); [|discriminate].
  unfold parseExcel. destruct (readSheet (content file)) as [[|first others]|msg];
    try discriminate.
  apply parseSheetData_length.
Qed.

(** ** Clean texts *)

Lemma cleanFrom_intro (b : bool) (s : string) :
  tidyFrom b s = true -> trimEnd s = s -> isEmpty s = false -> cleanFrom b s = true.
Proof.
  revert b. induction s as [|c s IH]; intros b; [discriminate|].
  cbn [tidyFrom trimEnd cleanFrom]. intros T E _.
  destruct (isSpace c) eqn:Ec; cbn [andb] in E.
  - destruct (isEmpty (trimEnd s)) eqn:E2; [discriminate|]. injection E as E.
    apply andb_true_iff in T. destruct T as [T1 T2]. rewrite T1. cbn [andb].
    apply IH; [assumption | assumption | now rewrite <- E].
  - injection E as E. destruct s as [|c' s']; [reflexivity|]. now apply IH.
Qed.

Lemma cleanFrom_elim (b : bool) (s : string) :
  cleanFrom b s = true -> tidyFrom b s = true /\ trimEnd s = s.
Proof.
  revert b. induction s as [|c s IH]; intros b; cbn [cleanFrom tidyFrom trimEnd].
  - auto.
  - destruct (isSpace c) eqn:Ec; cbn [andb].
    + intros H. apply andb_true_iff in H. destruct H as [H1 H2].
      destruct (IH true H2) as [T E]. rewrite H1, T, E. split; [reflexivity|].
      destruct s; [discriminate H2 | reflexivity].
    + intros H. destruct (IH false H) as [T E]. now rewrite E.
Qed.

Lemma cleanFrom_start (s : string) :
  cleanFrom true s = true -> startsIn notSpace s = true.
Proof.
  destruct s as [|c s]; cbn; [discriminate|]. unfold notSpace.
  destruct (isSpace c); [discriminate | reflexivity].
Qed.

Lemma clean_trim (s : string) : clean s = true -> trim s = s.
Proof.
  unfold clean. destruct s as [|c s]; [reflexivity|]. cbn [isEmpty orb]. intros H.
  unfold trim. rewrite trimStart_id by (now apply cleanFrom_start).
  now apply cleanFrom_elim in H.
Qed.

Lemma clean_collapse (s : string) : clean s = true -> collapseSpaces s = s.
Proof.
  unfold clean. destruct s as [|c s]; [reflexivity|]. cbn [isEmpty orb]. intros H.
  apply collapse_tidy, tidy_weaken. now apply cleanFrom_elim in H.
Qed.

Lemma clean_trim_collapse (t : string) : clean (trim (collapseSpaces t)) = true.
Proof.
  unfold clean. destruct (isEmpty (trim (collapseSpaces t))) eqn:E; [reflexivity|].
  cbn [orb]. apply cleanFrom_intro; [|apply trimEnd_trim | exact E].
  eapply tidy_trim. apply tidy_collapse.
Qed.

Lemma cleanFrom_join (b : bool) (a r : string) :
  cleanFrom b a = true -> cleanFrom true r = true ->
  cleanFrom b (a ++ " " ++ r) = true.
Proof.
  revert b. induction a as [|c a IH]; intros b; cbn [cleanFrom append].
  - intros H Hr. apply negb_true_iff in H. subst b. exact Hr.
  - destruct (isSpace c).
    + intros H Hr. apply andb_true_iff in H. destruct H as [H1 H2].
      rewrite H1. cbn [andb]. now apply IH.
    + intros H Hr. now apply IH.
Qed.

Lemma clean_concat (l : list string) :
  Forall (fun u => cleanFrom true u = true) l -> clean (String.concat " " l) = true.
Proof.
  induction 1 as [|u l Hu Hl IH]; [reflexivity|].
  destruct l as [|v l]; cbn [String.concat].
  - unfold clean. now rewrite Hu, orb_true_r.
  - unfold clean in *. apply orb_true_iff. right.
    apply cleanFrom_join; [assumption|].
    apply orb_true_iff in IH. destruct IH as [IH|IH]; [|exact IH].
    inversion Hl as [|? ? Hv _]; subst. destruct v; [discriminate Hv|].
    destruct l; discriminate IH.
Qed.

(** X24. The text of a cell is clean: no white space at either end, and
    inside only single spaces.  Trimming it or collapsing its white space
    again changes nothing. *)
Theorem getCellText_clean (tc : Cell) :
  clean (getCellText tc) = true
  /\ trim (getCellText tc) = getCellText tc
  /\ collapseSpaces (getCellText tc) = getCellText tc.
Proof.
  assert (C : clean (getCellText tc) = true).
  { unfold getCellText, join. apply clean_concat.
    apply Forall_forall. intros u Hu. apply filter_In in Hu. destruct Hu as [Hu Hne].
    apply in_map_iff in Hu. destruct Hu as (t & <- & _).
    pose proof (clean_trim_collapse t) as H. unfold clean in H.
    apply negb_true_iff in Hne. now rewrite Hne in H. }
  split; [exact C|]. split; [now apply clean_trim | now apply clean_collapse].
Qed.

(** ** The plain-text columnar extractor *)

Lemma forallc_split (p : ascii -> bool) (sep : ascii) (s : string) :
  forallc p s = true -> Forall (fun x => forallc p x = true) (split sep s).
Proof.
  induction s as [|c s IH]; cbn [split forallc]; [repeat constructor|].
  intros H. apply andb_true_iff in H. destruct H as [Hc Hs]. specialize (IH Hs).
  destruct (Ascii.eqb c sep); [constructor; auto|].
  destruct (split sep s) as [|x xs]; [repeat constructor; cbn; now rewrite Hc|].
  inversion IH; subst. constructor; [cbn; now rewrite Hc | assumption].
Qed.

(** X25. A text made of white space only gives no header and no row. *)
Theorem extractTableFromText_blank (text : string) :
  forallc isSpace text = true -> extractTableFromText text = ([], []).
Proof.
  intros H. unfold extractTableFromText.
  assert (E : filter (fun l => negb (isEmpty l)) (map trim (split "010" text)) = []).
  { pose proof (forallc_split isSpace "010" text H) as F.
    induction F as [|x xs Hx _ IH]; [reflexivity|].
    cbn [map filter]. now rewrite (trim_spaces x Hx). }
  now rewrite E.
Qed.

Lemma extractTableFromText_blank_witness :
  extractTableFromText (String "010" (String "009" "  ")) = ([], []).
Proof. apply extractTableFromText_blank. reflexivity. Defined.

Lemma notSpace_not_tab (c : ascii) : isSpace c = false -> Ascii.eqb c "009" = false.
Proof. destruct c as [[] [] [] [] [] [] [] []]; cbn; intros; congruence. Qed.

Lemma tidy_next (s : string) : tidyFrom true s = true -> nextIsSpace s = false.
Proof.
  destruct s as [|c s]; cbn; [reflexivity|]. destruct (isSpace c); [discriminate | auto].
Qed.

(** A single-spaced text is one column. *)
Lemma splitColumnsFrom_tidy (b : bool) (s : string) :
  tidyFrom b s = true -> splitColumnsFrom false s = [s].
Proof.
  revert b. induction s as [|c s IH]; intros b; cbn [tidyFrom splitColumnsFrom];
    [reflexivity|].
  destruct (isSpace c) eqn:Ec; cbn [andb].
  - intros H. apply andb_true_iff in H. destruct H as [H H3].
    apply andb_true_iff in H. destruct H as [_ H2].
    apply Ascii.eqb_eq in H2. subst c.
    rewrite (tidy_next s H3). cbn [Ascii.eqb Bool.eqb andb].
    now rewrite (IH true H3).
  - intros H. rewrite (notSpace_not_tab c Ec). now rewrite (IH false H).
Qed.

Lemma splitColumnsFrom_run (ws r : string) :
  forallc isSpace ws = true -> stopsAt isSpace r = true ->
  splitColumnsFrom true (ws ++ r) = splitColumnsFrom false r.
Proof.
  intros H Hr. induction ws as [|c ws IH]; cbn [append].
  - destruct r as [|c r]; [reflexivity|]. cbn in Hr. apply negb_true_iff in Hr.
    cbn [splitColumnsFrom]. now rewrite Hr.
  - cbn in H. apply andb_true_iff in H. destruct H as [Hc Hs].
    cbn [splitColumnsFrom]. rewrite Hc. cbn [andb]. auto.
Qed.

(** A separator: two or more white-space characters, or a tab. *)
Lemma splitColumnsFrom_separator (ws r : string) :
  forallc isSpace ws = true ->
  2 <= String.length ws \/ ws = String "009" "" ->
  stopsAt isSpace r = true ->
  splitColumnsFrom false (ws ++ r) = "" :: splitColumnsFrom false r.
Proof.
  intros H [L| ->] Hr.
  - destruct ws as [|c [|c' ws]]; cbn in L; try lia.
    cbn in H. apply andb_true_iff in H. destruct H as [Hc H].
    cbn [append splitColumnsFrom nextIsSpace]. rewrite Hc.
    assert (Hc' : isSpace c' = true) by (now apply andb_true_iff in H).
    rewrite Hc'. cbn [andb]. f_equal.
    apply splitColumnsFrom_run; [|assumption]. now apply andb_true_iff in H.
  - cbn [append splitColumnsFrom].
    destruct r as [|c r]; [reflexivity|]. cbn in Hr. apply negb_true_iff in Hr.
    cbn [nextIsSpace]. rewrite Hr. reflexivity.
Qed.

Lemma splitColumnsFrom_prefix (b : bool) (a r x : string) (xs : list string) :
  cleanFrom b a = true -> splitColumnsFrom false r = x :: xs ->
  nextIsSpace r = true ->
  splitColumnsFrom false (a ++ r) = (a ++ x) :: xs.
Proof.
  intros Ha Hr Hn. revert b Ha. induction a as [|c a IH]; intros b Ha.
  - exact Hr.
  - cbn [cleanFrom] in Ha. cbn [append splitColumnsFrom].
    destruct (isSpace c) eqn:Ec; cbn [andb].
    + apply andb_true_iff in Ha. destruct Ha as [Ha H3].
      apply andb_true_iff in Ha. destruct Ha as [_ H2].
      apply Ascii.eqb_eq in H2. subst c.
      assert (N : nextIsSpace (a ++ r) = false).
      { destruct a as [|c' a']; [discriminate H3|]. cbn in H3 |- *.
        destruct (isSpace c'); [discriminate | reflexivity]. }
      rewrite N. cbn [Ascii.eqb Bool.eqb]. now rewrite (IH true H3).
    + rewrite (notSpace_not_tab c Ec). now rewrite (IH false Ha).
Qed.

Lemma clean_no_newline (b : bool) (s : string) :
  tidyFrom b s = true -> existsc (fun c => Ascii.eqb c "010") s = false.
Proof.
  revert b. induction s as [|c s IH]; intros b; cbn [tidyFrom existsc]; [reflexivity|].
  destruct (isSpace c) eqn:Ec.
  - intros H. apply andb_true_iff in H. destruct H as [H H3].
    apply andb_true_iff in H. destruct H as [_ H2].
    apply Ascii.eqb_eq in H2. subst c. cbn. eauto.
  - intros H. rewrite (IH false H), orb_false_r.
    destruct c as [[] [] [] [] [] [] [] []]; cbn in *; congruence.
Qed.

Lemma trimEnd_app_keep (x y : string) :
  trimEnd y = y -> y <> "" -> trimEnd (x ++ y) = x ++ y.
Proof.
  intros E Hy. induction x as [|c x IH]; cbn [append trimEnd]; [exact E|].
  rewrite IH. destruct (x ++ y) eqn:D.
  - destruct x; [now destruct Hy | discriminate D].
  - cbn. now rewrite andb_false_r.
Qed.

(** X26. What separates columns in a line of text: two cells separated by
    one space stay together as one cell; two cells separated by two or more
    white-space characters, or by one tab, are two cells.  (The cells are
    clean texts and the line is the only line of the text, which makes it
    the header line.) *)
Theorem extractTableFromText_columns (a b ws : string) :
  cleanFrom true a = true -> cleanFrom true b = true ->
  forallc isSpace ws = true ->
  existsc (fun c => Ascii.eqb c "010") ws = false ->
  2 <= String.length ws \/ ws = String "009" "" ->
  extractTableFromText (a ++ " " ++ b) = ([a ++ " " ++ b], [])
  /\ extractTableFromText (a ++ ws ++ b) = ([a; b], []).
Proof.
  intros Ha Hb Hws Hnl Hsep.
  destruct (cleanFrom_elim _ _ Ha) as [Ta Ea].
  destruct (cleanFrom_elim _ _ Hb) as [Tb Eb].
  assert (One : forall s, cleanFrom true s = true ->
                extractTableFromText s = ([s], [])).
  { intros s Hs. destruct (cleanFrom_elim _ _ Hs) as [Ts Es].
    unfold extractTableFromText.
    rewrite split_none by (now apply (clean_no_newline true)).
    cbn [map]. rewrite clean_trim by (unfold clean; now rewrite Hs, orb_true_r).
    destruct s as [|c s]; [discriminate Hs|]. cbn [isEmpty negb filter map].
    unfold splitColumns. rewrite (splitColumnsFrom_tidy true) by assumption.
    cbn [map]. rewrite clean_trim by (unfold clean; now rewrite Hs, orb_true_r).
    reflexivity. }
  split; [apply One; now apply cleanFrom_join|].
  assert (Sb : stopsAt isSpace b = true).
  { apply (stopsAt_startsIn _ notSpace); [|now apply cleanFrom_start].
    intros c Hc. unfold notSpace in Hc. now apply negb_true_iff in Hc. }
  assert (Nws : nextIsSpace (ws ++ b) = true).
  { destruct Hsep as [L| ->]; [|reflexivity].
    destruct ws as [|c ws]; [cbn in L; lia|]. cbn in Hws |- *.
    now apply andb_true_iff in Hws. }
  assert (Cols : splitColumnsFrom false (a ++ ws ++ b) = [a; b]).
  { rewrite (splitColumnsFrom_prefix true a (ws ++ b) "" [b]); auto.
    - now rewrite string_app_nil_r.
    - rewrite splitColumnsFrom_separator by assumption.
      now rewrite (splitColumnsFrom_tidy true). }
  assert (Line : trim (a ++ ws ++ b) = a ++ ws ++ b).
  { unfold trim. rewrite trimStart_id.
    - rewrite <- string_app_assoc. destruct b as [|c b]; [discriminate Hb|].
      apply trimEnd_app_keep; [exact Eb | discriminate].
    - destruct a as [|c a]; [discriminate Ha|]. cbn.
      apply cleanFrom_start in Ha. exact Ha. }
  unfold extractTableFromText.
  rewrite split_none.
  2:{ rewrite !existsc_app, Hnl, (clean_no_newline true a), (clean_no_newline true b);
        auto. }
  cbn [map]. rewrite Line.
  destruct a as [|c a]; [discriminate Ha|]. cbn [append isEmpty negb filter map].
  change (String c (a ++ ws ++ b)) with (String c a ++ ws ++ b).
  unfold splitColumns. rewrite Cols. cbn [map].
  rewrite !clean_trim; [reflexivity | |]; unfold clean.
  - now rewrite Hb, orb_true_r.
  - now rewrite Ha, orb_true_r.
Qed.

Lemma extractTableFromText_columns_witness :
  extractTableFromText "Book Date Amount" = (["Book Date Amount"], [])
  /\ extractTableFromText "Book Date   Amount" = (["Book Date"; "Amount"], []).
Proof.
  split.
  - apply (extractTableFromText_columns "Book Date" "Amount" "  "); try reflexivity.
    left. cbn. lia.
  - apply (extractTableFromText_columns "Book Date" "Amount" "   "); try reflexivity.
    left. cbn. lia.
Defined.

(** ** The upload mutation *)

Import ReceiptUpload.

Section UploadProperties.
Variable readBuffer : list Byte.byte -> result (list Byte.byte).
Variable readDocument : list Byte.byte -> result (option Document).
Variable readSheet : list Byte.byte -> result (list (list (option SheetValue))).
Variable Backend : Type.
Variable Receipt : Type.
Variable id : Receipt -> string.
Variable uploadFile : File -> Backend -> result string * Backend.
Variable createReceipt :
  string -> string -> string -> nat -> Backend -> result Receipt * Backend.
Variable createTransactions :
  string -> string -> list ParsedTransaction -> Backend -> result unit * Backend.

Lemma process_rejected (file : File) (agentId : string) (backend : Backend) (msg : string) :
  parseFile readBuffer readDocument readSheet file = Err msg
  \/ (exists parsed, parseFile readBuffer readDocument readSheet file = Ok parsed
        /\ valid (validateTransactions (transactions parsed)) = false
        /\ msg = "Validation failed: "
                 ++ join ", " (errors (validateTransactions (transactions parsed)))) ->
  process readBuffer readDocument readSheet Backend Receipt id uploadFile createReceipt
          createTransactions file agentId backend
  = (Err msg, backend).
Proof.
  unfold process. intros [E|(parsed & E & V & ->)]; rewrite E; [reflexivity|].
  now rewrite V.
Qed.

Lemma process_accepted (file : File) (agentId : string) (backend backend' : Backend)
      (uploaded : Uploaded Receipt) :
  process readBuffer readDocument readSheet Backend Receipt id uploadFile createReceipt
          createTransactions file agentId backend
  = (Ok uploaded, backend') ->
  exists parsed,
    parseFile readBuffer readDocument readSheet file = Ok parsed
    /\ valid (validateTransactions (transactions parsed)) = true
    /\ transactionCount Receipt uploaded = List.length (transactions parsed).
Proof.
  unfold process.
  destruct (parseFile readBuffer readDocument readSheet file) as [parsed|msg]; [|discriminate].
  destruct (valid (validateTransactions (transactions parsed))) eqn:V; [|discriminate].
  cbn [negb].
  destruct (uploadFile file backend) as [[fileUrl|msg] b1]; [|discriminate].
  destruct (createReceipt (name file) fileUrl (type file) (size file) b1)
    as [[r|msg] b2]; [|discriminate].
  destruct (createTransactions (id r) agentId (transactions parsed) b2)
    as [[u|msg] b3]; [|discriminate].
  intros [= <- <-]. exists parsed. auto.
Qed.

(** X27. A rejected upload leaves the backend alone: when the file cannot
    be parsed, or its transactions do not validate, [mutationFn] rejects with
    the parser's message, or with [Validation failed: ] followed by the
    validator's messages separated by a comma and a space; no call to
    [TransactionService] is made and [isProcessing] is false again. *)
Theorem mutationFn_rejected
        (file : File) (agentId : string) (form : Form) (backend : Backend) (msg : string) :
  parseFile readBuffer readDocument readSheet file = Err msg
  \/ (exists parsed, parseFile readBuffer readDocument readSheet file = Ok parsed
        /\ valid (validateTransactions (transactions parsed)) = false
        /\ msg = "Validation failed: "
                 ++ join ", " (errors (validateTransactions (transactions parsed)))) ->
  mutationFn readBuffer readDocument readSheet Backend Receipt id uploadFile createReceipt
             createTransactions file agentId form backend
  = (Err msg, mkForm false "", backend).
Proof.
  intros H. unfold mutationFn. now rewrite (process_rejected _ _ _ _ H).
Qed.

(** X28. An upload that succeeds has been validated: the file was parsed,
    the list of its transactions is not empty, every transaction passes the
    checks of the validator, and the count that is reported is the number of
    rows of the parsed table. *)
Theorem mutationFn_accepted
        (file : File) (agentId : string) (form form' : Form) (backend backend' : Backend)
        (uploaded : Uploaded Receipt) :
  mutationFn readBuffer readDocument readSheet Backend Receipt id uploadFile createReceipt
             createTransactions file agentId form backend
  = (Ok uploaded, form', backend') ->
  exists parsed,
    parseFile readBuffer readDocument readSheet file = Ok parsed
    /\ transactions parsed <> []
    /\ forallb acceptable (transactions parsed) = true
    /\ transactionCount Receipt uploaded = List.length (rows parsed).
Proof.
  unfold mutationFn.
  destruct (process readBuffer readDocument readSheet Backend Receipt id uploadFile createReceipt
                    createTransactions file agentId backend) as [outcome b] eqn:E.
  intros [= -> _ ->]. apply process_accepted in E.
  destruct E as (parsed & P & V & C). exists parsed.
  apply valid_iff in V. destruct V as [V1 V2].
  pose proof (parseFile_shape _ _ _ _ _ P) as L.
  repeat split; auto. congruence.
Qed.

(** X29. A Word document that has a header row but no date in any first
    cell is refused by the upload with the message
    [Validation failed: No transactions found in the file], and nothing
    reaches the backend. *)
Theorem mutationFn_without_dates
        (file : File) (agentId : string) (form : Form) (backend : Backend)
        (tblEls : Document) (table : ParsedTable) :
  type file = "application/vnd.openxmlformats-officedocument.wordprocessingml.document" ->
  endsWith (toLowerCase (name file)) ".pdf" = false ->
  readDocument (content file) = Ok (Some tblEls) ->
  parseWord readDocument file = Ok table ->
  (forall row, In row (textRows tblEls) ->
               test dateRegex (trim (nth 0 row "")) = false) ->
  mutationFn readBuffer readDocument readSheet Backend Receipt id uploadFile createReceipt
             createTransactions file agentId form backend
  = (Err "Validation failed: No transactions found in the file", mkForm false "", backend).
Proof.
  intros Ht Hn Hread Hparse Hall.
  destruct (no_dates_no_rows _ _ _ _ Hread Hparse Hall) as [_ Et].
  unfold mutationFn, process, parseFile. rewrite Ht, Hn.
  change (("application/vnd.openxmlformats-officedocument.wordprocessingml.document"
           =? "application/pdf") || false) with false.
  rewrite String.eqb_refl. cbn [orb]. rewrite Hparse, Et. reflexivity.
Qed.

End UploadProperties.

Lemma mutationFn_rejected_witness :
  mutationFn (fun bytes => Ok bytes) (fun _ => Ok None) (fun _ => Ok []) nat unit
             (fun _ => "r1")
             (fun _ b => (Ok "url", S b)) (fun _ _ _ _ b => (Ok tt, S b))
             (fun _ _ _ b => (Ok tt, S b))
             (mkFile "text/plain" "statement.txt" []) "agent" (mkForm false "old") 0
  = (Err "Unsupported file type. Please upload PDF, Word (.docx), or Excel files.",
     mkForm false "", 0).
Proof.
  apply mutationFn_rejected. left. reflexivity.
Defined.

Lemma mutationFn_accepted_witness :
  exists parsed,
    parseFile (fun bytes => Ok bytes) (fun _ => Ok (Some statementDocument))
              (fun _ => Ok [])
              (mkFile "" "statement.docx" []) = Ok parsed
    /\ transactions parsed <> []
    /\ forallb acceptable (transactions parsed) = true
    /\ 1 = List.length (rows parsed).
Proof.
  apply (mutationFn_accepted
           (fun bytes => Ok bytes)
           (fun _ => Ok (Some statementDocument)) (fun _ => Ok []) nat unit (fun _ => "r1")
           (fun _ b => (Ok "url", S b)) (fun _ _ _ _ b => (Ok tt, S b))
           (fun _ _ _ b => (Ok tt, S b))
           (mkFile "" "statement.docx" []) "agent" (mkForm false "") (mkForm false "") 0 3
           (mkUploaded unit tt 1)).
  reflexivity.
Defined.

Lemma mutationFn_without_dates_witness :
  mutationFn (fun bytes => Ok bytes)
             (fun _ => Ok (Some [ [ [["Date"]; ["Debit"]]; [["yesterday"]; ["12.50"]] ] ]))
             (fun _ => Ok []) nat unit (fun _ => "r1")
             (fun _ b => (Ok "url", S b)) (fun _ _ _ _ b => (Ok tt, S b))
             (fun _ _ _ b => (Ok tt, S b))
             (mkFile "application/vnd.openxmlformats-officedocument.wordprocessingml.document"
                     "statement.docx" [])
             "agent" (mkForm false "") 0
  = (Err "Validation failed: No transactions found in the file", mkForm false "", 0).
Proof.
  apply (mutationFn_without_dates _ _ _ _ _ _ _ _ _ _ _ _ _
           [ [ [["Date"]; ["Debit"]]; [["yesterday"]; ["12.50"]] ] ]
           (parseTableData ["Date"; "Debit"] [])).
  - reflexivity.
  - reflexivity.
  - reflexivity.
  - reflexivity.
  - intros row H. cbn in H. destruct H as [<-|[<-|[]]]; reflexivity.
Defined.

(** ** The boilerplate filter *)

Lemma matchesAt_alt_l {A} (p q : Pat A) cur :
  matchesAt p cur = true -> matchesAt (alt p q) cur = true.
Proof. unfold matchesAt, alt. destruct (p cur); [discriminate | reflexivity]. Qed.

Lemma matchesAt_alt_r {A} (p q : Pat A) cur :
  matchesAt q cur = true -> matchesAt (alt p q) cur = true.
Proof.
  unfold matchesAt, alt. destruct (p cur); [auto | reflexivity].
Qed.

Lemma toLowerCase_app (a b : string) :
  toLowerCase (a ++ b) = toLowerCase a ++ toLowerCase b.
Proof. induction a as [|c a IH]; cbn; [reflexivity | now rewrite IH]. Qed.

Lemma startsWith_app (k b : string) : startsWith (k ++ b) k = true.
Proof. apply startsWith_iff. eauto. Qed.

Lemma matchesAt_lit (k : string) (pv : option ascii) (s : string) :
  toLowerCase k = k -> startsWith s k = true ->
  matchesAt (lit true k) (pv, s) = true.
Proof.
  intros Hk H. apply startsWith_iff in H. destruct H as [b ->].
  unfold matchesAt, lit. rewrite toLowerCase_app, Hk, startsWith_app. reflexivity.
Qed.

Lemma searchFrom_includes {A} (p : Pat A) (k : string) (pv : option ascii) (s : string) :
  (forall pv' s', startsWith s' k = true -> matchesAt p (pv', s') = true) ->
  includes s k = true -> searchFrom p pv s = true.
Proof.
  intros Hp. revert pv. induction s as [|c s IH]; intros pv; cbn [includes searchFrom].
  - rewrite orb_false_r. intros H. now rewrite (Hp pv "" H).
  - intros H. apply orb_true_iff in H. destruct H as [H|H].
    + now rewrite (Hp pv _ H).
    + rewrite (IH (Some c) H). apply orb_true_r.
Qed.

Lemma substring_all (s : string) : String.substring 0 (String.length s) s = s.
Proof. induction s as [|c s IH]; cbn; [reflexivity | now rewrite IH]. Qed.

Lemma repc_zero (p : ascii -> bool) (hi : option nat) (pv : option ascii) (s : string) :
  repc p 0 hi pv s <> [].
Proof.
  destruct s as [|c s]; cbn [repc Nat.eqb]; [discriminate|].
  destruct (p c && canMore hi); [|discriminate].
  intros H. apply app_eq_nil in H. destruct H as [_ H]. discriminate.
Qed.

Lemma repc_nonempty (p : ascii -> bool) (pv : option ascii) (c : ascii) (s : string) :
  p c = true -> repc p 1 None pv (String c s) <> [].
Proof.
  intros H. cbn [repc]. rewrite H. cbn [canMore andb pred less Nat.eqb].
  rewrite app_nil_r. intros E. apply map_eq_nil in E. exact (repc_zero _ _ _ _ E).
Qed.

Lemma matchesAt_page (pv : option ascii) (d : ascii) (s : string) :
  isDigit d = true ->
  startsWith s ("page " ++ String d "") = true ->
  matchesAt (lit true "page " ;;; rep isDigit 1 None)%re (pv, s) = true.
Proof.
  intros Hd H. apply startsWith_iff in H. destruct H as [b ->].
  cbn [append]. unfold matchesAt, bind, lit. cbn [toLowerCase startsWith].
  change (lowerChar "p") with "p"%char. change (lowerChar "a") with "a"%char.
  change (lowerChar "g") with "g"%char. change (lowerChar "e") with "e"%char.
  change (lowerChar " ") with " "%char.
  rewrite !Ascii.eqb_refl. cbn [andb].
  cbn [String.length Nat.sub String.substring flat_map lastOr String.get].
  rewrite substring_all. unfold rep. rewrite app_nil_r.
  match goal with
  | |- context [repc isDigit 1 None ?q (String d b)] =>
      pose proof (repc_nonempty isDigit q d b Hd) as N;
      destruct (repc isDigit 1 None q (String d b)); [contradiction | reflexivity]
  end.
Qed.

(** X30. Boilerplate rows.  A logical row whose text (the cells joined by
    spaces) contains [opening balance], [closing balance], [period start],
    [period end], or [page ] followed by a digit, in any letter case and
    anywhere in the row, is dropped by the final filter of [parseWord],
    whatever else the row holds. *)
Theorem keepRow_drops_boilerplate (r : list string) :
  (forall k, In k boilerplatePhrases ->
             includes (toLowerCase (join " " r)) k = true -> keepRow r = false)
  /\ (forall d, isDigit d = true ->
                includes (toLowerCase (join " " r)) ("page " ++ String d "") = true ->
                keepRow r = false).
Proof.
  split.
  - intros k Hk H. unfold keepRow, test.
    rewrite (searchFrom_includes boilerplate k None _); [reflexivity | | exact H].
    intros pv' s' Hs. unfold boilerplate. cbn in Hk.
    destruct Hk as [<-|[<-|[<-|[<-|[]]]]].
    + apply matchesAt_alt_l. now apply matchesAt_lit.
    + apply matchesAt_alt_r, matchesAt_alt_l. now apply matchesAt_lit.
    + apply matchesAt_alt_r, matchesAt_alt_r, matchesAt_alt_l. now apply matchesAt_lit.
    + apply matchesAt_alt_r, matchesAt_alt_r, matchesAt_alt_r, matchesAt_alt_l.
      now apply matchesAt_lit.
  - intros d Hd H. unfold keepRow, test.
    rewrite (searchFrom_includes boilerplate ("page " ++ String d "") None _);
      [reflexivity | | exact H].
    intros pv' s' Hs. unfold boilerplate.
    apply matchesAt_alt_r, matchesAt_alt_r, matchesAt_alt_r, matchesAt_alt_r.
    now apply (matchesAt_page _ d).
Qed.

Lemma keepRow_drops_boilerplate_witness :
  keepRow ["05/03/2024"; "REF77"; "Fee for Page 2 reprint"; "10.00"] = false.
Proof.
  apply (proj2 (keepRow_drops_boilerplate
                  ["05/03/2024"; "REF77"; "Fee for Page 2 reprint"; "10.00"]) "2"%char);
    reflexivity.
Defined.
